(** * Valentine's Day proposal page: a model of [script.js]

    The page is a three-stage single-page application (CAPTCHA, proposal,
    congratulations).  The script keeps its state in module-level variables
    and in the DOM, and everything that happens later is a callback handed to
    the host with [setTimeout], [setInterval] or [requestAnimationFrame].

    The model follows that structure:
    - every module-level variable and every DOM property the script writes is
      a field of a record, grouped by subsystem;
    - every callback the script hands to the host is a constructor of [Task]
      carrying the variables its closure captured, and the host keeps the
      pending ones in a table ([Host.t]);
    - what the host decides (the values returned by [Math.random], [Math.sin],
      [Date.now], the viewport size and the element rectangles) is an input of
      each handler, gathered in [Env];
    - JavaScript numbers are exact rationals ([Q]): rounding of doubles is not
      modelled.  A product [Math.random() * k] is below [k] here, while the
      double the script computes may round up to [k]; the ranges stated in
      Part II are therefore closed at their upper end.

    Part I holds the definitions, Part II the properties. *)

From Stdlib Require Import QArith Qround Qminmax Lqa.
From Stdlib Require Import Ascii String.
From stdpp Require Import gmap strings list.

(** * Part I: the program *)

(** ** Numbers *)

Module Num.
Definition ltb (x y : Q) : bool := negb (Qle_bool y x).
Definition ofN (n : N) : Q := inject_Z (Z.of_N n).
Definition ofnat (n : nat) : Q := inject_Z (Z.of_nat n).
(** [Math.floor] *)
Definition floor (x : Q) : Z := Qfloor x.
(** The double nearest to pi, [Math.PI], exactly. *)
Definition PI : Q := 884279719003555 # 281474976710656.
End Num.

(** ** Pages *)

Inductive Page := CAPTCHA | PROPOSAL | CONGRATS.

#[global] Instance Page_eq_dec : EqDecision Page.
Proof. solve_decision. Defined.

(** ** Callbacks

    The closures of the typewriter capture their own variables.  A reveal
    started by [startTypewriter] owns [signal], [lineData] and [onComplete];
    each call of [typeHTMLContent] owns the target element, the parsed
    segments and its continuation.  A reveal is one chain of callbacks: at
    most one of them is pending at a time and nothing else writes the
    counters [currentLineIdx], [segIdx] and [built], so a pending callback
    carries their current values. *)

Inductive SegType := tag | char.

Record Segment := { type : SegType; content : string }.

(** An entry of [typewriterOriginals]; [el] is the position of the line among
    the [.typewriter-line] elements of the message card. *)
Record Original := { el : nat; originalHTML : string; isInstant : bool }.

(** The only [onComplete] the script passes: the arrow function of
    [openEnvelope] that shows the replay button. *)
Inductive Callback := ShowReplayButton.

Record Run := {
  signal : nat;                    (* the AbortController created by this run *)
  lineData : list Original;
  onComplete : option Callback }.

Record Typer := {
  typer_el : nat;
  segments : list Segment;
  typer_run : Run;                 (* [signal] and the scope of [onDone] *)
  typer_next : nat }.              (* [currentLineIdx] seen by [onDone] *)

Inductive Task :=
  (* showPage: the two nested animation frames *)
  | ShowPageOuter (target : Page)
  | ShowPageInner (target : Page)
  (* verifyCaptcha *)
  | CaptchaSuccess
  | ShakeEnd
  (* startFloatingHearts *)
  | SpawnHeart
  | RemoveHeart (heart : nat)
  (* evadeNoButton *)
  | NoButtonVanish
  (* the Yes button *)
  | YesTransition
  | StartStarfield
  | StopConfetti
  (* openEnvelope *)
  | EnvelopeReveal
  | BeginTypewriter
  (* confetti *)
  | ConfettiFrame
  | ConfettiSecondary
  (* starfield *)
  | StarFrame
  | StarResize
  (* typewriter *)
  | TypeNextLine (run : Run) (currentLineIdx : nat)
  | TypeNext (typer : Typer) (built : string) (segIdx : nat)
  (* side galleries *)
  | AdvanceLeft
  | StartRightGallery
  | AdvanceRight.

(** ** The host's timers and animation frames

    Handles are positive integers, so a stored handle is truthy exactly when
    the variable is not [null].  [setTimeout] and [setInterval] share one pool
    of handles; animation frames have their own.  The delay is recorded, but
    the model lets any pending callback run next: what holds for every order
    holds for the order the clock imposes. *)

Module Host.
Inductive Kind := Timeout | Interval.

Record Timer := {
  timer_id : positive; timer_kind : Kind; timer_delay : Q; timer_task : Task }.

Record Frame := { frame_id : positive; frame_task : Task }.

Record t := {
  timers : list Timer;
  nextTimer : positive;
  frames : list Frame;
  nextFrame : positive }.

Definition empty : t :=
  {| timers := []; nextTimer := 1; frames := []; nextFrame := 1 |}.

Definition schedule (k : Kind) (task : Task) (delay : Q) (h : t) : positive * t :=
  (nextTimer h,
   {| timers := timers h ++ [Build_Timer (nextTimer h) k delay task];
      nextTimer := Pos.succ (nextTimer h);
      frames := frames h;
      nextFrame := nextFrame h |}).

Definition setTimeout := schedule Timeout.
Definition setInterval := schedule Interval.

(** [clearTimeout] and [clearInterval] *)
Definition clearTimer (id : positive) (h : t) : t :=
  {| timers := filter (fun x => timer_id x ≠ id) (timers h);
     nextTimer := nextTimer h;
     frames := frames h;
     nextFrame := nextFrame h |}.

Definition requestAnimationFrame (task : Task) (h : t) : positive * t :=
  (nextFrame h,
   {| timers := timers h;
      nextTimer := nextTimer h;
      frames := frames h ++ [Build_Frame (nextFrame h) task];
      nextFrame := Pos.succ (nextFrame h) |}).

Definition cancelAnimationFrame (id : positive) (h : t) : t :=
  {| timers := timers h;
     nextTimer := nextTimer h;
     frames := filter (fun x => frame_id x ≠ id) (frames h);
     nextFrame := nextFrame h |}.

Definition findTimer (id : positive) (h : t) : option Timer :=
  List.find (fun x => bool_decide (timer_id x = id)) (timers h).

Definition findFrame (id : positive) (h : t) : option Frame :=
  List.find (fun x => bool_decide (frame_id x = id)) (frames h).

(** The host takes a callback out of the table when it runs it; an
    interval stays. *)
Definition takeTimer (id : positive) (h : t) : option (Task * t) :=
  match findTimer id h with
  | Some x =>
      Some (timer_task x,
            match timer_kind x with
            | Timeout => clearTimer id h
            | Interval => h
            end)
  | None => None
  end.

Definition takeFrame (id : positive) (h : t) : option (Task * t) :=
  match findFrame id h with
  | Some x => Some (frame_task x, cancelAnimationFrame id h)
  | None => None
  end.
End Host.

(** ** What the host supplies to a handler *)

Record Rect := { left : Q; top : Q; width : Q; height : Q }.

Definition right (r : Rect) : Q := left r + width r.
Definition bottom (r : Rect) : Q := top r + height r.

Record Env := {
  random : nat -> Q;          (* the n-th value [Math.random()] returns *)
  sin : Q -> Q;               (* [Math.sin] *)
  now : Z;                    (* [Date.now()] *)
  innerWidth : N;
  innerHeight : N;
  noBtnRect : Rect;           (* [noBtn.getBoundingClientRect()] *)
  yesRect : Rect;             (* [yesBtn.getBoundingClientRect()] *)
  offsetWidth : N;            (* of the congratulations section *)
  scrollHeight : N }.

(** ** Page 1: the CAPTCHA *)

Module Captcha.
Record ImageData := { src : string; isTarget : bool; alt : string }.

Definition CAPTCHA_IMAGES : list ImageData := [
  {| src := "assets/captcha/boyfriend-1.jpg"; isTarget := true;  alt := "Photo candidate 1" |};
  {| src := "assets/captcha/boyfriend-2.jpg"; isTarget := true;  alt := "Photo candidate 2" |};
  {| src := "assets/captcha/boyfriend-3.jpg"; isTarget := true;  alt := "Photo candidate 3" |};
  {| src := "assets/captcha/boyfriend-4.jpg"; isTarget := true;  alt := "Photo candidate 4" |};
  {| src := "assets/captcha/other-1.jpg";     isTarget := false; alt := "Photo candidate 5" |};
  {| src := "assets/captcha/other-2.jpg";     isTarget := false; alt := "Photo candidate 6" |};
  {| src := "assets/captcha/other-3.jpg";     isTarget := false; alt := "Photo candidate 7" |};
  {| src := "assets/captcha/other-4.jpg";     isTarget := false; alt := "Photo candidate 8" |};
  {| src := "assets/captcha/other-5.jpg";     isTarget := false; alt := "Photo candidate 9" |} ].

(** A [.captcha-cell] of the grid.  [dataset.index] is written as a number
    and read back with [parseInt], so it is kept as the number;
    [dataset.isTarget] is the string the DOM stores. *)
Record Cell := {
  dataset_index : nat;
  dataset_isTarget : string;
  aria_label : string;
  img_src : string;
  img_alt : string;
  selected : bool;                 (* class [selected] *)
  aria_checked : bool }.

Record State := {
  grid : list Cell;                (* children of [captchaGrid] *)
  selectedCells : gset nat;
  failureCount : nat;
  verifyBtn_disabled : bool;
  captchaError_textContent : string;
  captchaError_visible : bool;
  captchaHint_visible : bool;
  container_transition : string;   (* [captchaContainer.style] *)
  container_transform : string;
  container_opacity : string;
  container_shake : bool }.

Definition String_of_bool (b : bool) : string := if b then "true" else "false".

(** [[arr[i], arr[j]] = [arr[j], arr[i]]], for indices inside the array
    (the only ones [shuffleArray] produces from values below 1). *)
Definition swap {A} (arr : list A) (i j : nat) : list A :=
  match arr !! i, arr !! j with
  | Some ai, Some aj => <[j := ai]> (<[i := aj]> arr)
  | _, _ => arr
  end.

(** The loop of [shuffleArray], from [i] down to 1; [k] counts the calls of
    [Math.random] made so far. *)
Fixpoint shuffleLoop {A} (rnd : nat -> Q) (k i : nat) (arr : list A) : list A :=
  match i with
  | O => arr
  | S i' =>
      let j := Z.to_nat (Num.floor (rnd k * Num.ofnat (i + 1))) in
      shuffleLoop rnd (S k) i' (swap arr i j)
  end.

Definition shuffleArray {A} (rnd : nat -> Q) (arr : list A) : list A :=
  shuffleLoop rnd 0 (length arr - 1) arr.

Definition updateVerifyButton (s : State) : State :=
  {| grid := grid s;
     selectedCells := selectedCells s;
     failureCount := failureCount s;
     verifyBtn_disabled := bool_decide (size (selectedCells s) = 0%nat);
     captchaError_textContent := captchaError_textContent s;
     captchaError_visible := captchaError_visible s;
     captchaHint_visible := captchaHint_visible s;
     container_transition := container_transition s;
     container_transform := container_transform s;
     container_opacity := container_opacity s;
     container_shake := container_shake s |}.

Definition createCell (index : nat) (imgData : ImageData) : Cell :=
  {| dataset_index := index;
     dataset_isTarget := String_of_bool (isTarget imgData);
     aria_label := alt imgData;
     img_src := src imgData;
     img_alt := alt imgData;
     selected := false;
     aria_checked := false |}.

Definition initCaptchaGrid (rnd : nat -> Q) (s : State) : State :=
  let s1 :=
    updateVerifyButton
      {| grid := [];
         selectedCells := ∅;
         failureCount := failureCount s;
         verifyBtn_disabled := verifyBtn_disabled s;
         captchaError_textContent := captchaError_textContent s;
         captchaError_visible := captchaError_visible s;
         captchaHint_visible := captchaHint_visible s;
         container_transition := container_transition s;
         container_transform := container_transform s;
         container_opacity := container_opacity s;
         container_shake := container_shake s |} in
  let shuffled := shuffleArray rnd CAPTCHA_IMAGES in
  {| grid := imap createCell shuffled;
     selectedCells := selectedCells s1;
     failureCount := failureCount s1;
     verifyBtn_disabled := verifyBtn_disabled s1;
     captchaError_textContent := captchaError_textContent s1;
     captchaError_visible := captchaError_visible s1;
     captchaHint_visible := captchaHint_visible s1;
     container_transition := container_transition s1;
     container_transform := container_transform s1;
     container_opacity := container_opacity s1;
     container_shake := container_shake s1 |}.

Definition markCell (b : bool) (c : Cell) : Cell :=
  {| dataset_index := dataset_index c;
     dataset_isTarget := dataset_isTarget c;
     aria_label := aria_label c;
     img_src := img_src c;
     img_alt := img_alt c;
     selected := b;
     aria_checked := b |}.

(** [toggleCell(cell, index)], where [cell] is the grid's cell number
    [index] (the listener is installed on that cell by [initCaptchaGrid]). *)
Definition toggleCell (index : nat) (s : State) : State :=
  let has := bool_decide (index ∈ selectedCells s) in
  let s1 :=
    updateVerifyButton
      {| grid := alter (markCell (negb has)) index (grid s);
         selectedCells :=
           if has then selectedCells s ∖ {[index]} else {[index]} ∪ selectedCells s;
         failureCount := failureCount s;
         verifyBtn_disabled := verifyBtn_disabled s;
         captchaError_textContent := captchaError_textContent s;
         captchaError_visible := captchaError_visible s;
         captchaHint_visible := captchaHint_visible s;
         container_transition := container_transition s;
         container_transform := container_transform s;
         container_opacity := container_opacity s;
         container_shake := container_shake s |} in
  {| grid := grid s1;
     selectedCells := selectedCells s1;
     failureCount := failureCount s1;
     verifyBtn_disabled := verifyBtn_disabled s1;
     captchaError_textContent := captchaError_textContent s1;
     captchaError_visible := false;
     captchaHint_visible := captchaHint_visible s1;
     container_transition := container_transition s1;
     container_transform := container_transform s1;
     container_opacity := container_opacity s1;
     container_shake := container_shake s1 |}.

(** The [forEach] of [verifyCaptcha]: one pass over the cells that clears
    the flag at every cell whose target flag and selection differ. *)
Definition checkCell (sel : gset nat) (allCorrect : bool) (cell : Cell) : bool :=
  let index := dataset_index cell in
  let isTarget := String.eqb (dataset_isTarget cell) "true" in
  let isSelected := bool_decide (index ∈ sel) in
  if negb (Bool.eqb isTarget isSelected) then false else allCorrect.

Definition allCorrect (s : State) : bool :=
  fold_left (checkCell (selectedCells s)) (grid s) true.

Definition messages : list string := [
  "Hmm, that's not right. Try again";
  "Umm ... come on now";
  "Ok now i'm offended 💔" ].

Definition verifyCaptcha (s : State) (h : Host.t) : State * Host.t :=
  if allCorrect s then
    ({| grid := grid s;
        selectedCells := selectedCells s;
        failureCount := failureCount s;
        verifyBtn_disabled := verifyBtn_disabled s;
        captchaError_textContent := captchaError_textContent s;
        captchaError_visible := captchaError_visible s;
        captchaHint_visible := captchaHint_visible s;
        container_transition := "transform 400ms ease, opacity 400ms ease";
        container_transform := "scale(0.95)";
        container_opacity := "0";
        container_shake := container_shake s |},
     snd (Host.setTimeout CaptchaSuccess 500 h))
  else
    let failureCount' := S (failureCount s) in
    let msgIndex := Nat.min (failureCount' - 1) (length messages - 1) in
    ({| grid := grid s;
        selectedCells := selectedCells s;
        failureCount := failureCount';
        verifyBtn_disabled := verifyBtn_disabled s;
        captchaError_textContent := nth msgIndex messages "undefined";
        captchaError_visible := true;
        captchaHint_visible := true;
        container_transition := container_transition s;
        container_transform := container_transform s;
        container_opacity := container_opacity s;
        container_shake := true |},
     snd (Host.setTimeout ShakeEnd 500 h)).

(** The timer that ends the shake. *)
Definition endShake (s : State) : State :=
  {| grid := grid s;
     selectedCells := selectedCells s;
     failureCount := failureCount s;
     verifyBtn_disabled := verifyBtn_disabled s;
     captchaError_textContent := captchaError_textContent s;
     captchaError_visible := captchaError_visible s;
     captchaHint_visible := captchaHint_visible s;
     container_transition := container_transition s;
     container_transform := container_transform s;
     container_opacity := container_opacity s;
     container_shake := false |}.

(** What the replay handler writes in this subsystem before it rebuilds
    the grid. *)
Definition replayReset (s : State) : State :=
  {| grid := grid s;
     selectedCells := ∅;
     failureCount := 0;
     verifyBtn_disabled := verifyBtn_disabled s;
     captchaError_textContent := captchaError_textContent s;
     captchaError_visible := false;
     captchaHint_visible := false;
     container_transition := "";
     container_transform := "";
     container_opacity := "";
     container_shake := container_shake s |}.
End Captcha.

(** ** Page 2: the No button *)

Module Evasion.
Local Open Scope Q_scope.

Definition MAX_EVADE_BEFORE_GONE : nat := 8.

(** The values the script gives to [noBtn.style.transition]. *)
Inductive Transition :=
  | NoTransition                       (* the empty string *)
  | Vanish                             (* transform 400ms ease, opacity 400ms ease *)
  | Move (transitionSpeed : Z).        (* left ..ms cubic-bezier(..), top ..ms cubic-bezier(..) *)

Record State := {
  noEvadeAttempts : nat;
  noButtonGone : bool;
  display : string;                    (* [noBtn.style] *)
  transform : string;
  opacity : string;
  transition : Transition;
  style_left : option Q;               (* [Some x] is x px, [None] the empty string *)
  style_top : option Q;
  evading : bool;                      (* class [evading] *)
  noGoneMsg_textContent : string;
  noGoneMsg_visible : bool;
  lastEvadeCheck : Z }.

(** A mouse event, or a touch event with its list of touches. *)
Inductive PointerEvent :=
  | Mouse (clientX clientY : Q)
  | Touch (touches : list (Q * Q)).

(** [distance < detectionRadius], with
    [distance = Math.hypot(dx, dy)].  The square root is not a rational in
    general and the distance is used for this comparison only; the radius
    is at least 60, and for a positive radius the root is below it exactly
    when the sum of squares is below its square. *)
Definition closerThan (dx dy : Q) (radius : Z) : bool :=
  Num.ltb (dx * dx + dy * dy) (inject_Z radius * inject_Z radius).

Definition detectionRadius (attempts : nat) : Z :=
  Z.max 60 (120 - Z.of_nat attempts * 5).

Definition transitionSpeed (attempts : nat) : Z :=
  Z.max 150 (300 - Z.of_nat attempts * 15).

Definition padding : Q := 20.

(** The condition of the [do ... while], after [attempts++]. *)
Definition overlapsYes (yes : Rect) (btnW btnH newX newY : Q) : bool :=
  Num.ltb newX (right yes + 30) &&
  Num.ltb (left yes - 30) (newX + btnW) &&
  Num.ltb newY (bottom yes + 30) &&
  Num.ltb (top yes - 30) (newY + btnH).

Definition sampleX (rnd : nat -> Q) (vw btnW : Q) (attempts : nat) : Q :=
  padding + rnd (2 * attempts)%nat * (vw - btnW - padding * 2).

Definition sampleY (rnd : nat -> Q) (vh btnH : Q) (attempts : nat) : Q :=
  padding + rnd (2 * attempts + 1)%nat * (vh - btnH - padding * 2).

(** The [do ... while] loop.  [attempts] is the counter before the body
    runs; the result is the last sample and the final counter, or [None]
    when [fuel] iterations were not enough to leave the loop. *)
Fixpoint sampleLoop (fuel : nat) (rnd : nat -> Q) (vw vh btnW btnH : Q)
    (yes : Rect) (attempts : nat) : option (Q * Q * nat) :=
  match fuel with
  | O => None
  | S fuel' =>
      let newX := sampleX rnd vw btnW attempts in
      let newY := sampleY rnd vh btnH attempts in
      let attempts' := S attempts in
      if (attempts' <? 50)%nat && overlapsYes yes btnW btnH newX newY
      then sampleLoop fuel' rnd vw vh btnW btnH yes attempts'
      else Some (newX, newY, attempts')
  end.

(** Coordinates of the pointer; a touch event without touches makes
    [e.touches[0].clientX] throw before anything is written. *)
Definition pointer (e : PointerEvent) : option (Q * Q) :=
  match e with
  | Mouse x y => Some (x, y)
  | Touch (t :: _) => Some t
  | Touch [] => None
  end.

Definition triggers (env : Env) (e : PointerEvent) (s : State) : bool :=
  match pointer e with
  | Some (clientX, clientY) =>
      let btnCenterX := left (noBtnRect env) + width (noBtnRect env) / 2 in
      let btnCenterY := top (noBtnRect env) + height (noBtnRect env) / 2 in
      closerThan (clientX - btnCenterX) (clientY - btnCenterY)
        (detectionRadius (noEvadeAttempts s))
  | None => false
  end.

Definition evadeNoButton (env : Env) (e : PointerEvent) (s : State) (h : Host.t)
    : State * Host.t :=
  if noButtonGone s then (s, h)
  else if triggers env e s then
    let attempts := S (noEvadeAttempts s) in
    if (MAX_EVADE_BEFORE_GONE <=? attempts)%nat then
      ({| noEvadeAttempts := attempts;
          noButtonGone := true;
          display := display s;
          transform := "scale(0)";
          opacity := "0";
          transition := Vanish;
          style_left := style_left s;
          style_top := style_top s;
          evading := evading s;
          noGoneMsg_textContent := noGoneMsg_textContent s;
          noGoneMsg_visible := noGoneMsg_visible s;
          lastEvadeCheck := lastEvadeCheck s |},
       snd (Host.setTimeout NoButtonVanish 400 h))
    else
      let vw := Num.ofN (innerWidth env) in
      let vh := Num.ofN (innerHeight env) in
      let btnW := width (noBtnRect env) in
      let btnH := height (noBtnRect env) in
      match sampleLoop 50 (random env) vw vh btnW btnH (yesRect env) 0 with
      | Some (newX, newY, _) =>
          ({| noEvadeAttempts := attempts;
              noButtonGone := false;
              display := display s;
              transform := transform s;
              opacity := opacity s;
              transition := Move (transitionSpeed attempts);
              style_left := Some newX;
              style_top := Some newY;
              evading := true;
              noGoneMsg_textContent := noGoneMsg_textContent s;
              noGoneMsg_visible := noGoneMsg_visible s;
              lastEvadeCheck := lastEvadeCheck s |}, h)
      | None => (s, h)      (* never: the loop leaves within 50 iterations *)
      end
  else (s, h).

(** The timer set when the button retires. *)
Definition vanish (s : State) : State :=
  {| noEvadeAttempts := noEvadeAttempts s;
     noButtonGone := noButtonGone s;
     display := "none";
     transform := transform s;
     opacity := opacity s;
     transition := transition s;
     style_left := style_left s;
     style_top := style_top s;
     evading := evading s;
     noGoneMsg_textContent := "Feck Aff...";
     noGoneMsg_visible := true;
     lastEvadeCheck := lastEvadeCheck s |}.

Definition setLastEvadeCheck (t : Z) (s : State) : State :=
  {| noEvadeAttempts := noEvadeAttempts s;
     noButtonGone := noButtonGone s;
     display := display s;
     transform := transform s;
     opacity := opacity s;
     transition := transition s;
     style_left := style_left s;
     style_top := style_top s;
     evading := evading s;
     noGoneMsg_textContent := noGoneMsg_textContent s;
     noGoneMsg_visible := noGoneMsg_visible s;
     lastEvadeCheck := t |}.

(** What the replay handler writes in this subsystem. *)
Definition replayReset (s : State) : State :=
  {| noEvadeAttempts := 0;
     noButtonGone := false;
     display := "";
     transform := "";
     opacity := "";
     transition := NoTransition;
     style_left := None;
     style_top := None;
     evading := false;
     noGoneMsg_textContent := "";
     noGoneMsg_visible := false;
     lastEvadeCheck := lastEvadeCheck s |}.
End Evasion.

(** ** The confetti engine *)

Module Confetti.
Local Open Scope Q_scope.

Record Piece := {
  x : Q; y : Q; w : Q; h : Q;
  color : string;
  rotation : Q; rotationSpeed : Q;
  velocityX : Q; velocityY : Q;
  oscillateAmplitude : Q; oscillateSpeed : Q;
  phase : Q;
  opacity : Q }.

Definition CONFETTI_COLORS : list string := [
  "#E63946"; "#FF6B9D"; "#FFB3BA"; "#FFD6E8";
  "#FF4757"; "#FF6348"; "#FFA07A"; "#FFFFFF";
  "#C2185B"; "#F50057"; "#FF80AB"; "#FFCDD2" ].

Record State := {
  confettiPieces : list Piece;
  confettiAnimationId : option positive;
  canvas_width : N;                  (* [confettiCanvas.width] *)
  canvas_height : N;
  painted : list Piece }.            (* what was drawn since the canvas was last cleared *)

(** Writing the size of a canvas also clears it. *)
Definition resizeConfettiCanvas (env : Env) (s : State) : State :=
  {| confettiPieces := confettiPieces s;
     confettiAnimationId := confettiAnimationId s;
     canvas_width := innerWidth env;
     canvas_height := innerHeight env;
     painted := [] |}.

(** The piece built from the values [rnd k], ..., [rnd (k + 11)], in the
    order the object literal calls [Math.random]. *)
Definition createConfettiPiece (rnd : nat -> Q) (k : nat) (cw ch : N) : Piece :=
  {| x := rnd k * Num.ofN cw;
     y := rnd (k + 1)%nat * Num.ofN ch - Num.ofN ch;
     w := 6 + rnd (k + 2)%nat * 8;
     h := 4 + rnd (k + 3)%nat * 6;
     color :=
       nth (Z.to_nat (Num.floor (rnd (k + 4)%nat * Num.ofnat (length CONFETTI_COLORS))))
           CONFETTI_COLORS "undefined";
     rotation := rnd (k + 5)%nat * 360;
     rotationSpeed := (rnd (k + 6)%nat - 0.5) * 10;
     velocityX := (rnd (k + 7)%nat - 0.5) * 4;
     velocityY := 1.5 + rnd (k + 8)%nat * 3;
     oscillateAmplitude := rnd (k + 9)%nat * 3;
     oscillateSpeed := 0.02 + rnd (k + 10)%nat * 0.03;
     phase := rnd (k + 11)%nat * Num.PI * 2;
     opacity := 1 |}.

(** [count] pieces, the first from [rnd k]. *)
Fixpoint createPieces (rnd : nat -> Q) (k count : nat) (cw ch : N) : list Piece :=
  match count with
  | O => []
  | S count' =>
      createConfettiPiece rnd k cw ch :: createPieces rnd (k + 12) count' cw ch
  end.

(** The fade near the bottom.  When the canvas has height 0 the quotient
    is a positive number over 0, that is [Infinity], and
    [Math.max(0, 1 - Infinity)] is 0. *)
Definition fade (ch y' : Q) : Q :=
  if Qeq_bool (ch * 0.2) 0 then 0
  else Qmax 0 (1 - (y' - ch * 0.8) / (ch * 0.2)).

(** The body of the [forEach] of [animateConfetti], up to the drawing. *)
Definition advance (sine : Q -> Q) (ch : Q) (p : Piece) : Piece :=
  let phase' := phase p + oscillateSpeed p in
  let x' := x p + (velocityX p + sine phase' * oscillateAmplitude p) in
  let y' := y p + velocityY p in
  {| x := x';
     y := y';
     w := w p; h := h p; color := color p;
     rotation := rotation p + rotationSpeed p;
     rotationSpeed := rotationSpeed p;
     velocityX := velocityX p; velocityY := velocityY p;
     oscillateAmplitude := oscillateAmplitude p;
     oscillateSpeed := oscillateSpeed p;
     phase := phase';
     opacity := if Num.ltb (ch * 0.8) y' then fade ch y' else opacity p |}.

(** The predicate of the [filter]. *)
Definition onScreen (ch : Q) (p : Piece) : bool :=
  Num.ltb (y p) (ch + 50) && Num.ltb 0.01 (opacity p).

Definition animateConfetti (env : Env) (s : State) (hs : Host.t) : State * Host.t :=
  let ch := Num.ofN (canvas_height s) in
  let moved := map (advance (sin env) ch) (confettiPieces s) in
  let kept := List.filter (onScreen ch) moved in
  if (0 <? length kept)%nat then
    let '(id, hs') := Host.requestAnimationFrame ConfettiFrame hs in
    ({| confettiPieces := kept;
        confettiAnimationId := Some id;
        canvas_width := canvas_width s;
        canvas_height := canvas_height s;
        painted := moved |}, hs')
  else
    ({| confettiPieces := kept;
        confettiAnimationId := confettiAnimationId s;
        canvas_width := canvas_width s;
        canvas_height := canvas_height s;
        painted := moved |}, hs).

Definition push (ps : list Piece) (s : State) : State :=
  {| confettiPieces := confettiPieces s ++ ps;
     confettiAnimationId := confettiAnimationId s;
     canvas_width := canvas_width s;
     canvas_height := canvas_height s;
     painted := painted s |}.

Definition launchConfetti (env : Env) (s : State) (hs : Host.t) : State * Host.t :=
  let s1 := resizeConfettiCanvas env s in
  let s2 := push (createPieces (random env) 0 150 (canvas_width s1) (canvas_height s1)) s1 in
  let hs1 := snd (Host.setTimeout ConfettiSecondary 400 hs) in
  match confettiAnimationId s2 with
  | None => animateConfetti env s2 hs1
  | Some _ => (s2, hs1)
  end.

(** The secondary burst, 400ms after a launch. *)
Definition secondaryBurst (env : Env) (s : State) : State :=
  push (createPieces (random env) 0 80 (canvas_width s) (canvas_height s)) s.

(** [stopConfetti] has an empty body. *)
Definition stopConfetti (s : State) : State := s.

(** The block of the replay handler that clears the confetti. *)
Definition replayReset (s : State) (hs : Host.t) : State * Host.t :=
  ({| confettiPieces := [];
      confettiAnimationId := None;
      canvas_width := canvas_width s;
      canvas_height := canvas_height s;
      painted := [] |},
   match confettiAnimationId s with
   | Some id => Host.cancelAnimationFrame id hs
   | None => hs
   end).
End Confetti.

(** ** Page 2: floating hearts *)

Module Hearts.
Local Open Scope Q_scope.

Definition HEART_EMOJIS : list string :=
  ["💗"; "💕"; "💖"; "❤️"; "💘"; "💝"; "🩷"; "♥️"].

Record Heart := {
  node : nat;                       (* which [span] it is *)
  textContent : string;
  style_left : Q;                   (* in percent *)
  animationDuration : Q;            (* in seconds *)
  animationDelay : Q;
  fontSize : Q }.                   (* in rem *)

Record State := {
  heartInterval : option positive;
  hearts : list Heart;              (* children of [heartsContainer] *)
  created : nat }.                  (* spans created so far *)

Definition spawnHeart (env : Env) (s : State) (hs : Host.t) : State * Host.t :=
  let rnd := random env in
  let duration := 6 + rnd 2%nat * 8 in
  let heart :=
    {| node := created s;
       textContent :=
         nth (Z.to_nat (Num.floor (rnd 0%nat * Num.ofnat (length HEART_EMOJIS))))
             HEART_EMOJIS "undefined";
       style_left := rnd 1%nat * 100;
       animationDuration := duration;
       animationDelay := rnd 3%nat * 2;
       fontSize := 0.8 + rnd 4%nat * 1.5 |} in
  ({| heartInterval := heartInterval s;
      hearts := hearts s ++ [heart];
      created := S (created s) |},
   snd (Host.setTimeout (RemoveHeart (node heart)) ((duration + 2) * 1000) hs)).

Definition removeHeart (n : nat) (s : State) : State :=
  {| heartInterval := heartInterval s;
     hearts := List.filter (fun x => negb (Nat.eqb (node x) n)) (hearts s);
     created := created s |}.

(** The loop that spawns a few hearts at once: [setTimeout(spawnHeart, i * 200)]
    for [i] from [i0] to 7. *)
Fixpoint spawnSoon (count i0 : nat) (hs : Host.t) : Host.t :=
  match count with
  | O => hs
  | S count' =>
      spawnSoon count' (S i0) (snd (Host.setTimeout SpawnHeart (Num.ofnat i0 * 200) hs))
  end.

Definition startFloatingHearts (s : State) (hs : Host.t) : State * Host.t :=
  match heartInterval s with
  | Some _ => (s, hs)
  | None =>
      let '(id, hs1) := Host.setInterval SpawnHeart 400 hs in
      ({| heartInterval := Some id; hearts := hearts s; created := created s |},
       spawnSoon 8 0 hs1)
  end.

Definition stopFloatingHearts (s : State) (hs : Host.t) : State * Host.t :=
  match heartInterval s with
  | Some id =>
      ({| heartInterval := None; hearts := hearts s; created := created s |},
       Host.clearTimer id hs)
  | None => (s, hs)
  end.

(** [heartsContainer.innerHTML = ''] *)
Definition clear (s : State) : State :=
  {| heartInterval := heartInterval s; hearts := []; created := created s |}.
End Hearts.

(** ** Page 3: the starfield *)

Module Starfield.
Local Open Scope Q_scope.

Record Star := {
  x : Q; y : Q; radius : Q;
  baseAlpha : Q; alpha : Q;
  twinkleSpeed : Q; phase : Q;
  hue : Q; saturation : Q }.

(** The two [fillStyle]s of [animateStars]:
    [hsla(hue, saturation%, 85%, alpha)] and [rgba(255, 255, 255, alpha)]. *)
Inductive Fill :=
  | Hsla (hue saturation alpha : Q)
  | White (alpha : Q).

(** A disc filled on the canvas by [arc] and [fill]. *)
Record Disc := { disc_x : Q; disc_y : Q; disc_radius : Q; disc_fill : Fill }.

Record State := {
  stars : list Star;
  starAnimId : option positive;
  canvas_width : N;                  (* [starfieldCanvas.width] *)
  canvas_height : N;
  painted : list Disc;               (* the discs drawn since the canvas was last cleared *)
  starResizeTimer : option positive }.

Definition resizeStarfield (env : Env) (s : State) : State :=
  {| stars := stars s;
     starAnimId := starAnimId s;
     canvas_width := offsetWidth env;
     canvas_height := scrollHeight env;
     painted := [];
     starResizeTimer := starResizeTimer s |}.

(** [Math.random() > 0.7 ? lo + Math.random() * 40 : 0]: the second value is
    drawn only when the first passes the test.  The result comes with the
    number of values used. *)
Definition tinted (rnd : nat -> Q) (k : nat) (lo : Q) : Q * nat :=
  if Num.ltb 0.7 (rnd k) then (lo + rnd (S k) * 40, 2%nat) else (0, 1%nat).

(** The star built from [rnd k] onwards, and the index of the next unused
    value. *)
Definition createStar (rnd : nat -> Q) (k : nat) (cw ch : N) : Star * nat :=
  let '(hue', n1) := tinted rnd (k + 6) 340 in
  let '(saturation', n2) := tinted rnd (k + 6 + n1) 30 in
  ({| x := rnd k * Num.ofN cw;
      y := rnd (k + 1)%nat * Num.ofN ch;
      radius := 0.4 + rnd (k + 2)%nat * 1.8;
      baseAlpha := 0.3 + rnd (k + 3)%nat * 0.7;
      alpha := 0;
      twinkleSpeed := 0.005 + rnd (k + 4)%nat * 0.02;
      phase := rnd (k + 5)%nat * Num.PI * 2;
      hue := hue';
      saturation := saturation' |},
   (k + 6 + n1 + n2)%nat).

Fixpoint createStarsFrom (rnd : nat -> Q) (k count : nat) (cw ch : N) : list Star :=
  match count with
  | O => []
  | S count' =>
      let '(star, k') := createStar rnd k cw ch in
      star :: createStarsFrom rnd k' count' cw ch
  end.

Definition starCount (cw ch : N) : nat :=
  Z.to_nat (Z.min 200 (Num.floor (Num.ofN (cw * ch) / 4000))).

Definition createStars (env : Env) (s : State) : State :=
  {| stars :=
       createStarsFrom (random env) 0 (starCount (canvas_width s) (canvas_height s))
         (canvas_width s) (canvas_height s);
     starAnimId := starAnimId s;
     canvas_width := canvas_width s;
     canvas_height := canvas_height s;
     painted := painted s;
     starResizeTimer := starResizeTimer s |}.

Definition twinkle (sine : Q -> Q) (st : Star) : Star :=
  let phase' := phase st + twinkleSpeed st in
  {| x := x st; y := y st; radius := radius st;
     baseAlpha := baseAlpha st;
     alpha := baseAlpha st * (0.5 + 0.5 * sine phase');
     twinkleSpeed := twinkleSpeed st;
     phase := phase';
     hue := hue st; saturation := saturation st |}.

(** What the body of the [forEach] draws for a star: its disc, tinted when
    [saturation > 0], and for [radius > 1.2] a larger, fainter white disc
    around it. *)
Definition discs (st : Star) : list Disc :=
  {| disc_x := x st; disc_y := y st; disc_radius := radius st;
     disc_fill :=
       if Num.ltb 0 (saturation st)
       then Hsla (hue st) (saturation st) (alpha st)
       else White (alpha st) |} ::
  (if Num.ltb 1.2 (radius st)
   then [{| disc_x := x st; disc_y := y st; disc_radius := radius st * 2.5;
            disc_fill := White (alpha st * 0.12) |}]
   else []).

Definition animateStars (env : Env) (s : State) (hs : Host.t) : State * Host.t :=
  let moved := map (twinkle (sin env)) (stars s) in
  let '(id, hs') := Host.requestAnimationFrame StarFrame hs in
  ({| stars := moved;
      starAnimId := Some id;
      canvas_width := canvas_width s;
      canvas_height := canvas_height s;
      painted := flat_map discs moved;
      starResizeTimer := starResizeTimer s |}, hs').

Definition startStarfield (env : Env) (s : State) (hs : Host.t) : State * Host.t :=
  match starAnimId s with
  | Some _ => (s, hs)
  | None => animateStars env (createStars env (resizeStarfield env s)) hs
  end.

Definition stopStarfield (s : State) (hs : Host.t) : State * Host.t :=
  ({| stars := [];
      starAnimId := None;
      canvas_width := canvas_width s;
      canvas_height := canvas_height s;
      painted := [];
      starResizeTimer := starResizeTimer s |},
   match starAnimId s with
   | Some id => Host.cancelAnimationFrame id hs
   | None => hs
   end).

(** The debounced [resize] listener. *)
Definition onResize (s : State) (hs : Host.t) : State * Host.t :=
  let hs1 :=
    match starResizeTimer s with
    | Some id => Host.clearTimer id hs
    | None => hs
    end in
  let '(id, hs2) := Host.setTimeout StarResize 250 hs1 in
  ({| stars := stars s;
      starAnimId := starAnimId s;
      canvas_width := canvas_width s;
      canvas_height := canvas_height s;
      painted := painted s;
      starResizeTimer := Some id |}, hs2).

(** The callback of that timer. *)
Definition resized (env : Env) (s : State) : State :=
  match starAnimId s with
  | Some _ => createStars env (resizeStarfield env s)
  | None => s
  end.
End Starfield.

(** ** Page 3: the side galleries *)

Module Gallery.
Inductive Side := Left | Right.

Record State := {
  leftSlideIdx : nat;
  rightSlideIdx : nat;
  leftAutoPlayId : option positive;
  rightAutoPlayId : option positive;
  row_hidden : bool;                    (* class [hidden] of the message and gallery row *)
  galleryLeftTrack : option (list bool);   (* class [active] of each slide; [None]: no such element *)
  galleryRightTrack : option (list bool) }.

Definition update (s : State) (l r : nat) (lt rt : option (list bool)) : State :=
  {| leftSlideIdx := l;
     rightSlideIdx := r;
     leftAutoPlayId := leftAutoPlayId s;
     rightAutoPlayId := rightAutoPlayId s;
     row_hidden := row_hidden s;
     galleryLeftTrack := lt;
     galleryRightTrack := rt |}.

Definition advanceSideGallery (side : Side) (s : State) : State :=
  let track := match side with Left => galleryLeftTrack s | Right => galleryRightTrack s end in
  match track with
  | None => s
  | Some slides =>
      if (length slides =? 0)%nat then s
      else
        let idx := match side with Left => leftSlideIdx s | Right => rightSlideIdx s end in
        let idx' := ((idx + 1) mod length slides)%nat in
        let slides' := <[idx' := true]> (<[idx := false]> slides) in
        match side with
        | Left => update s idx' (rightSlideIdx s) (Some slides') (galleryRightTrack s)
        | Right => update s (leftSlideIdx s) idx' (galleryLeftTrack s) (Some slides')
        end
  end.

Definition setIds (s : State) (l r : option positive) : State :=
  {| leftSlideIdx := leftSlideIdx s;
     rightSlideIdx := rightSlideIdx s;
     leftAutoPlayId := l;
     rightAutoPlayId := r;
     row_hidden := row_hidden s;
     galleryLeftTrack := galleryLeftTrack s;
     galleryRightTrack := galleryRightTrack s |}.

Definition stopSideGalleries (s : State) (hs : Host.t) : State * Host.t :=
  let '(s1, hs1) :=
    match leftAutoPlayId s with
    | Some id => (setIds s None (rightAutoPlayId s), Host.clearTimer id hs)
    | None => (s, hs)
    end in
  match rightAutoPlayId s1 with
  | Some id => (setIds s1 (leftAutoPlayId s1) None, Host.clearTimer id hs1)
  | None => (s1, hs1)
  end.

Definition startSideGalleries (s : State) (hs : Host.t) : State * Host.t :=
  let '(s1, hs1) := stopSideGalleries s hs in
  let '(id, hs2) := Host.setInterval AdvanceLeft 4000 hs1 in
  (setIds s1 (Some id) (rightAutoPlayId s1),
   snd (Host.setTimeout StartRightGallery 2000 hs2)).

(** The callback of the 2 second stagger. *)
Definition startRight (s : State) (hs : Host.t) : State * Host.t :=
  let '(id, hs1) := Host.setInterval AdvanceRight 4000 hs in
  (setIds s (leftAutoPlayId s) (Some id), hs1).

Definition setHidden (b : bool) (s : State) : State :=
  {| leftSlideIdx := leftSlideIdx s;
     rightSlideIdx := rightSlideIdx s;
     leftAutoPlayId := leftAutoPlayId s;
     rightAutoPlayId := rightAutoPlayId s;
     row_hidden := b;
     galleryLeftTrack := galleryLeftTrack s;
     galleryRightTrack := galleryRightTrack s |}.

Definition showGallery (s : State) (hs : Host.t) : State * Host.t :=
  startSideGalleries (setHidden false s) hs.

(** [slides.forEach((s, i) => s.classList.toggle('active', i === 0))] *)
Definition firstOnly (slides : list bool) : list bool :=
  imap (fun i _ => Nat.eqb i 0) slides.

Definition resetGallery (s : State) (hs : Host.t) : State * Host.t :=
  let '(s1, hs1) := stopSideGalleries s hs in
  let s2 := setHidden true s1 in
  (update s2 0 0 (firstOnly <$> galleryLeftTrack s2) (firstOnly <$> galleryRightTrack s2),
   hs1).
End Gallery.

(** ** Page 3: the typewriter *)

Module Typewriter.
Local Open Scope Q_scope.

(** A [.typewriter-line] element: its markup, whether the cursor [span]
    is its last child, and the class [typewriter-active]. *)
Record Line := { innerHTML : string; cursor : bool; active : bool }.

Record State := {
  typewriterAbortController : option nat;
  aborted : list bool;               (* [signal.aborted] of every controller created so far *)
  typewriterOriginals : list Original;
  lines : list Line }.

Definition isAborted (s : State) (c : nat) : bool := default false (aborted s !! c).

(** The scanner at the head of [typeHTMLContent].  Every iteration moves
    [i] forward, so [fuel] iterations are enough when [fuel] is the number
    of characters left. *)
Fixpoint scan (fuel : nat) (html : string) (i : nat) (segs : list Segment) : list Segment :=
  match fuel with
  | O => segs
  | S fuel' =>
      if (i <? String.length html)%nat then
        match String.get i html with
        | Some c =>
            if Ascii.eqb c "<"%char then
              match String.index i ">" html with
              | Some tagEnd =>
                  scan fuel' html (tagEnd + 1)
                    (segs ++ [Build_Segment tag (String.substring i (tagEnd + 1 - i) html)])
              | None =>
                  scan fuel' html (i + 1) (segs ++ [Build_Segment char (String c EmptyString)])
              end
            else
              scan fuel' html (i + 1) (segs ++ [Build_Segment char (String c EmptyString)])
        | None => segs
        end
      else segs
  end.

Definition parse (html : string) : list Segment := scan (String.length html) html 0 [].

Definition setLine (i : nat) (l : Line) (s : State) : State :=
  {| typewriterAbortController := typewriterAbortController s;
     aborted := aborted s;
     typewriterOriginals := typewriterOriginals s;
     lines := <[i := l]> (lines s) |}.

Definition lineActive (s : State) (i : nat) : bool :=
  match lines s !! i with Some l => active l | None => false end.

(** [typeHTMLContent(el, html, signal, onDone)]: parse, show the cursor
    alone, and start typing after 200ms. *)
Definition typeHTMLContent (target : nat) (html : string) (run : Run) (next : nat)
    (s : State) (hs : Host.t) : State * Host.t :=
  let typer :=
    {| typer_el := target; segments := parse html; typer_run := run; typer_next := next |} in
  (setLine target {| innerHTML := ""; cursor := true; active := lineActive s target |} s,
   snd (Host.setTimeout (TypeNext typer "" 0) 200 hs)).

(** [typeNextLine], with the callback it invokes, if any. *)
Definition typeNextLine (run : Run) (currentLineIdx : nat) (s : State) (hs : Host.t)
    : State * Host.t * option Callback :=
  if isAborted s (signal run) then (s, hs, None)
  else
    match lineData run !! currentLineIdx with
    | None => (s, hs, onComplete run)
    | Some data =>
        let next := S currentLineIdx in
        if isInstant data then
          (setLine (el data)
             {| innerHTML := originalHTML data; cursor := false;
                active := lineActive s (el data) |} s,
           snd (Host.setTimeout (TypeNextLine run next) 300 hs), None)
        else
          (typeHTMLContent (el data) (originalHTML data) run next s hs, None)
    end.

(** What a call of [typeNext] does after the abort test, following the
    calls it makes to itself while the next segment is a tag: either the
    segments are used up, or a character was added. *)
Inductive Typed :=
  | LineDone (built : string)
  | Character (built : string) (segIdx : nat) (content : string).

Fixpoint typeTags (rest : list Segment) (built : string) (segIdx : nat) : Typed :=
  match rest with
  | [] => LineDone built
  | seg :: rest' =>
      match type seg with
      | tag => typeTags rest' (built ++ content seg)%string (S segIdx)
      | char => Character (built ++ content seg)%string (S segIdx) (content seg)
      end
  end.

(** ['.!?,;:'.includes(content)] *)
Definition punctuation (c : string) : bool :=
  match String.index 0 c ".!?,;:" with Some _ => true | None => false end.

Definition BASE_SPEED : Q := 30.

Definition typeNext (env : Env) (typer : Typer) (built : string) (segIdx : nat)
    (s : State) (hs : Host.t) : State * Host.t :=
  let run := typer_run typer in
  let target := typer_el typer in
  if isAborted s (signal run) then (s, hs)
  else
    match typeTags (drop segIdx (segments typer)) built segIdx with
    | LineDone built' =>
        (setLine target
           {| innerHTML := built'; cursor := false; active := lineActive s target |} s,
         snd (Host.setTimeout (TypeNextLine run (typer_next typer)) 400 hs))
    | Character built' segIdx' c =>
        let delay := BASE_SPEED + random env 0%nat * 20 in
        let delay := if punctuation c then delay + 120 else delay in
        (setLine target
           {| innerHTML := built'; cursor := true; active := lineActive s target |} s,
         snd (Host.setTimeout (TypeNext typer built' segIdx') delay hs))
    end.

(** The [map] of [startTypewriter]: every line is emptied and marked
    active. *)
Definition clearLines (origs : list Original) (ls : list Line) : list Line :=
  fold_left
    (fun ls orig => <[el orig := {| innerHTML := ""; cursor := false; active := true |}]> ls)
    origs ls.

Definition startTypewriter (onComplete : option Callback) (s : State) (hs : Host.t)
    : State * Host.t * option Callback :=
  let controller := length (aborted s) in
  let s1 :=
    {| typewriterAbortController := Some controller;
       aborted := aborted s ++ [false];
       typewriterOriginals := typewriterOriginals s;
       lines := clearLines (typewriterOriginals s) (lines s) |} in
  let run :=
    {| signal := controller;
       lineData := typewriterOriginals s;
       onComplete := onComplete |} in
  typeNextLine run 0 s1 hs.

(** The first statement of [resetTypewriter]: abort the current
    controller, if there is one, and forget it. *)
Definition abort (s : State) : State :=
  match typewriterAbortController s with
  | Some c =>
      {| typewriterAbortController := None;
         aborted := <[c := true]> (aborted s);
         typewriterOriginals := typewriterOriginals s;
         lines := lines s |}
  | None => s
  end.

(** The second: every line gets its original markup back. *)
Definition restoreLines (origs : list Original) (ls : list Line) : list Line :=
  fold_left
    (fun ls orig =>
       <[el orig := {| innerHTML := originalHTML orig; cursor := false; active := false |}]> ls)
    origs ls.

Definition resetTypewriter (s : State) : State :=
  let s1 := abort s in
  {| typewriterAbortController := typewriterAbortController s1;
     aborted := aborted s1;
     typewriterOriginals := typewriterOriginals s1;
     lines := restoreLines (typewriterOriginals s1) (lines s1) |}.

(** The [DOMContentLoaded] listener that fills [typewriterOriginals] from
    the lines of the page; [instant] tells which lines carry the attribute
    [data-typewriter-instant]. *)
Definition capture (ls : list Line) (instant : nat -> bool) : list Original :=
  imap (fun i l => {| el := i; originalHTML := innerHTML l; isInstant := instant i |}) ls.
End Typewriter.

(** ** Page 3: the envelope *)

Module Envelope.
Record State := {
  envelopeOpened : bool;
  wrapper_opened : bool;             (* classes of [envelopeWrapper] *)
  wrapper_revealed : bool;
  prompt_hidden : bool;              (* class [hidden] of [envelopePrompt] *)
  card_revealing : bool }.           (* class [revealing] of [messageCard] *)

(** The synchronous part of [openEnvelope]; [None] when the guard
    returns. *)
Definition openEnvelope (s : State) : option State :=
  if envelopeOpened s then None
  else Some {| envelopeOpened := true;
               wrapper_opened := true;
               wrapper_revealed := wrapper_revealed s;
               prompt_hidden := prompt_hidden s;
               card_revealing := card_revealing s |}.

(** What the 900ms callback writes here. *)
Definition reveal (s : State) : State :=
  {| envelopeOpened := envelopeOpened s;
     wrapper_opened := wrapper_opened s;
     wrapper_revealed := true;
     prompt_hidden := true;
     card_revealing := true |}.

(** What the replay handler writes here. *)
Definition replayReset (s : State) : State :=
  {| envelopeOpened := false;
     wrapper_opened := false;
     wrapper_revealed := false;
     prompt_hidden := false;
     card_revealing := false |}.
End Envelope.

(** ** The page as a whole *)

Record Pages := {
  currentPage : Page;
  captcha_active : bool;               (* class [active] of each [.page] *)
  proposal_active : bool;
  congrats_active : bool }.

Record App := {
  pages : Pages;
  captcha : Captcha.State;
  hearts : Hearts.State;
  evasion : Evasion.State;
  envelope : Envelope.State;
  confetti : Confetti.State;
  starfield : Starfield.State;
  typewriter : Typewriter.State;
  gallery : Gallery.State;
  replayBtn_hidden : bool;             (* class [hidden] of [replayBtn] *)
  host : Host.t }.

Definition setPages (v : Pages) (a : App) : App :=
  {| pages := v; captcha := captcha a; hearts := hearts a; evasion := evasion a;
     envelope := envelope a; confetti := confetti a; starfield := starfield a;
     typewriter := typewriter a; gallery := gallery a;
     replayBtn_hidden := replayBtn_hidden a; host := host a |}.

Definition setCaptcha (v : Captcha.State) (a : App) : App :=
  {| pages := pages a; captcha := v; hearts := hearts a; evasion := evasion a;
     envelope := envelope a; confetti := confetti a; starfield := starfield a;
     typewriter := typewriter a; gallery := gallery a;
     replayBtn_hidden := replayBtn_hidden a; host := host a |}.

Definition setHearts (v : Hearts.State) (a : App) : App :=
  {| pages := pages a; captcha := captcha a; hearts := v; evasion := evasion a;
     envelope := envelope a; confetti := confetti a; starfield := starfield a;
     typewriter := typewriter a; gallery := gallery a;
     replayBtn_hidden := replayBtn_hidden a; host := host a |}.

Definition setEvasion (v : Evasion.State) (a : App) : App :=
  {| pages := pages a; captcha := captcha a; hearts := hearts a; evasion := v;
     envelope := envelope a; confetti := confetti a; starfield := starfield a;
     typewriter := typewriter a; gallery := gallery a;
     replayBtn_hidden := replayBtn_hidden a; host := host a |}.

Definition setEnvelope (v : Envelope.State) (a : App) : App :=
  {| pages := pages a; captcha := captcha a; hearts := hearts a; evasion := evasion a;
     envelope := v; confetti := confetti a; starfield := starfield a;
     typewriter := typewriter a; gallery := gallery a;
     replayBtn_hidden := replayBtn_hidden a; host := host a |}.

Definition setConfetti (v : Confetti.State) (a : App) : App :=
  {| pages := pages a; captcha := captcha a; hearts := hearts a; evasion := evasion a;
     envelope := envelope a; confetti := v; starfield := starfield a;
     typewriter := typewriter a; gallery := gallery a;
     replayBtn_hidden := replayBtn_hidden a; host := host a |}.

Definition setStarfield (v : Starfield.State) (a : App) : App :=
  {| pages := pages a; captcha := captcha a; hearts := hearts a; evasion := evasion a;
     envelope := envelope a; confetti := confetti a; starfield := v;
     typewriter := typewriter a; gallery := gallery a;
     replayBtn_hidden := replayBtn_hidden a; host := host a |}.

Definition setTypewriter (v : Typewriter.State) (a : App) : App :=
  {| pages := pages a; captcha := captcha a; hearts := hearts a; evasion := evasion a;
     envelope := envelope a; confetti := confetti a; starfield := starfield a;
     typewriter := v; gallery := gallery a;
     replayBtn_hidden := replayBtn_hidden a; host := host a |}.

Definition setGallery (v : Gallery.State) (a : App) : App :=
  {| pages := pages a; captcha := captcha a; hearts := hearts a; evasion := evasion a;
     envelope := envelope a; confetti := confetti a; starfield := starfield a;
     typewriter := typewriter a; gallery := v;
     replayBtn_hidden := replayBtn_hidden a; host := host a |}.

Definition setReplayHidden (v : bool) (a : App) : App :=
  {| pages := pages a; captcha := captcha a; hearts := hearts a; evasion := evasion a;
     envelope := envelope a; confetti := confetti a; starfield := starfield a;
     typewriter := typewriter a; gallery := gallery a;
     replayBtn_hidden := v; host := host a |}.

Definition setHost (v : Host.t) (a : App) : App :=
  {| pages := pages a; captcha := captcha a; hearts := hearts a; evasion := evasion a;
     envelope := envelope a; confetti := confetti a; starfield := starfield a;
     typewriter := typewriter a; gallery := gallery a;
     replayBtn_hidden := replayBtn_hidden a; host := v |}.

(** A function of one subsystem and the host, run on the page. *)
Definition onCaptcha (f : Captcha.State -> Host.t -> Captcha.State * Host.t) (a : App) : App :=
  let '(v, hs) := f (captcha a) (host a) in setHost hs (setCaptcha v a).

Definition onHearts (f : Hearts.State -> Host.t -> Hearts.State * Host.t) (a : App) : App :=
  let '(v, hs) := f (hearts a) (host a) in setHost hs (setHearts v a).

Definition onEvasion (f : Evasion.State -> Host.t -> Evasion.State * Host.t) (a : App) : App :=
  let '(v, hs) := f (evasion a) (host a) in setHost hs (setEvasion v a).

Definition onConfetti (f : Confetti.State -> Host.t -> Confetti.State * Host.t) (a : App) : App :=
  let '(v, hs) := f (confetti a) (host a) in setHost hs (setConfetti v a).

Definition onStarfield (f : Starfield.State -> Host.t -> Starfield.State * Host.t) (a : App) : App :=
  let '(v, hs) := f (starfield a) (host a) in setHost hs (setStarfield v a).

Definition onGallery (f : Gallery.State -> Host.t -> Gallery.State * Host.t) (a : App) : App :=
  let '(v, hs) := f (gallery a) (host a) in setHost hs (setGallery v a).

Definition invoke (cb : option Callback) (a : App) : App :=
  match cb with
  | Some ShowReplayButton => setReplayHidden false a
  | None => a
  end.

Definition onTypewriter
    (f : Typewriter.State -> Host.t -> Typewriter.State * Host.t * option Callback)
    (a : App) : App :=
  let '(v, hs, cb) := f (typewriter a) (host a) in
  invoke cb (setHost hs (setTypewriter v a)).

Definition later (task : Task) (delay : Q) (a : App) : App :=
  setHost (snd (Host.setTimeout task delay (host a))) a.

(** *** Navigation *)

Definition showPage (pageId : Page) (a : App) : App :=
  let hs := snd (Host.requestAnimationFrame (ShowPageOuter pageId) (host a)) in
  setHost hs
    (setPages {| currentPage := pageId; captcha_active := false;
                 proposal_active := false; congrats_active := false |} a).

Definition activate (target : Page) (p : Pages) : Pages :=
  {| currentPage := currentPage p;
     captcha_active := if decide (target = CAPTCHA) then true else captcha_active p;
     proposal_active := if decide (target = PROPOSAL) then true else proposal_active p;
     congrats_active := if decide (target = CONGRATS) then true else congrats_active p |}.

(** *** Listeners *)

Definition mousemove (env : Env) (clientX clientY : Q) (a : App) : App :=
  if decide (currentPage (pages a) = PROPOSAL) then
    if (now env - Evasion.lastEvadeCheck (evasion a) <? 50)%Z then a
    else
      onEvasion (Evasion.evadeNoButton env (Evasion.Mouse clientX clientY))
        (setEvasion (Evasion.setLastEvadeCheck (now env) (evasion a)) a)
  else a.

Definition touchmove (env : Env) (touches : list (Q * Q)) (a : App) : App :=
  if decide (currentPage (pages a) = PROPOSAL) then
    onEvasion (Evasion.evadeNoButton env (Evasion.Touch touches)) a
  else a.

Definition touchstart (env : Env) (touches : list (Q * Q)) (a : App) : App :=
  onEvasion (Evasion.evadeNoButton env (Evasion.Touch touches)) a.

Definition yesClick (env : Env) (a : App) : App :=
  let a1 := onHearts Hearts.stopFloatingHearts a in
  let a2 := onConfetti (Confetti.launchConfetti env) a1 in
  later StopConfetti 5000 (later YesTransition 1200 a2).

Definition openEnvelope (a : App) : App :=
  match Envelope.openEnvelope (envelope a) with
  | None => a
  | Some v => later EnvelopeReveal 900 (setEnvelope v a)
  end.

Definition isActivationKey (key : string) : bool :=
  String.eqb key "Enter" || String.eqb key " ".

Definition resize (env : Env) (a : App) : App :=
  onStarfield Starfield.onResize
    (setConfetti (Confetti.resizeConfettiCanvas env (confetti a)) a).

(** The click listener of the replay button. *)
Definition replay (env : Env) (a : App) : App :=
  let a := setReplayHidden true a in
  let a := setCaptcha (Captcha.replayReset (captcha a)) a in
  let a := setEvasion (Evasion.replayReset (evasion a)) a in
  let a := setEnvelope (Envelope.replayReset (envelope a)) a in
  let a := setTypewriter (Typewriter.resetTypewriter (typewriter a)) a in
  let a := onGallery Gallery.resetGallery a in
  let a := onStarfield Starfield.stopStarfield a in
  let a := setCaptcha (Captcha.initCaptchaGrid (random env) (captcha a)) a in
  let a := onConfetti Confetti.replayReset a in
  let a := onHearts Hearts.stopFloatingHearts a in
  let a := setHearts (Hearts.clear (hearts a)) a in
  showPage CAPTCHA a.

(** *** Callbacks *)

Definition runTask (env : Env) (task : Task) (a : App) : App :=
  match task with
  | ShowPageOuter target =>
      setHost (snd (Host.requestAnimationFrame (ShowPageInner target) (host a))) a
  | ShowPageInner target => setPages (activate target (pages a)) a
  | CaptchaSuccess => onHearts Hearts.startFloatingHearts (showPage PROPOSAL a)
  | ShakeEnd => setCaptcha (Captcha.endShake (captcha a)) a
  | SpawnHeart => onHearts (Hearts.spawnHeart env) a
  | RemoveHeart n => setHearts (Hearts.removeHeart n (hearts a)) a
  | NoButtonVanish => setEvasion (Evasion.vanish (evasion a)) a
  | YesTransition => later StartStarfield 700 (showPage CONGRATS a)
  | StartStarfield => onStarfield (Starfield.startStarfield env) a
  | StopConfetti => setConfetti (Confetti.stopConfetti (confetti a)) a
  | EnvelopeReveal =>
      let a1 := setEnvelope (Envelope.reveal (envelope a)) a in
      later BeginTypewriter 600 (onGallery Gallery.showGallery a1)
  | BeginTypewriter => onTypewriter (Typewriter.startTypewriter (Some ShowReplayButton)) a
  | ConfettiFrame => onConfetti (Confetti.animateConfetti env) a
  | ConfettiSecondary => setConfetti (Confetti.secondaryBurst env (confetti a)) a
  | StarFrame => onStarfield (Starfield.animateStars env) a
  | StarResize => setStarfield (Starfield.resized env (starfield a)) a
  | TypeNextLine run idx => onTypewriter (Typewriter.typeNextLine run idx) a
  | TypeNext typer built segIdx =>
      onTypewriter
        (fun s hs => (Typewriter.typeNext env typer built segIdx s hs, None)) a
  | AdvanceLeft => setGallery (Gallery.advanceSideGallery Gallery.Left (gallery a)) a
  | StartRightGallery => onGallery Gallery.startRight a
  | AdvanceRight => setGallery (Gallery.advanceSideGallery Gallery.Right (gallery a)) a
  end.

(** *** Events *)

Inductive Event :=
  | CellClick (index : nat)
  | CellKey (key : string) (index : nat)
  | VerifyClick
  | MouseMove (clientX clientY : Q)
  | TouchMove (touches : list (Q * Q))
  | TouchStart (touches : list (Q * Q))
  | YesClick
  | EnvelopeClick
  | EnvelopeKey (key : string)
  | Resize
  | ReplayClick
  | TimerFires (id : positive)
  | FrameFires (id : positive).

(** A cell listener exists for the cells of the current grid only. *)
Definition toggle (index : nat) (a : App) : App :=
  if (index <? length (Captcha.grid (captcha a)))%nat
  then setCaptcha (Captcha.toggleCell index (captcha a)) a
  else a.

Definition dispatch (env : Env) (ev : Event) (a : App) : App :=
  match ev with
  | CellClick index => toggle index a
  | CellKey key index => if isActivationKey key then toggle index a else a
  | VerifyClick => onCaptcha Captcha.verifyCaptcha a
  | MouseMove clientX clientY => mousemove env clientX clientY a
  | TouchMove touches => touchmove env touches a
  | TouchStart touches => touchstart env touches a
  | YesClick => yesClick env a
  | EnvelopeClick => openEnvelope a
  | EnvelopeKey key => if isActivationKey key then openEnvelope a else a
  | Resize => resize env a
  | ReplayClick => replay env a
  | TimerFires id =>
      match Host.takeTimer id (host a) with
      | Some (task, hs) => runTask env task (setHost hs a)
      | None => a
      end
  | FrameFires id =>
      match Host.takeFrame id (host a) with
      | Some (task, hs) => runTask env task (setHost hs a)
      | None => a
      end
  end.

(** A run of the page: the events in order, each with what the host
    supplies for it. *)
Fixpoint run (evs : list (Env * Event)) (a : App) : App :=
  match evs with
  | [] => a
  | (env, ev) :: evs' => run evs' (dispatch env ev a)
  end.

(** *** The page when the script has loaded

    [index.html] is not among the sources.  What the model needs from it is
    gathered in [Markup]; the classes the elements start with are taken to be
    the ones the replay handler sets (first page shown, replay button and
    gallery row hidden, nothing selected). *)

Record Markup := {
  markup_lines : list string;              (* markup of each [.typewriter-line] *)
  markup_instant : nat -> bool;            (* which of them are [data-typewriter-instant] *)
  markup_leftSlides : option nat;          (* number of slides of each track, if the track exists *)
  markup_rightSlides : option nat;
  markup_starWidth : N;                    (* size of the starfield canvas *)
  markup_starHeight : N }.

Definition loadedLines (m : Markup) : list Typewriter.Line :=
  map (fun html => {| Typewriter.innerHTML := html; Typewriter.cursor := false;
                      Typewriter.active := false |}) (markup_lines m).

(** The state after the script has run and both [DOMContentLoaded]
    listeners have been called. *)
Definition initialApp (m : Markup) (env : Env) : App :=
  {| pages := {| currentPage := CAPTCHA; captcha_active := true;
                 proposal_active := false; congrats_active := false |};
     captcha :=
       Captcha.initCaptchaGrid (random env)
         {| Captcha.grid := [];
            Captcha.selectedCells := ∅;
            Captcha.failureCount := 0;
            Captcha.verifyBtn_disabled := true;
            Captcha.captchaError_textContent := "";
            Captcha.captchaError_visible := false;
            Captcha.captchaHint_visible := false;
            Captcha.container_transition := "";
            Captcha.container_transform := "";
            Captcha.container_opacity := "";
            Captcha.container_shake := false |};
     hearts := {| Hearts.heartInterval := None; Hearts.hearts := []; Hearts.created := 0 |};
     evasion :=
       {| Evasion.noEvadeAttempts := 0;
          Evasion.noButtonGone := false;
          Evasion.display := "";
          Evasion.transform := "";
          Evasion.opacity := "";
          Evasion.transition := Evasion.NoTransition;
          Evasion.style_left := None;
          Evasion.style_top := None;
          Evasion.evading := false;
          Evasion.noGoneMsg_textContent := "";
          Evasion.noGoneMsg_visible := false;
          Evasion.lastEvadeCheck := 0 |};
     envelope :=
       {| Envelope.envelopeOpened := false;
          Envelope.wrapper_opened := false;
          Envelope.wrapper_revealed := false;
          Envelope.prompt_hidden := false;
          Envelope.card_revealing := false |};
     confetti :=
       {| Confetti.confettiPieces := [];
          Confetti.confettiAnimationId := None;
          Confetti.canvas_width := innerWidth env;
          Confetti.canvas_height := innerHeight env;
          Confetti.painted := [] |};
     starfield :=
       {| Starfield.stars := [];
          Starfield.starAnimId := None;
          Starfield.canvas_width := markup_starWidth m;
          Starfield.canvas_height := markup_starHeight m;
          Starfield.painted := [];
          Starfield.starResizeTimer := None |};
     typewriter :=
       {| Typewriter.typewriterAbortController := None;
          Typewriter.aborted := [];
          Typewriter.typewriterOriginals :=
            Typewriter.capture (loadedLines m) (markup_instant m);
          Typewriter.lines := loadedLines m |};
     gallery :=
       {| Gallery.leftSlideIdx := 0;
          Gallery.rightSlideIdx := 0;
          Gallery.leftAutoPlayId := None;
          Gallery.rightAutoPlayId := None;
          Gallery.row_hidden := true;
          Gallery.galleryLeftTrack :=
            (fun n => Gallery.firstOnly (replicate n false)) <$> markup_leftSlides m;
          Gallery.galleryRightTrack :=
            (fun n => Gallery.firstOnly (replicate n false)) <$> markup_rightSlides m |};
     replayBtn_hidden := true;
     host := Host.empty |}.

(** A state the page can be in: the loaded page after some events. *)
Definition reachable (a : App) : Prop :=
  exists m env0 evs, a = run evs (initialApp m env0).

(** The values of [Math.random] lie in [0, 1). *)
Definition unitRange (rnd : nat -> Q) : Prop := forall n, (0 <= rnd n /\ rnd n < 1)%Q.

(** ** Vocabulary of the statements *)

(** The callbacks handed to [setTimeout] or [setInterval] between two states
    of the host. *)
Definition scheduled (h h' : Host.t) : list Task :=
  map Host.timer_task (drop (length (Host.timers h)) (Host.timers h')).

(** *** CAPTCHA *)

(** The indices of the displayed cells that are targets. *)
Definition targetIndices (s : Captcha.State) : gset nat :=
  list_to_set
    (map Captcha.dataset_index
       (List.filter (fun c => String.eqb (Captcha.dataset_isTarget c) "true") (Captcha.grid s))).

(** [verifyCaptcha] accepts: it starts the move to the proposal page and
    leaves the failure counter alone. *)
Definition accepts (s : Captcha.State) : Prop :=
  forall h,
    scheduled h (snd (Captcha.verifyCaptcha s h)) = [CaptchaSuccess] /\
    Captcha.failureCount (fst (Captcha.verifyCaptcha s h)) = Captcha.failureCount s.

(** [verifyCaptcha] rejects: it counts a failure and shakes the container. *)
Definition rejects (s : Captcha.State) : Prop :=
  forall h,
    scheduled h (snd (Captcha.verifyCaptcha s h)) = [ShakeEnd] /\
    Captcha.failureCount (fst (Captcha.verifyCaptcha s h)) = S (Captcha.failureCount s).

(** The rejections among the verifications of a run. *)
Fixpoint rejections (evs : list (Env * Event)) (a : App) : nat :=
  match evs with
  | [] => 0
  | (env, ev) :: evs' =>
      (match ev with
       | VerifyClick => if Captcha.allCorrect (captcha a) then 0 else 1
       | _ => 0
       end + rejections evs' (dispatch env ev a))%nat
  end.

Definition isReplay (ev : Event) : bool :=
  match ev with ReplayClick => true | _ => false end.

Definition noReplay (evs : list (Env * Event)) : Prop :=
  Forall (fun x => isReplay (snd x) = false) evs.

(** *** Invariants of the CAPTCHA state *)

(** Every cell carries its own position as index, and only displayed cells
    are selected. *)
Definition wfCaptcha (s : Captcha.State) : Prop :=
  (forall i c, Captcha.grid s !! i = Some c -> Captcha.dataset_index c = i) /\
  (forall i, i ∈ Captcha.selectedCells s -> (i < length (Captcha.grid s))%nat).

(** What an event other than a verification or a replay can do to the
    CAPTCHA state. *)
Inductive captchaQuiet (s : Captcha.State) : Captcha.State -> Prop :=
  | cq_same : captchaQuiet s s
  | cq_toggle i : (i < length (Captcha.grid s))%nat -> captchaQuiet s (Captcha.toggleCell i s)
  | cq_shake : captchaQuiet s (Captcha.endShake s).

Inductive captchaStep (s : Captcha.State) : Captcha.State -> Prop :=
  | cs_quiet s' : captchaQuiet s s' -> captchaStep s s'
  | cs_verify h : captchaStep s (fst (Captcha.verifyCaptcha s h))
  | cs_replay rnd : captchaStep s (Captcha.initCaptchaGrid rnd (Captcha.replayReset s)).

(** *** The No button *)




(** What an event other than a replay can do to the state of the button. *)
Inductive evasionMove (s : Evasion.State) : Evasion.State -> Prop :=
  | em_evade env e h : evasionMove s (fst (Evasion.evadeNoButton env e s h))
  | em_vanish : evasionMove s (Evasion.vanish s)
  | em_stamp t : evasionMove s (Evasion.setLastEvadeCheck t s).

(** The attempts never exceed the threshold, and the button is gone exactly
    when they have reached it. *)
Definition evasionInv (s : Evasion.State) : Prop :=
  (Evasion.noEvadeAttempts s <= Evasion.MAX_EVADE_BEFORE_GONE)%nat /\
  (Evasion.noButtonGone s = true <->
   Evasion.noEvadeAttempts s = Evasion.MAX_EVADE_BEFORE_GONE).

(** Attempt count, retirement flag and position. *)
Definition evasionCore (s : Evasion.State) : nat * bool * option Q * option Q :=
  (Evasion.noEvadeAttempts s, Evasion.noButtonGone s, Evasion.style_left s, Evasion.style_top s).

(** *** Confetti *)

(** A piece made by [createConfettiPiece] on a canvas of height [ch] from
    values in [0, 1), after any number of ticks. *)
Inductive seeded (ch : N) : Confetti.Piece -> Prop :=
  | seeded_created rnd k cw :
      unitRange rnd -> seeded ch (Confetti.createConfettiPiece rnd k cw ch)
  | seeded_advanced sine p :
      seeded ch p -> seeded ch (Confetti.advance sine (Num.ofN ch) p).

(** Ticks in a row, one per element of [envs]. *)
Fixpoint ticks (envs : list Env) (s : Confetti.State) (hs : Host.t)
    : Confetti.State * Host.t :=
  match envs with
  | [] => (s, hs)
  | env :: envs' =>
      let '(s', hs') := Confetti.animateConfetti env s hs in ticks envs' s' hs'
  end.

(** A number of ticks after which no piece seeded on a canvas of height
    [ch] is left. *)
Definition lifetime (ch : N) : nat := N.to_nat (2 * ch + 50).

(** The piece falls at 1.5 per tick or faster and has fallen for [j] ticks
    at least since it was seeded. *)
Definition fallen (ch : N) (j : nat) (p : Confetti.Piece) : Prop :=
  (3 # 2 <= Confetti.velocityY p /\
   - Num.ofN ch + (3 # 2) * Num.ofnat j <= Confetti.y p)%Q.

(** *** Pending callbacks *)

(** From [h] to [h'] callbacks were taken out of the host's tables and
    callbacks that satisfy [P] were added, nothing else. *)
Definition hostGrows (P : Task -> Prop) (h h' : Host.t) : Prop :=
  (exists new, Forall (fun t => P (Host.timer_task t)) new /\
     Host.timers h' `sublist_of` Host.timers h ++ new) /\
  (exists new, Forall (fun f => P (Host.frame_task f)) new /\
     Host.frames h' `sublist_of` Host.frames h ++ new).

Definition notConfettiFrame (t : Task) : Prop := t <> ConfettiFrame.

(** What an event can do to the confetti engine and to the pending frames of
    its loop. *)
Inductive confettiStep (a a' : App) : bool -> Prop :=
  | cf_quiet :
      confetti a' = confetti a ->
      hostGrows notConfettiFrame (host a) (host a') -> confettiStep a a' false
  | cf_resize env :
      confetti a' = Confetti.resizeConfettiCanvas env (confetti a) ->
      hostGrows notConfettiFrame (host a) (host a') -> confettiStep a a' false
  | cf_secondary env :
      confetti a' = Confetti.secondaryBurst env (confetti a) ->
      hostGrows notConfettiFrame (host a) (host a') -> confettiStep a a' false
  | cf_launch env h1 h2 :
      hostGrows notConfettiFrame (host a) h1 ->
      Confetti.launchConfetti env (confetti a) h1 = (confetti a', h2) ->
      hostGrows notConfettiFrame h2 (host a') -> confettiStep a a' false
  | cf_tick env id h1 :
      Host.takeFrame id (host a) = Some (ConfettiFrame, h1) ->
      Confetti.animateConfetti env (confetti a) h1 = (confetti a', host a') ->
      confettiStep a a' false
  | cf_replay h1 h2 :
      hostGrows notConfettiFrame (host a) h1 ->
      Confetti.replayReset (confetti a) h1 = (confetti a', h2) ->
      hostGrows notConfettiFrame h2 (host a') -> confettiStep a a' true.

(** The loop of the confetti is requested through animation frames only,
    and the handle names every pending frame of the loop. *)
Definition confettiInv (a : App) : Prop :=
  (forall t, t ∈ Host.timers (host a) -> Host.timer_task t <> ConfettiFrame) /\
  (forall f, f ∈ Host.frames (host a) -> Host.frame_task f = ConfettiFrame ->
     Confetti.confettiAnimationId (confetti a) = Some (Host.frame_id f)).

Definition loopPending (h : Host.t) : Prop :=
  exists f, f ∈ Host.frames h /\ Host.frame_task f = ConfettiFrame.

(** The burst has drained but the handle still holds [id]: nothing of the
    loop is pending, nothing is painted, and the pieces [ps] lie untouched
    at the head of the active set. *)
Definition stale (id : positive) (ps : list Confetti.Piece) (a : App) : Prop :=
  Confetti.confettiAnimationId (confetti a) = Some id /\
  ~ loopPending (host a) /\
  (forall t, t ∈ Host.timers (host a) -> Host.timer_task t <> ConfettiFrame) /\
  Confetti.painted (confetti a) = [] /\
  ps `prefix_of` Confetti.confettiPieces (confetti a).


(** ** The letter: envelope, typewriter and replay button *)

Definition isLetter (t : Task) : bool :=
  match t with
  | EnvelopeReveal | BeginTypewriter | TypeNextLine _ _ | TypeNext _ _ _ => true
  | _ => false
  end.

Definition notLetter (t : Task) : Prop := isLetter t = false.

(** The abort signal a typewriter callback tests. *)
Definition taskSignal (t : Task) : option nat :=
  match t with
  | TypeNextLine r _ => Some (signal r)
  | TypeNext ty _ _ => Some (signal (typer_run ty))
  | _ => None
  end.

(** A callback of a reveal that has not been aborted. *)
Definition revealing (tw : Typewriter.State) (t : Task) : bool :=
  match taskSignal t with
  | Some c => negb (Typewriter.isAborted tw c)
  | None => false
  end.

(** The reveals in flight: the pending callbacks of reveals not aborted. *)
Definition inFlight (a : App) : list Host.Timer :=
  List.filter (fun t => revealing (typewriter a) (Host.timer_task t)) (Host.timers (host a)).

(** A pending link of the chain that leads from a click on the envelope to
    the end of the reveal. *)
Definition live (tw : Typewriter.State) (t : Task) : bool :=
  match t with
  | EnvelopeReveal | BeginTypewriter => true
  | _ => revealing tw t
  end.

Definition chainOf (tw : Typewriter.State) (h : Host.t) : list Host.Timer :=
  List.filter (fun t => live tw (Host.timer_task t)) (Host.timers h).

Definition chain (a : App) : list Host.Timer := chainOf (typewriter a) (host a).

(** The replay button is clicked only while it is shown. *)
Fixpoint gated (evs : list (Env * Event)) (a : App) : Prop :=
  match evs with
  | [] => True
  | (env, ev) :: evs' =>
      (isReplay ev = true -> replayBtn_hidden a = false) /\ gated evs' (dispatch env ev a)
  end.

Definition letterInv (a : App) : Prop :=
  (length (chain a) <= 1)%nat /\
  (Envelope.envelopeOpened (envelope a) = false -> chain a = []) /\
  (replayBtn_hidden a = false -> chain a = []) /\
  (Envelope.envelopeOpened (envelope a) = false -> replayBtn_hidden a = true) /\
  (forall t, t ∈ Host.timers (host a) -> isLetter (Host.timer_task t) = true ->
     Host.timer_kind t = Host.Timeout) /\
  (forall f, f ∈ Host.frames (host a) -> isLetter (Host.frame_task f) = false) /\
  (forall t c, t ∈ Host.timers (host a) -> taskSignal (Host.timer_task t) = Some c ->
     (c < length (Typewriter.aborted (typewriter a)))%nat) /\
  (forall c, Typewriter.typewriterAbortController (typewriter a) = Some c ->
     (c < length (Typewriter.aborted (typewriter a)))%nat) /\
  (forall t c, t ∈ chain a -> taskSignal (Host.timer_task t) = Some c ->
     Typewriter.typewriterAbortController (typewriter a) = Some c).

(** The typewriter function a callback runs. *)
Definition typewriterTask (env : Env) (task : Task)
    : option (Typewriter.State -> Host.t -> Typewriter.State * Host.t * option Callback) :=
  match task with
  | BeginTypewriter => Some (Typewriter.startTypewriter (Some ShowReplayButton))
  | TypeNextLine r i => Some (Typewriter.typeNextLine r i)
  | TypeNext ty b i => Some (fun s hs => (Typewriter.typeNext env ty b i s hs, None))
  | _ => None
  end.

Definition afterCallback (cb : option Callback) (hidden : bool) : bool :=
  match cb with Some ShowReplayButton => false | None => hidden end.

Definition isEnvelope (ev : Event) : bool :=
  match ev with EnvelopeClick | EnvelopeKey _ => true | _ => false end.

(** What an event does to the envelope, the typewriter, the replay button
    and the pending callbacks of the letter. *)
Inductive letterStep (a a' : App) : Event -> Prop :=
  | ls_quiet ev :
      isReplay ev = false ->
      typewriter a' = typewriter a -> envelope a' = envelope a ->
      replayBtn_hidden a' = replayBtn_hidden a ->
      hostGrows notLetter (host a) (host a') -> letterStep a a' ev
  | ls_open ev v :
      isEnvelope ev = true ->
      Envelope.openEnvelope (envelope a) = Some v ->
      envelope a' = v -> typewriter a' = typewriter a ->
      replayBtn_hidden a' = replayBtn_hidden a ->
      host a' = snd (Host.setTimeout EnvelopeReveal 900 (host a)) -> letterStep a a' ev
  | ls_reveal id h1 h2 :
      Host.takeTimer id (host a) = Some (EnvelopeReveal, h1) ->
      hostGrows notLetter h1 h2 ->
      host a' = snd (Host.setTimeout BeginTypewriter 600 h2) ->
      envelope a' = Envelope.reveal (envelope a) -> typewriter a' = typewriter a ->
      replayBtn_hidden a' = replayBtn_hidden a -> letterStep a a' (TimerFires id)
  | ls_type env id task h1 f :
      Host.takeTimer id (host a) = Some (task, h1) ->
      typewriterTask env task = Some f ->
      typewriter a' = fst (fst (f (typewriter a) h1)) ->
      host a' = snd (fst (f (typewriter a) h1)) ->
      replayBtn_hidden a' = afterCallback (snd (f (typewriter a) h1)) (replayBtn_hidden a) ->
      envelope a' = envelope a -> letterStep a a' (TimerFires id)
  | ls_replay :
      typewriter a' = Typewriter.resetTypewriter (typewriter a) ->
      envelope a' = Envelope.replayReset (envelope a) ->
      replayBtn_hidden a' = true ->
      hostGrows notLetter (host a) (host a') -> letterStep a a' ReplayClick.

(** A pending callback that [abort] governs or that is harmless already: it
    does not start a reveal, and if it belongs to one, that reveal is
    aborted or is the one of the current controller. *)
Definition governed (tw : Typewriter.State) (t : Task) : bool :=
  match t with
  | EnvelopeReveal | BeginTypewriter => false
  | _ =>
      match taskSignal t with
      | Some c =>
          Typewriter.isAborted tw c ||
          bool_decide (Typewriter.typewriterAbortController tw = Some c)
      | None => true
      end
  end.

(** The reveals in progress are the current controller's. *)
Definition controlled (a : App) : bool :=
  match Typewriter.typewriterAbortController (typewriter a) with
  | Some c => (c <? length (Typewriter.aborted (typewriter a)))%nat
  | None => true
  end &&
  forallb (fun t => governed (typewriter a) (Host.timer_task t)) (Host.timers (host a)) &&
  forallb (fun f => negb (isLetter (Host.frame_task f))) (Host.frames (host a)).




(** The signals of the reveals in flight. *)
Definition signalsInFlight (a : App) : list (option nat) :=
  map (fun t => taskSignal (Host.timer_task t)) (inFlight a).


(** ** Replay *)

(** The pictures of the grid in display order. *)
Definition layout (a : App) : list string := Captcha.img_src <$> Captcha.grid (captcha a).

(** The state of the page apart from the cells of the grid and the tables
    of pending callbacks. *)
Definition besidesGrid (s : Captcha.State) :=
  (Captcha.selectedCells s, Captcha.failureCount s, Captcha.verifyBtn_disabled s,
   Captcha.captchaError_textContent s, Captcha.captchaError_visible s,
   Captcha.captchaHint_visible s, Captcha.container_transition s,
   Captcha.container_transform s, Captcha.container_opacity s, Captcha.container_shake s).

Definition observable (a : App) :=
  (pages a, besidesGrid (captcha a), evasion a, envelope a, typewriter a, confetti a,
   hearts a, starfield a, gallery a, replayBtn_hidden a).


(** ** Vocabulary of the further properties *)

(** *** The CAPTCHA grid *)

(** The cells of the grid are built from a rearrangement of the catalog,
    whatever their selection marks. *)
Definition shuffledCatalog (s : Captcha.State) : Prop :=
  exists l, l ≡ₚ Captcha.CAPTCHA_IMAGES /\
    Captcha.markCell false <$> Captcha.grid s = imap Captcha.createCell l.

(** The marks of the cells mirror the selected set and the verify button
    is disabled exactly when nothing is selected. *)
Definition widgetsAgree (s : Captcha.State) : Prop :=
  (forall i c, Captcha.grid s !! i = Some c ->
     Captcha.selected c = bool_decide (i ∈ Captcha.selectedCells s) /\
     Captcha.aria_checked c = Captcha.selected c) /\
  Captcha.verifyBtn_disabled s = bool_decide (Captcha.selectedCells s = ∅).

(** The hint is shown once a verification has failed, the error only
    then. *)
Definition feedbackAgrees (s : Captcha.State) : Prop :=
  (Captcha.captchaHint_visible s = true <-> (1 <= Captcha.failureCount s)%nat) /\
  (Captcha.captchaError_visible s = true ->
     (1 <= Captcha.failureCount s)%nat /\
     Captcha.captchaError_textContent s =
       nth (Nat.min (Captcha.failureCount s - 1) 2) Captcha.messages "undefined").

(** [captchaError.classList.remove('visible')], the last statement of
    [toggleCell]. *)
Definition errorHidden (s : Captcha.State) : Captcha.State :=
  {| Captcha.grid := Captcha.grid s;
     Captcha.selectedCells := Captcha.selectedCells s;
     Captcha.failureCount := Captcha.failureCount s;
     Captcha.verifyBtn_disabled := Captcha.verifyBtn_disabled s;
     Captcha.captchaError_textContent := Captcha.captchaError_textContent s;
     Captcha.captchaError_visible := false;
     Captcha.captchaHint_visible := Captcha.captchaHint_visible s;
     Captcha.container_transition := Captcha.container_transition s;
     Captcha.container_transform := Captcha.container_transform s;
     Captcha.container_opacity := Captcha.container_opacity s;
     Captcha.container_shake := Captcha.container_shake s |}.


(** *** The chase of the No button *)

(** The inline style of the No button tells how far the chase has got:
    nothing is written before the first evasion, the move transition
    carries the speed of the current attempt count, and the vanish
    transition is there exactly when the button has retired. *)
Definition evasionPhase (s : Evasion.State) : Prop :=
  match Evasion.transition s with
  | Evasion.NoTransition =>
      Evasion.noEvadeAttempts s = 0%nat /\ Evasion.noButtonGone s = false /\
      Evasion.style_left s = None /\ Evasion.style_top s = None /\ Evasion.evading s = false
  | Evasion.Move speed =>
      (1 <= Evasion.noEvadeAttempts s <= 7)%nat /\ Evasion.noButtonGone s = false /\
      speed = (300 - 15 * Z.of_nat (Evasion.noEvadeAttempts s))%Z /\
      is_Some (Evasion.style_left s) /\ is_Some (Evasion.style_top s) /\
      Evasion.evading s = true
  | Evasion.Vanish =>
      Evasion.noEvadeAttempts s = 8%nat /\ Evasion.noButtonGone s = true /\
      Evasion.transform s = "scale(0)" /\ Evasion.opacity s = "0"
  end.


(** *** Floating hearts *)

(** What an event can do to the hearts. *)
Inductive heartsStep (s : Hearts.State) : Hearts.State -> Prop :=
  | hs_same : heartsStep s s
  | hs_spawn env h : heartsStep s (fst (Hearts.spawnHeart env s h))
  | hs_remove n : heartsStep s (Hearts.removeHeart n s)
  | hs_start h : heartsStep s (fst (Hearts.startFloatingHearts s h))
  | hs_stop h : heartsStep s (fst (Hearts.stopFloatingHearts s h))
  | hs_clear h : heartsStep s (Hearts.clear (fst (Hearts.stopFloatingHearts s h))).

(** Every heart in the container is one of the spans created so far, and
    no two of them are the same span. *)
Definition heartsInv (s : Hearts.State) : Prop :=
  (forall x, x ∈ Hearts.hearts s -> (Hearts.node x < Hearts.created s)%nat) /\
  NoDup (Hearts.node <$> Hearts.hearts s).

(** The timers added to the table from [h] to [h']. *)
Definition added (h h' : Host.t) : list Host.Timer :=
  drop (length (Host.timers h)) (Host.timers h').


(** *** Identifiers of the host *)

(** The host hands out fresh identifiers: those of the pending callbacks
    are below the next one and differ from each other. *)
Definition wfHost (h : Host.t) : Prop :=
  ((forall t, t ∈ Host.timers h -> (Host.timer_id t < Host.nextTimer h)%positive) /\
   NoDup (Host.timer_id <$> Host.timers h)) /\
  ((forall f, f ∈ Host.frames h -> (Host.frame_id f < Host.nextFrame h)%positive) /\
   NoDup (Host.frame_id <$> Host.frames h)).


(** *** The starfield and its callbacks *)

(** Callbacks other than those of the starfield. *)
Definition notOfStars (t : Task) : Prop := t <> StarFrame /\ t <> StarResize.

(** What an event can do to the starfield and to its pending callbacks. *)
Inductive starStep (a a' : App) : Prop :=
  | st_quiet :
      starfield a' = starfield a -> hostGrows notOfStars (host a) (host a') -> starStep a a'
  | st_resized env :
      starfield a' = Starfield.resized env (starfield a) ->
      hostGrows notOfStars (host a) (host a') -> starStep a a'
  | st_debounce h1 :
      hostGrows notOfStars (host a) h1 ->
      Starfield.onResize (starfield a) h1 = (starfield a', host a') -> starStep a a'
  | st_tick env id h1 :
      Host.takeFrame id (host a) = Some (StarFrame, h1) ->
      Starfield.animateStars env (starfield a) h1 = (starfield a', host a') -> starStep a a'
  | st_start env h1 :
      hostGrows notOfStars (host a) h1 ->
      Starfield.startStarfield env (starfield a) h1 = (starfield a', host a') -> starStep a a'
  | st_stop h1 h2 :
      hostGrows notOfStars (host a) h1 ->
      Starfield.stopStarfield (starfield a) h1 = (starfield a', h2) ->
      hostGrows notOfStars h2 (host a') -> starStep a a'.

(** The loop of the starfield runs on animation frames and the debounce of
    its resize on timers; each handle names every pending callback of its
    kind, and a stopped starfield has no stars and nothing painted. *)
Definition starInv (a : App) : Prop :=
  (forall t, t ∈ Host.timers (host a) -> Host.timer_task t <> StarFrame) /\
  (forall f, f ∈ Host.frames (host a) -> Host.frame_task f <> StarResize) /\
  (forall f, f ∈ Host.frames (host a) -> Host.frame_task f = StarFrame ->
     Starfield.starAnimId (starfield a) = Some (Host.frame_id f)) /\
  (forall t, t ∈ Host.timers (host a) -> Host.timer_task t = StarResize ->
     Starfield.starResizeTimer (starfield a) = Some (Host.timer_id t)) /\
  (Starfield.starAnimId (starfield a) = None ->
     Starfield.stars (starfield a) = [] /\ Starfield.painted (starfield a) = []).


(** *** One loop, one debounce *)

Definition isStarFrame (t : Task) : bool := match t with StarFrame => true | _ => false end.
Definition isStarResize (t : Task) : bool := match t with StarResize => true | _ => false end.

(** The pending frames, and the pending timers, whose callback satisfies
    [p]. *)
Definition pendingFrames (p : Task -> bool) (h : Host.t) : list Host.Frame :=
  List.filter (fun f => p (Host.frame_task f)) (Host.frames h).

Definition pendingTimers (p : Task -> bool) (h : Host.t) : list Host.Timer :=
  List.filter (fun t => p (Host.timer_task t)) (Host.timers h).


(** *** The segments of a line *)

(** The markup the segments spell. *)
Definition spelled (segs : list Segment) : string :=
  fold_right (fun seg rest => String.append (content seg) rest) EmptyString segs.

(** A tag segment runs from a [<] to the first [>] after it; a character
    segment is one character. *)
Definition wellFormedSegment (seg : Segment) : Prop :=
  match type seg with
  | tag =>
      exists body,
        content seg = String "<"%char (String.append body ">") /\
        String.index 0 ">" body = None
  | char => String.length (content seg) = 1%nat
  end.


(** *** The state of the typewriter *)

(** What an event can do to the state of the typewriter. *)
Inductive typewriterStep (s : Typewriter.State) : Typewriter.State -> Prop :=
  | ts_same : typewriterStep s s
  | ts_start cb h : typewriterStep s (fst (fst (Typewriter.startTypewriter cb s h)))
  | ts_line r i h : typewriterStep s (fst (fst (Typewriter.typeNextLine r i s h)))
  | ts_next env ty b i h : typewriterStep s (fst (Typewriter.typeNext env ty b i s h))
  | ts_reset : typewriterStep s (Typewriter.resetTypewriter s).

(** The originals are those captured when the page [m] was loaded, and
    the card has the lines of [m]. *)
Definition letterLoaded (m : Markup) (s : Typewriter.State) : Prop :=
  Typewriter.typewriterOriginals s = Typewriter.capture (loadedLines m) (markup_instant m) /\
  length (Typewriter.lines s) = length (markup_lines m).

(** The letter as a finished reveal shows it: every line with its own
    markup, without cursor, visible. *)
Definition typedLetter (m : Markup) : list Typewriter.Line :=
  map (fun html => {| Typewriter.innerHTML := html; Typewriter.cursor := false;
                      Typewriter.active := true |}) (markup_lines m).

(** The timers [ids] fire one after the other. *)
Definition firing (env : Env) (ids : list positive) : list (Env * Event) :=
  map (fun id => (env, TimerFires id)) ids.


(** *** The side galleries *)

#[global] Instance side_eq_dec : EqDecision Gallery.Side.
Proof. solve_decision. Defined.

Definition sideTrack (side : Gallery.Side) (s : Gallery.State) : option (list bool) :=
  match side with
  | Gallery.Left => Gallery.galleryLeftTrack s
  | Gallery.Right => Gallery.galleryRightTrack s
  end.

Definition sideIdx (side : Gallery.Side) (s : Gallery.State) : nat :=
  match side with
  | Gallery.Left => Gallery.leftSlideIdx s
  | Gallery.Right => Gallery.rightSlideIdx s
  end.

(** The number of slides of a track in the markup, if the track exists. *)
Definition sideSlides (side : Gallery.Side) (m : Markup) : option nat :=
  match side with
  | Gallery.Left => markup_leftSlides m
  | Gallery.Right => markup_rightSlides m
  end.

(** A track of [n] slides of which the one at [idx] alone is active. *)
Definition onlySlide (n idx : nat) : list bool :=
  imap (fun i _ => Nat.eqb i idx) (replicate n false).

(** What an event can do to the slides of the galleries. *)
Inductive galleryStep (s : Gallery.State) : Gallery.State -> Prop :=
  | gs_keep s' :
      Gallery.leftSlideIdx s' = Gallery.leftSlideIdx s ->
      Gallery.rightSlideIdx s' = Gallery.rightSlideIdx s ->
      Gallery.galleryLeftTrack s' = Gallery.galleryLeftTrack s ->
      Gallery.galleryRightTrack s' = Gallery.galleryRightTrack s ->
      galleryStep s s'
  | gs_advance side : galleryStep s (Gallery.advanceSideGallery side s)
  | gs_reset h : galleryStep s (fst (Gallery.resetGallery s h)).

(** Each track shows the slide its index names, and no other. *)
Definition galleryInv (m : Markup) (s : Gallery.State) : Prop :=
  forall side,
    sideTrack side s = (fun n => onlySlide n (sideIdx side s)) <$> sideSlides side m /\
    (forall n, sideSlides side m = Some n -> (0 < n)%nat -> (sideIdx side s < n)%nat).


(** *** Page transitions *)

(** The page [p] is current and no section is active. *)
Definition noneActive (p : Page) : Pages :=
  {| currentPage := p; captcha_active := false;
     proposal_active := false; congrats_active := false |}.

(** The page [p] is current and its section alone is active. *)
Definition onlyActive (p : Page) : Pages :=
  {| currentPage := p;
     captcha_active := bool_decide (p = CAPTCHA);
     proposal_active := bool_decide (p = PROPOSAL);
     congrats_active := bool_decide (p = CONGRATS) |}.


(** *** The loop of the confetti *)

Definition isConfettiFrame (t : Task) : bool :=
  match t with ConfettiFrame => true | _ => false end.


(** *** The envelope *)

(** The envelope once it has been opened and has given way to the letter. *)
Definition revealedEnvelope : Envelope.State :=
  {| Envelope.envelopeOpened := true;
     Envelope.wrapper_opened := true;
     Envelope.wrapper_revealed := true;
     Envelope.prompt_hidden := true;
     Envelope.card_revealing := true |}.


(** *** Stars *)






(** *** Starting and stopping the hearts *)

(** The [k]-th of the timeouts by which [startFloatingHearts] spawns a few
    hearts at once, when [id] is the identifier of its interval. *)
Definition earlySpawn (id : positive) (k : nat) : Host.Timer :=
  {| Host.timer_id := Nat.iter (S k) Pos.succ id;
     Host.timer_kind := Host.Timeout;
     Host.timer_delay := (Num.ofnat k * 200)%Q;
     Host.timer_task := SpawnHeart |}.

(** ** Sample inputs *)

Module Sample.
Local Open Scope Q_scope.

Definition rect (l t w h : Q) : Rect := {| left := l; top := t; width := w; height := h |}.

(** A 1280 by 720 window; [Math.random] returns [r] every time. *)
Definition env (r : Q) : Env :=
  {| random := fun _ => r;
     sin := fun _ => 0;
     now := 1000;
     innerWidth := 1280;
     innerHeight := 720;
     noBtnRect := rect 700 400 100 40;
     yesRect := rect 480 400 100 40;
     offsetWidth := 1280;
     scrollHeight := 2000 |}.

Definition markup : Markup :=
  {| markup_lines := ["Hi, <b>you</b>."; "<hr>"];
     markup_instant := fun i => Nat.eqb i 1;
     markup_leftSlides := Some 3%nat;
     markup_rightSlides := Some 2%nat;
     markup_starWidth := 300;
     markup_starHeight := 150 |}.

Definition app : App := initialApp markup (env 0).

Definition click (i : nat) : Env * Event := (env 0, CellClick i).
Definition verify : Env * Event := (env 0, VerifyClick).

(** With [Math.random] stuck at 0 the shuffle puts the targets in cells
    0, 1, 2 and 8. *)
Definition exactSelection : list (Env * Event) := [click 0; click 1; click 2; click 8].
Definition twoRejections : list (Env * Event) := [click 0; verify; click 3; verify].

Definition fires (ids : list positive) : list (Env * Event) :=
  map (fun id => (env 0, TimerFires id)) ids.

(** The envelope is clicked, its two delays pass (timers 1 and 4) and three
    characters are typed; the callback of the fourth is timer 8. *)
Definition midReveal : list (Env * Event) :=
  (env 0, EnvelopeClick) :: fires [1; 4; 5; 6; 7]%positive.

(** The whole letter is typed and the replay button is shown. *)
Definition fullReveal : list (Env * Event) :=
  midReveal ++ fires [8; 9; 10; 11; 12; 13; 14; 15]%positive.

(** The replay handler runs while the first click on the envelope is
    still waiting for its delay, and the envelope is clicked again: both
    clicks get their reveal. Timers 1 and 2 are the two delays of 900ms,
    timer 5 the first delay of 600ms, which starts the typewriter;
    timer 8 is the second one. *)
Definition doubleStart : list (Env * Event) :=
  [(env 0, EnvelopeClick); (env 0, ReplayClick); (env 0, EnvelopeClick)] ++
  fires [1; 2; 5]%positive.

(** A touch inside the detection radius of the No button. *)
Definition touch : Evasion.PointerEvent := Evasion.Touch [(750, 420)].

Definition eightTouches : list (Env * Event) :=
  replicate 8 (env 0, TouchStart [(750, 420)]).

(** A window 20 wide and 4 high, in which a piece of confetti is gone
    after a handful of frames. *)
Definition tiny : Env :=
  {| random := fun _ => 0;
     sin := fun _ => 0;
     now := 1000;
     innerWidth := 20;
     innerHeight := 4;
     noBtnRect := rect 700 400 100 40;
     yesRect := rect 480 400 100 40;
     offsetWidth := 20;
     scrollHeight := 4 |}.

(** Yes is clicked in the tiny window and four frames of the confetti loop
    run; the fifth frame is pending. *)
Definition burst : list (Env * Event) :=
  (tiny, YesClick) :: map (fun id => (tiny, FrameFires id)) [1; 2; 3; 4]%positive.

(** Three pieces on a canvas 20 wide and 10 high. *)
Definition threePieces : Confetti.State :=
  {| Confetti.confettiPieces := Confetti.createPieces (fun _ => 0) 0 3 20 10;
     Confetti.confettiAnimationId := None;
     Confetti.canvas_width := 20;
     Confetti.canvas_height := 10;
     Confetti.painted := [] |}.
End Sample.
(** * Part II: properties *)

Arguments Confetti.createPieces : simpl never.

(** ** Framing: what a listener leaves alone *)

Ltac unfold_handlers :=
  unfold dispatch, toggle, mousemove, touchmove, touchstart, yesClick, openEnvelope,
    resize, replay, runTask, onCaptcha, onHearts, onEvasion, onConfetti, onStarfield,
    onGallery, onTypewriter, later, showPage, invoke in *.

Ltac app_simpl :=
  cbn [host confetti setHost setPages setCaptcha setHearts setEvasion setEnvelope
       setConfetti setStarfield setTypewriter setGallery setReplayHidden snd fst].

Lemma onCaptcha_eq f a :
  onCaptcha f a =
  setHost (snd (f (captcha a) (host a))) (setCaptcha (fst (f (captcha a) (host a))) a).
Proof. unfold onCaptcha. by destruct (f _ _). Qed.

Lemma onHearts_eq f a :
  onHearts f a =
  setHost (snd (f (hearts a) (host a))) (setHearts (fst (f (hearts a) (host a))) a).
Proof. unfold onHearts. by destruct (f _ _). Qed.

Lemma onEvasion_eq f a :
  onEvasion f a =
  setHost (snd (f (evasion a) (host a))) (setEvasion (fst (f (evasion a) (host a))) a).
Proof. unfold onEvasion. by destruct (f _ _). Qed.

Lemma onConfetti_eq f a :
  onConfetti f a =
  setHost (snd (f (confetti a) (host a))) (setConfetti (fst (f (confetti a) (host a))) a).
Proof. unfold onConfetti. by destruct (f _ _). Qed.

Lemma onStarfield_eq f a :
  onStarfield f a =
  setHost (snd (f (starfield a) (host a))) (setStarfield (fst (f (starfield a) (host a))) a).
Proof. unfold onStarfield. by destruct (f _ _). Qed.

Lemma onGallery_eq f a :
  onGallery f a =
  setHost (snd (f (gallery a) (host a))) (setGallery (fst (f (gallery a) (host a))) a).
Proof. unfold onGallery. by destruct (f _ _). Qed.

Lemma onTypewriter_eq f a :
  onTypewriter f a =
  invoke (snd (f (typewriter a) (host a)))
    (setHost (snd (fst (f (typewriter a) (host a))))
       (setTypewriter (fst (fst (f (typewriter a) (host a)))) a)).
Proof. unfold onTypewriter. by destruct (f _ _) as [[? ?] ?]. Qed.

Lemma host_invoke cb a : host (invoke cb a) = host a.
Proof. by destruct cb as [[]|]. Qed.

Lemma confetti_invoke cb a : confetti (invoke cb a) = confetti a.
Proof. by destruct cb as [[]|]. Qed.

Ltac on_eq :=
  rewrite ?onCaptcha_eq, ?onHearts_eq, ?onEvasion_eq, ?onConfetti_eq, ?onStarfield_eq,
    ?onGallery_eq, ?onTypewriter_eq, ?host_invoke, ?confetti_invoke.

Section Grow.
Variable P : Task -> Prop.

Lemma grow_refl h : hostGrows P h h.
Proof. split; exists []; rewrite app_nil_r; by split. Qed.

Lemma grow_trans h1 h2 h3 : hostGrows P h1 h2 -> hostGrows P h2 h3 -> hostGrows P h1 h3.
Proof.
  intros [(n1 & P1 & T1) (m1 & Q1 & F1)] [(n2 & P2 & T2) (m2 & Q2 & F2)]. split.
  - exists (n1 ++ n2). split; [by apply Forall_app|].
    etransitivity; [exact T2|]. rewrite app_assoc. by apply sublist_app.
  - exists (m1 ++ m2). split; [by apply Forall_app|].
    etransitivity; [exact F2|]. rewrite app_assoc. by apply sublist_app.
Qed.

Lemma grow_timer_elem h h' t :
  hostGrows P h h' -> t ∈ Host.timers h' -> t ∈ Host.timers h \/ P (Host.timer_task t).
Proof.
  intros [(new & Hn & S) _] Ht. pose proof (elem_of_sublist _ _ _ Ht S) as H.
  apply elem_of_app in H as [H|H]; [by left|right].
  rewrite Forall_forall in Hn. by apply Hn.
Qed.

Lemma grow_frame_elem h h' f :
  hostGrows P h h' -> f ∈ Host.frames h' -> f ∈ Host.frames h \/ P (Host.frame_task f).
Proof.
  intros [_ (new & Hn & S)] Hf. pose proof (elem_of_sublist _ _ _ Hf S) as H.
  apply elem_of_app in H as [H|H]; [by left|right].
  rewrite Forall_forall in Hn. by apply Hn.
Qed.

Lemma grow_schedule k task d h : P task -> hostGrows P h (snd (Host.schedule k task d h)).
Proof.
  intros Hp. split; simpl.
  - exists [Host.Build_Timer (Host.nextTimer h) k d task].
    split; [by repeat constructor|done].
  - exists []. rewrite app_nil_r. by split.
Qed.

Lemma grow_setTimeout task d h : P task -> hostGrows P h (snd (Host.setTimeout task d h)).
Proof. apply grow_schedule. Qed.

Lemma grow_setInterval task d h : P task -> hostGrows P h (snd (Host.setInterval task d h)).
Proof. apply grow_schedule. Qed.

Lemma grow_raf task h : P task -> hostGrows P h (snd (Host.requestAnimationFrame task h)).
Proof.
  intros Hp. split; simpl.
  - exists []. rewrite app_nil_r. by split.
  - exists [Host.Build_Frame (Host.nextFrame h) task].
    split; [by repeat constructor|done].
Qed.

Lemma grow_clearTimer id h : hostGrows P h (Host.clearTimer id h).
Proof.
  split; simpl; exists []; rewrite app_nil_r; (split; [done|]); [|done].
  apply sublist_filter.
Qed.

Lemma grow_cancel id h : hostGrows P h (Host.cancelAnimationFrame id h).
Proof.
  split; simpl; exists []; rewrite app_nil_r; (split; [done|]); [done|].
  apply sublist_filter.
Qed.

Lemma grow_takeTimer id h task h' :
  Host.takeTimer id h = Some (task, h') -> hostGrows P h h'.
Proof.
  unfold Host.takeTimer. destruct (Host.findTimer id h) as [x|]; [|done].
  intros [= <- <-]. destruct (Host.timer_kind x); [apply grow_clearTimer|apply grow_refl].
Qed.

Lemma grow_takeFrame id h task h' :
  Host.takeFrame id h = Some (task, h') -> hostGrows P h h'.
Proof.
  unfold Host.takeFrame. destruct (Host.findFrame id h) as [x|]; [|done].
  intros [= <- <-]. apply grow_cancel.
Qed.

Ltac grow :=
  repeat first
    [ apply grow_refl
    | assumption
    | apply grow_clearTimer
    | apply grow_cancel
    | apply grow_setTimeout; [assumption]
    | apply grow_setInterval; [assumption]
    | apply grow_schedule; [assumption]
    | apply grow_raf; [assumption]
    | eapply grow_trans; [|apply grow_setTimeout; assumption]
    | eapply grow_trans; [|apply grow_setInterval; assumption]
    | eapply grow_trans; [|apply grow_raf; assumption]
    | eapply grow_trans; [|apply grow_clearTimer]
    | eapply grow_trans; [|apply grow_cancel] ].

Lemma grow_verifyCaptcha s h :
  P CaptchaSuccess -> P ShakeEnd -> hostGrows P h (snd (Captcha.verifyCaptcha s h)).
Proof. intros. unfold Captcha.verifyCaptcha. case_match; simpl; grow. Qed.

Lemma grow_spawnHeart env s h :
  (forall n, P (RemoveHeart n)) -> hostGrows P h (snd (Hearts.spawnHeart env s h)).
Proof. intros H. unfold Hearts.spawnHeart. simpl. apply grow_setTimeout, H. Qed.

Lemma grow_spawnSoon n i h : P SpawnHeart -> hostGrows P h (Hearts.spawnSoon n i h).
Proof.
  intros H. revert i h. induction n as [|n IH]; intros i h; simpl; [apply grow_refl|].
  eapply grow_trans; [|apply IH]. by apply grow_setTimeout.
Qed.

Lemma grow_startFloatingHearts s h :
  P SpawnHeart -> hostGrows P h (snd (Hearts.startFloatingHearts s h)).
Proof.
  intros H. unfold Hearts.startFloatingHearts. case_match; [apply grow_refl|].
  cbn -[Hearts.spawnSoon]. eapply grow_trans; [|by apply grow_spawnSoon].
  by apply (grow_setInterval SpawnHeart 400 h).
Qed.

Lemma grow_stopFloatingHearts s h : hostGrows P h (snd (Hearts.stopFloatingHearts s h)).
Proof. unfold Hearts.stopFloatingHearts. case_match; simpl; grow. Qed.

Lemma grow_evadeNoButton env e s h :
  P NoButtonVanish -> hostGrows P h (snd (Evasion.evadeNoButton env e s h)).
Proof.
  intros. unfold Evasion.evadeNoButton.
  destruct (Evasion.noButtonGone s); [apply grow_refl|].
  destruct (Evasion.triggers env e s); [|apply grow_refl].
  destruct (_ <=? _)%nat; [by apply grow_setTimeout|].
  destruct (Evasion.sampleLoop _ _ _ _ _ _ _ _) as [[[? ?] ?]|]; apply grow_refl.
Qed.

Lemma grow_animateStars env s h :
  P StarFrame -> hostGrows P h (snd (Starfield.animateStars env s h)).
Proof. intros. unfold Starfield.animateStars. simpl. by apply (grow_raf StarFrame h). Qed.

Lemma grow_startStarfield env s h :
  P StarFrame -> hostGrows P h (snd (Starfield.startStarfield env s h)).
Proof.
  intros. unfold Starfield.startStarfield. case_match; [apply grow_refl|].
  by apply grow_animateStars.
Qed.

Lemma grow_stopStarfield s h : hostGrows P h (snd (Starfield.stopStarfield s h)).
Proof. unfold Starfield.stopStarfield. simpl. case_match; grow. Qed.

Lemma grow_onResize s h : P StarResize -> hostGrows P h (snd (Starfield.onResize s h)).
Proof.
  intros. unfold Starfield.onResize. simpl.
  case_match; [eapply grow_trans; [apply grow_clearTimer|]|];
    by apply (grow_setTimeout StarResize 250).
Qed.

Lemma grow_stopSideGalleries s h : hostGrows P h (snd (Gallery.stopSideGalleries s h)).
Proof. unfold Gallery.stopSideGalleries. repeat case_match; simplify_eq; simpl; grow. Qed.

Lemma grow_startSideGalleries s h :
  P AdvanceLeft -> P StartRightGallery ->
  hostGrows P h (snd (Gallery.startSideGalleries s h)).
Proof.
  intros. unfold Gallery.startSideGalleries.
  pose proof (grow_stopSideGalleries s h) as G.
  destruct (Gallery.stopSideGalleries s h) as [s1 hs1]. simpl in *.
  eapply grow_trans; [exact G|].
  eapply grow_trans; [by apply (grow_setInterval AdvanceLeft 4000)|].
  by apply (grow_setTimeout StartRightGallery 2000).
Qed.

Lemma grow_startRight s h : P AdvanceRight -> hostGrows P h (snd (Gallery.startRight s h)).
Proof. intros. unfold Gallery.startRight. simpl. by apply (grow_setInterval AdvanceRight 4000). Qed.

Lemma grow_showGallery s h :
  P AdvanceLeft -> P StartRightGallery -> hostGrows P h (snd (Gallery.showGallery s h)).
Proof. intros. by apply grow_startSideGalleries. Qed.

Lemma grow_resetGallery s h : hostGrows P h (snd (Gallery.resetGallery s h)).
Proof.
  unfold Gallery.resetGallery. pose proof (grow_stopSideGalleries s h) as G.
  by destruct (Gallery.stopSideGalleries s h).
Qed.

Lemma grow_animateConfetti env s h :
  P ConfettiFrame -> hostGrows P h (snd (Confetti.animateConfetti env s h)).
Proof.
  intros. unfold Confetti.animateConfetti. case_match; simpl; [|apply grow_refl].
  by apply (grow_raf ConfettiFrame h).
Qed.

Lemma grow_launchConfetti env s h :
  P ConfettiFrame -> P ConfettiSecondary ->
  hostGrows P h (snd (Confetti.launchConfetti env s h)).
Proof.
  intros. unfold Confetti.launchConfetti. cbv zeta. case_match.
  - cbn [snd]. by apply (grow_setTimeout ConfettiSecondary 400).
  - eapply grow_trans; [|by apply grow_animateConfetti].
    by apply (grow_setTimeout ConfettiSecondary 400).
Qed.

Lemma grow_confettiReset s h : hostGrows P h (snd (Confetti.replayReset s h)).
Proof. unfold Confetti.replayReset. simpl. case_match; grow. Qed.

Lemma grow_typeHTMLContent target html r next s h :
  (forall ty b i, P (TypeNext ty b i)) ->
  hostGrows P h (snd (Typewriter.typeHTMLContent target html r next s h)).
Proof. intros H. unfold Typewriter.typeHTMLContent. simpl. apply grow_setTimeout, H. Qed.

Lemma grow_typeNextLine r i s h :
  (forall ty b i, P (TypeNext ty b i)) -> (forall r i, P (TypeNextLine r i)) ->
  hostGrows P h (snd (fst (Typewriter.typeNextLine r i s h))).
Proof.
  intros H1 H2. unfold Typewriter.typeNextLine. repeat case_match; simpl; try apply grow_refl.
  - apply grow_setTimeout, H2.
  - apply (grow_typeHTMLContent _ _ _ _ s h H1).
Qed.

Lemma grow_startTypewriter cb s h :
  (forall ty b i, P (TypeNext ty b i)) -> (forall r i, P (TypeNextLine r i)) ->
  hostGrows P h (snd (fst (Typewriter.startTypewriter cb s h))).
Proof. intros. unfold Typewriter.startTypewriter. by apply grow_typeNextLine. Qed.

Lemma grow_typeNext env ty b i s h :
  (forall ty b i, P (TypeNext ty b i)) -> (forall r i, P (TypeNextLine r i)) ->
  hostGrows P h (snd (Typewriter.typeNext env ty b i s h)).
Proof.
  intros H1 H2. unfold Typewriter.typeNext. repeat case_match; simpl; try apply grow_refl.
  - apply grow_setTimeout, H2.
  - apply grow_setTimeout, H1.
  - apply grow_setTimeout, H1.
Qed.
End Grow.

(** *** Sample inputs *)

Lemma unitRange_zero : unitRange (fun _ => 0%Q).
Proof. intros n. split; [apply Qle_refl|reflexivity]. Qed.

Lemma reachable_run evs : reachable (run evs Sample.app).
Proof. by exists Sample.markup, (Sample.env 0), evs. Qed.

(** ** CAPTCHA *)

Lemma fold_checkCell sel l b :
  fold_left (Captcha.checkCell sel) l b =
  b && forallb (fun c => Bool.eqb (String.eqb (Captcha.dataset_isTarget c) "true")
                           (bool_decide (Captcha.dataset_index c ∈ sel))) l.
Proof.
  revert b. induction l as [|c l IH]; intros b; simpl.
  - by rewrite andb_true_r.
  - rewrite IH. unfold Captcha.checkCell.
    destruct (Bool.eqb _ _); simpl; [done|]. by rewrite andb_false_r.
Qed.

Lemma allCorrect_Forall s :
  Captcha.allCorrect s = true <->
  forall c, c ∈ Captcha.grid s ->
    (Captcha.dataset_isTarget c = "true" <-> Captcha.dataset_index c ∈ Captcha.selectedCells s).
Proof.
  unfold Captcha.allCorrect. rewrite fold_checkCell. simpl.
  rewrite forallb_forall. split.
  - intros H c Hc. apply list_elem_of_In in Hc. specialize (H c Hc).
    apply Bool.eqb_prop in H. rewrite <- String.eqb_eq, H. apply bool_decide_eq_true.
  - intros H c Hc. apply list_elem_of_In in Hc. specialize (H c Hc).
    rewrite <- String.eqb_eq in H.
    destruct (String.eqb _ _) eqn:E; case_bool_decide; simpl; try done.
    + exfalso. tauto.
    + exfalso. apply H in H0. done.
Qed.

Lemma elem_targetIndices s i :
  i ∈ targetIndices s <->
  exists c, c ∈ Captcha.grid s /\ Captcha.dataset_index c = i /\ Captcha.dataset_isTarget c = "true".
Proof.
  unfold targetIndices. rewrite elem_of_list_to_set, list_elem_of_fmap.
  split.
  - intros (c & -> & Hc). apply list_elem_of_In, filter_In in Hc as [Hc Ht].
    exists c. rewrite list_elem_of_In. by rewrite String.eqb_eq in Ht.
  - intros (c & Hc & <- & Ht). exists c. split; [done|].
    apply list_elem_of_In, filter_In. rewrite String.eqb_eq. by rewrite <- list_elem_of_In.
Qed.

Lemma exact_iff_targets s :
  wfCaptcha s ->
  (forall c, c ∈ Captcha.grid s ->
    (Captcha.dataset_isTarget c = "true" <-> Captcha.dataset_index c ∈ Captcha.selectedCells s))
  <-> Captcha.selectedCells s = targetIndices s.
Proof.
  intros [Hidx Hsel]. split.
  - intros H. apply set_eq. intros i. rewrite elem_targetIndices. split.
    + intros Hi. destruct (lookup_lt_is_Some_2 _ _ (Hsel i Hi)) as [c Hc].
      exists c. pose proof (Hidx _ _ Hc) as Ei. 
      assert (c ∈ Captcha.grid s) as Hin by (eapply list_elem_of_lookup_2; eauto).
      split; [done|]. split; [done|]. apply H; [done|]. by rewrite Ei.
    + intros (c & Hc & <- & Ht). by apply H.
  - intros E c Hc. rewrite E, elem_targetIndices. split.
    + intros Ht. by exists c.
    + intros (c' & Hc' & Ei & Ht).
      apply list_elem_of_lookup in Hc as [j Hj]. apply list_elem_of_lookup in Hc' as [j' Hj'].
      pose proof (Hidx _ _ Hj). pose proof (Hidx _ _ Hj').
      assert (j = j') by congruence. subst j'. congruence.
Qed.

Lemma runTask_captcha env task a :
  captchaQuiet (captcha a) (captcha (runTask env task a)).
Proof.
  destruct task; unfold_handlers; simpl; repeat case_match; simpl; constructor.
Qed.

Lemma toggle_captcha index a : captchaQuiet (captcha a) (captcha (toggle index a)).
Proof.
  unfold toggle. case_match; [|constructor]. simpl. constructor. by apply Nat.ltb_lt.
Qed.

Lemma verifyClick_captcha a :
  captcha (onCaptcha Captcha.verifyCaptcha a) =
  fst (Captcha.verifyCaptcha (captcha a) (host a)).
Proof. unfold onCaptcha. by destruct (Captcha.verifyCaptcha _ _). Qed.

Lemma replay_captcha env a :
  captcha (replay env a) =
  Captcha.initCaptchaGrid (random env) (Captcha.replayReset (captcha a)).
Proof. unfold_handlers. simpl. repeat case_match; reflexivity. Qed.

Lemma dispatch_captcha_cases env ev a :
  match ev with
  | VerifyClick =>
      captcha (dispatch env ev a) = fst (Captcha.verifyCaptcha (captcha a) (host a))
  | ReplayClick =>
      captcha (dispatch env ev a) =
      Captcha.initCaptchaGrid (random env) (Captcha.replayReset (captcha a))
  | _ => captchaQuiet (captcha a) (captcha (dispatch env ev a))
  end.
Proof.
  destruct ev; simpl;
    try apply toggle_captcha; try apply verifyClick_captcha; try apply replay_captcha.
  - case_match; [apply toggle_captcha|constructor].
  - unfold_handlers; repeat case_match; simpl; constructor.
  - unfold_handlers; repeat case_match; simpl; constructor.
  - unfold_handlers; repeat case_match; simpl; constructor.
  - unfold_handlers; repeat case_match; simpl; constructor.
  - unfold_handlers; repeat case_match; simpl; constructor.
  - unfold_handlers; repeat case_match; simpl; constructor.
  - unfold_handlers; repeat case_match; simpl; constructor.
  - destruct (Host.takeTimer id (host a)) as [[t hs]|]; [|constructor].
    apply (runTask_captcha env t (setHost hs a)).
  - destruct (Host.takeFrame id (host a)) as [[t hs]|]; [|constructor].
    apply (runTask_captcha env t (setHost hs a)).
Qed.

Lemma dispatch_captcha env ev a :
  captchaStep (captcha a) (captcha (dispatch env ev a)).
Proof.
  pose proof (dispatch_captcha_cases env ev a) as H.
  destruct ev; try (by apply cs_quiet); rewrite H; [apply cs_verify | apply cs_replay].
Qed.

Lemma wf_step s s' : captchaStep s s' -> wfCaptcha s -> wfCaptcha s'.
Proof.
  intros St [Hidx Hsel]. destruct St as [s' [|i Hi|]|h|rnd].
  - done.
  - split; simpl.
    + intros j c. rewrite list_lookup_alter. destruct (decide (i = j)) as [->|].
      * destruct (Captcha.grid s !! j) eqn:E; simpl; [|done]. intros [= <-]. simpl. eauto.
      * apply Hidx.
    + intros j. rewrite length_alter. case_bool_decide; set_solver.
  - done.
  - unfold Captcha.verifyCaptcha. case_match; simpl; done.
  - split; simpl.
    + intros i c. rewrite list_lookup_imap. destruct (_ !! i); simpl; [|done].
      by intros [= <-].
    + set_solver.
Qed.

Lemma wf_initial m env0 : wfCaptcha (captcha (initialApp m env0)).
Proof.
  split; simpl.
  - intros i c. rewrite list_lookup_imap. destruct (_ !! i); simpl; [|done].
    by intros [= <-].
  - set_solver.
Qed.

Lemma wf_run evs a : wfCaptcha (captcha a) -> wfCaptcha (captcha (run evs a)).
Proof.
  revert a. induction evs as [|[env ev] evs IH]; intros a H; simpl; [done|].
  apply IH. eapply wf_step; [apply dispatch_captcha|done].
Qed.

Lemma wf_reachable a : reachable a -> wfCaptcha (captcha a).
Proof. intros (m & env0 & evs & ->). apply wf_run, wf_initial. Qed.

Lemma accepts_iff s : accepts s <-> Captcha.allCorrect s = true.
Proof.
  unfold accepts, scheduled, Captcha.verifyCaptcha. split.
  - intros H. destruct (H Host.empty) as [H1 _]. destruct (Captcha.allCorrect s); [done|].
    simpl in H1. discriminate.
  - intros -> h. simpl. rewrite drop_app_length. done.
Qed.

Lemma rejects_iff s : rejects s <-> Captcha.allCorrect s = false.
Proof.
  unfold rejects, scheduled, Captcha.verifyCaptcha. split.
  - intros H. destruct (H Host.empty) as [H1 _]. destruct (Captcha.allCorrect s); [|done].
    simpl in H1. discriminate.
  - intros -> h. simpl. rewrite drop_app_length. done.
Qed.

(** C1.  In every state the page can reach, [verifyCaptcha] accepts exactly
    when every displayed cell is a target if and only if its index is
    selected, that is, exactly when the selected set is the set of indices of
    the target cells; any other selection (a proper subset, a superset, a
    mismatch) is rejected. *)
Theorem verify_accepts_exact_selection (a : App) :
  reachable a ->
  let s := captcha a in
  (accepts s <->
     forall c, c ∈ Captcha.grid s ->
       (Captcha.dataset_isTarget c = "true" <->
        Captcha.dataset_index c ∈ Captcha.selectedCells s)) /\
  (accepts s <-> Captcha.selectedCells s = targetIndices s) /\
  (rejects s <-> Captcha.selectedCells s <> targetIndices s).
Proof.
  intros R s. pose proof (wf_reachable a R) as W. fold s in W.
  rewrite accepts_iff, rejects_iff, allCorrect_Forall.
  split; [done|]. rewrite (exact_iff_targets s W). split; [done|].
  rewrite <- (exact_iff_targets s W), <- allCorrect_Forall.
  destruct (Captcha.allCorrect s); split; congruence.
Qed.


Lemma verify_accepts_exact_selection_witness :
  reachable (run Sample.exactSelection Sample.app) /\
  accepts (captcha (run Sample.exactSelection Sample.app)).
Proof.
  assert (reachable (run Sample.exactSelection Sample.app)) as R.
  { exists Sample.markup, (Sample.env 0), Sample.exactSelection. reflexivity. }
  split; [exact R|].
  apply (verify_accepts_exact_selection _ R). vm_compute. reflexivity.
Defined.

(** C4 (as the code has it).  The catalog has 9 images; 4 of them are
    targets and 5 are distractors. *)
Theorem catalog_counts :
  length Captcha.CAPTCHA_IMAGES = 9%nat /\
  length (List.filter Captcha.isTarget Captcha.CAPTCHA_IMAGES) = 4%nat /\
  length (List.filter (fun i => negb (Captcha.isTarget i)) Captcha.CAPTCHA_IMAGES) = 5%nat.
Proof. repeat split; reflexivity. Qed.

(** C4 as claimed, 5 targets and 4 distractors, does not hold of the
    catalog. *)
Lemma catalog_not_five_targets :
  ~ (length Captcha.CAPTCHA_IMAGES = 9%nat /\
     length (List.filter Captcha.isTarget Captcha.CAPTCHA_IMAGES) = 5%nat /\
     length (List.filter (fun i => negb (Captcha.isTarget i)) Captcha.CAPTCHA_IMAGES) = 4%nat).
Proof. intros (_ & H & _). vm_compute in H. discriminate. Qed.

Lemma quiet_failureCount s s' :
  captchaQuiet s s' -> Captcha.failureCount s' = Captcha.failureCount s.
Proof. by destruct 1. Qed.

Lemma verify_failureCount s h :
  Captcha.failureCount (fst (Captcha.verifyCaptcha s h)) =
  (Captcha.failureCount s + if Captcha.allCorrect s then 0 else 1)%nat.
Proof. unfold Captcha.verifyCaptcha. destruct (Captcha.allCorrect s); simpl; lia. Qed.

Lemma failureCount_run evs a :
  noReplay evs ->
  Captcha.failureCount (captcha (run evs a)) =
  (Captcha.failureCount (captcha a) + rejections evs a)%nat.
Proof.
  revert a. induction evs as [|[env ev] evs IH]; intros a H; simpl; [lia|].
  inversion H as [|? ? Hev Hevs]; subst; simpl in Hev.
  rewrite IH by done.
  pose proof (dispatch_captcha_cases env ev a) as C.
  destruct ev; try discriminate;
    try (rewrite (quiet_failureCount _ _ C); lia).
  rewrite C, verify_failureCount. lia.
Qed.

(** C8.  Counting from a state whose failure counter is 0 and without a
    replay in between, the k-th rejection sets the counter to k and shows
    message number min(k-1, 2) of the three messages; an accepted
    verification leaves the counter as it is. *)
Theorem kth_rejection_message (k : nat) (a : App) (evs : list (Env * Event)) (env : Env) :
  (1 <= k)%nat ->
  Captcha.failureCount (captcha a) = 0%nat ->
  noReplay evs ->
  rejections evs a = (k - 1)%nat ->
  rejects (captcha (run evs a)) ->
  let s' := captcha (dispatch env VerifyClick (run evs a)) in
  (Captcha.failureCount s' = k /\
   Captcha.captchaError_textContent s' =
     nth (Nat.min (k - 1) 2) Captcha.messages "undefined" /\
   Captcha.captchaError_visible s' = true) /\
  (forall b env', accepts (captcha b) ->
     Captcha.failureCount (captcha (dispatch env' VerifyClick b)) =
     Captcha.failureCount (captcha b)).
Proof.
  intros Hk H0 Hnr Hrej Hlast s'. split.
  - subst s'. simpl. rewrite verifyClick_captcha.
    pose proof (failureCount_run evs a Hnr) as Hc. rewrite H0, Hrej in Hc. simpl in Hc.
    apply rejects_iff in Hlast. unfold Captcha.verifyCaptcha. rewrite Hlast. simpl.
    rewrite Hc. replace (S (k - 1) - 0)%nat with k by lia.
    replace (S (k - 1))%nat with k by lia. by rewrite Nat.sub_0_r.
  - intros b env' Hb. simpl. rewrite verifyClick_captcha.
    apply accepts_iff in Hb. unfold Captcha.verifyCaptcha. by rewrite Hb.
Qed.

Lemma kth_rejection_message_witness :
  let s' := captcha (dispatch (Sample.env 0) VerifyClick
                       (run Sample.twoRejections Sample.app)) in
  Captcha.failureCount s' = 3%nat /\
  Captcha.captchaError_textContent s' = "Ok now i'm offended 💔" /\
  Captcha.captchaError_visible s' = true.
Proof.
  refine (proj1 (kth_rejection_message 3 Sample.app Sample.twoRejections (Sample.env 0)
                   _ _ _ _ _)).
  - lia.
  - reflexivity.
  - repeat constructor.
  - vm_compute. reflexivity.
  - apply rejects_iff. vm_compute. reflexivity.
Defined.

(** ** The No button *)

Lemma ltb_lt x y : Num.ltb x y = true <-> (x < y)%Q.
Proof.
  unfold Num.ltb. rewrite negb_true_iff. split.
  - intros H. apply Qnot_le_lt. intros L. apply Qle_bool_iff in L. congruence.
  - intros H. destruct (Qle_bool y x) eqn:E; [|done].
    apply Qle_bool_iff in E. exfalso. eapply Qlt_not_le; eauto.
Qed.

Lemma ltb_ge x y : Num.ltb x y = false <-> (y <= x)%Q.
Proof.
  unfold Num.ltb. rewrite negb_false_iff. apply Qle_bool_iff.
Qed.


Lemma sampleLoop_spec rnd vw vh btnW btnH yes fuel attempts :
  (attempts < 50)%nat -> (50 <= attempts + fuel)%nat ->
  exists n,
    Evasion.sampleLoop fuel rnd vw vh btnW btnH yes attempts =
      Some (Evasion.sampleX rnd vw btnW (n - 1), Evasion.sampleY rnd vh btnH (n - 1), n) /\
    (attempts < n <= 50)%nat /\
    ((n < 50)%nat ->
     Evasion.overlapsYes yes btnW btnH
       (Evasion.sampleX rnd vw btnW (n - 1)) (Evasion.sampleY rnd vh btnH (n - 1)) = false).
Proof.
  revert attempts. induction fuel as [|fuel IH]; intros attempts Hlt Hfuel; [lia|].
  simpl. destruct (S attempts <? 50)%nat eqn:E; simpl.
  - apply Nat.ltb_lt in E.
    destruct (Evasion.overlapsYes yes btnW btnH _ _) eqn:O.
    + destruct (IH (S attempts)) as (n & -> & Hn & Ho); [lia|lia|].
      exists n. split; [done|]. split; [lia|done].
    + exists (S attempts). simpl. rewrite Nat.sub_0_r. split; [done|]. split; [lia|done].
  - apply Nat.ltb_ge in E. exists (S attempts). simpl. rewrite Nat.sub_0_r.
    split; [done|]. split; [lia|]. lia.
Qed.


Lemma runTask_evasion env task a :
  rtc evasionMove (evasion a) (evasion (runTask env task a)).
Proof.
  destruct task; unfold_handlers; simpl; repeat case_match; simpl;
    try reflexivity.
  apply rtc_once, em_vanish.
Qed.

Lemma onEvasion_evade env e a :
  evasion (onEvasion (Evasion.evadeNoButton env e) a) =
  fst (Evasion.evadeNoButton env e (evasion a) (host a)).
Proof. unfold onEvasion. by destruct (Evasion.evadeNoButton _ _ _ _). Qed.

Lemma replay_evasion env a :
  evasion (replay env a) = Evasion.replayReset (evasion a).
Proof. unfold_handlers. simpl. repeat case_match; reflexivity. Qed.

Lemma dispatch_evasion env ev a :
  isReplay ev = false ->
  rtc evasionMove (evasion a) (evasion (dispatch env ev a)).
Proof.
  intros Hr. destruct ev; try discriminate; simpl.
  - unfold toggle; case_match; reflexivity.
  - unfold toggle; repeat case_match; reflexivity.
  - unfold onCaptcha; case_match; reflexivity.
  - unfold mousemove. repeat case_match; try reflexivity.
    rewrite onEvasion_evade. simpl.
    eapply rtc_l; [apply (em_stamp _ (now env))|]. apply rtc_once, em_evade.
  - unfold touchmove. case_match; [|reflexivity].
    rewrite onEvasion_evade. apply rtc_once, em_evade.
  - unfold touchstart. rewrite onEvasion_evade. apply rtc_once, em_evade.
  - unfold_handlers; simpl; repeat case_match; reflexivity.
  - unfold_handlers; simpl; repeat case_match; reflexivity.
  - unfold_handlers; simpl; repeat case_match; reflexivity.
  - unfold_handlers; simpl; repeat case_match; reflexivity.
  - destruct (Host.takeTimer id (host a)) as [[t hs]|]; [|reflexivity].
    apply (runTask_evasion env t (setHost hs a)).
  - destruct (Host.takeFrame id (host a)) as [[t hs]|]; [|reflexivity].
    apply (runTask_evasion env t (setHost hs a)).
Qed.

Lemma evade_cases env e s h :
  (Evasion.noButtonGone s = true /\ Evasion.evadeNoButton env e s h = (s, h)) \/
  (Evasion.noButtonGone s = false /\ Evasion.triggers env e s = false /\
   Evasion.evadeNoButton env e s h = (s, h)) \/
  (Evasion.noButtonGone s = false /\ Evasion.triggers env e s = true /\
   let s' := fst (Evasion.evadeNoButton env e s h) in
   Evasion.noEvadeAttempts s' = S (Evasion.noEvadeAttempts s) /\
   Evasion.noButtonGone s' =
     bool_decide (Evasion.MAX_EVADE_BEFORE_GONE <= S (Evasion.noEvadeAttempts s))%nat).
Proof.
  unfold Evasion.evadeNoButton.
  destruct (Evasion.noButtonGone s) eqn:G; [by left|right].
  destruct (Evasion.triggers env e s) eqn:T; [right|by left].
  do 2 (split; [done|]).
  destruct (Evasion.MAX_EVADE_BEFORE_GONE <=? _)%nat eqn:E.
  - simpl. apply Nat.leb_le in E. by rewrite bool_decide_eq_true_2.
  - apply Nat.leb_gt in E.
    destruct (sampleLoop_spec (random env) (Num.ofN (innerWidth env)) (Num.ofN (innerHeight env))
                (width (noBtnRect env)) (height (noBtnRect env)) (yesRect env) 50 0)
      as (n & -> & _); [lia|lia|].
    simpl. rewrite bool_decide_eq_false_2 by lia. done.
Qed.

Lemma evasionInv_move s s' : evasionMove s s' -> evasionInv s -> evasionInv s'.
Proof.
  intros M [Hle Hiff]. destruct M as [env e h| |t]; [|done|done].
  destruct (evade_cases env e s h) as [[_ ->]|[(_ & _ & ->)|(G & _ & Ha & Hg)]];
    [done|done|].
  unfold evasionInv. rewrite Ha, Hg.
  assert (Evasion.noEvadeAttempts s <> Evasion.MAX_EVADE_BEFORE_GONE) as Hne.
  { intros E. apply Hiff in E. congruence. }
  split; [lia|]. rewrite bool_decide_eq_true. lia.
Qed.

Lemma retired_move s s' :
  evasionMove s s' -> Evasion.noButtonGone s = true -> evasionCore s' = evasionCore s.
Proof.
  intros M G. destruct M as [env e h| |t]; [|done|done].
  unfold Evasion.evadeNoButton. by rewrite G.
Qed.

Lemma retired_moves s s' :
  rtc evasionMove s s' -> Evasion.noButtonGone s = true -> evasionCore s' = evasionCore s.
Proof.
  induction 1 as [|s1 s2 s3 M _ IH]; intros G; [done|].
  pose proof (retired_move _ _ M G) as E. rewrite IH, E; [done|].
  unfold evasionCore in E. congruence.
Qed.

Lemma evasionInv_moves s s' : rtc evasionMove s s' -> evasionInv s -> evasionInv s'.
Proof. induction 1; eauto using evasionInv_move. Qed.

Lemma evasionInv_reset s : evasionInv (Evasion.replayReset s).
Proof. split; simpl; [lia|]. split; [done|]. unfold Evasion.MAX_EVADE_BEFORE_GONE. lia. Qed.

Lemma evasionInv_dispatch env ev a :
  evasionInv (evasion a) -> evasionInv (evasion (dispatch env ev a)).
Proof.
  intros I. destruct (isReplay ev) eqn:R.
  - destruct ev; try discriminate. unfold dispatch. rewrite replay_evasion.
    apply evasionInv_reset.
  - eapply evasionInv_moves; [by apply dispatch_evasion|done].
Qed.

Lemma evasionInv_reachable a : reachable a -> evasionInv (evasion a).
Proof.
  intros (m & env0 & evs & ->).
  assert (evasionInv (evasion (initialApp m env0))) as I.
  { split; simpl; [lia|]. split; [done|]. unfold Evasion.MAX_EVADE_BEFORE_GONE. lia. }
  revert I. generalize (initialApp m env0) as a.
  induction evs as [|[env ev] evs IH]; intros a I; simpl; [done|].
  apply IH, evasionInv_dispatch, I.
Qed.

Lemma retired_run evs a :
  noReplay evs -> Evasion.noButtonGone (evasion a) = true ->
  evasionCore (evasion (run evs a)) = evasionCore (evasion a).
Proof.
  revert a. induction evs as [|[env ev] evs IH]; intros a Hn G; simpl; [done|].
  inversion Hn as [|? ? Hev Hevs]; subst. simpl in Hev.
  pose proof (retired_moves _ _ (dispatch_evasion env ev a Hev) G) as E.
  rewrite IH; [done|done|]. unfold evasionCore in E. congruence.
Qed.

(** C2.  In every reachable state: the attempt count is at most 8 and the
    button is retired exactly when the count is 8; while it is active, an
    event closer to its centre than the detection radius adds exactly one
    attempt, and retires the button exactly when that makes 8; once retired,
    [evadeNoButton] changes nothing at all and no run of events without a
    replay changes the count, the flag or the position; the replay handler
    puts the button back to active with count 0. *)
Theorem evasion_counts_then_retires (a : App) (env : Env) (e : Evasion.PointerEvent) :
  reachable a ->
  let s := evasion a in
  let s' := fst (Evasion.evadeNoButton env e s (host a)) in
  ((Evasion.noEvadeAttempts s <= 8)%nat /\
   (Evasion.noButtonGone s = true <-> Evasion.noEvadeAttempts s = 8%nat)) /\
  (Evasion.noButtonGone s = false -> Evasion.triggers env e s = true ->
     Evasion.noEvadeAttempts s' = S (Evasion.noEvadeAttempts s) /\
     (Evasion.noButtonGone s' = true <-> S (Evasion.noEvadeAttempts s) = 8%nat)) /\
  (Evasion.noButtonGone s = true ->
     Evasion.evadeNoButton env e s (host a) = (s, host a) /\
     forall evs, noReplay evs -> evasionCore (evasion (run evs a)) = evasionCore s) /\
  (forall env', evasionCore (evasion (replay env' a)) = (0%nat, false, None, None)).
Proof.
  intros R s s'. pose proof (evasionInv_reachable a R) as I. fold s in I.
  split; [exact I|]. split; [|split].
  - intros G T. destruct (evade_cases env e s (host a))
      as [[G' _]|[(_ & T' & _)|(_ & _ & Ha & Hg)]]; [congruence|congruence|].
    fold s' in Ha, Hg. split; [done|]. rewrite Hg, bool_decide_eq_true.
    destruct I as [Hle Hiff]. unfold Evasion.MAX_EVADE_BEFORE_GONE in *.
    assert (Evasion.noEvadeAttempts s <> 8%nat) by (intros E; apply Hiff in E; congruence).
    lia.
  - intros G. split.
    + unfold Evasion.evadeNoButton. by rewrite G.
    + intros evs Hn. by apply retired_run.
  - intros env'. by rewrite replay_evasion.
Qed.


(** On the sample page: a first touch near the button counts one attempt;
    after eight of them the button is retired and a ninth changes nothing. *)
Lemma evasion_counts_then_retires_witness :
  let a := Sample.app in
  let a8 := run Sample.eightTouches Sample.app in
  reachable a /\ reachable a8 /\
  Evasion.noEvadeAttempts
    (fst (Evasion.evadeNoButton (Sample.env 0) Sample.touch (evasion a) (host a))) = 1%nat /\
  Evasion.evadeNoButton (Sample.env 0) Sample.touch (evasion a8) (host a8) =
    (evasion a8, host a8).
Proof.
  intros a a8.
  assert (reachable a) as R by apply (reachable_run []).
  assert (reachable a8) as R8 by apply reachable_run.
  refine (conj R (conj R8 (conj _ _))).
  - destruct (evasion_counts_then_retires a (Sample.env 0) Sample.touch R) as (_ & H & _).
    apply H; vm_compute; reflexivity.
  - destruct (evasion_counts_then_retires a8 (Sample.env 0) Sample.touch R8) as (_ & _ & H & _).
    apply H. vm_compute. reflexivity.
Defined.


(** ** Confetti *)

Open Scope Q_scope.

Lemma ofN_nonneg n : 0 <= Num.ofN n.
Proof. unfold Num.ofN. change 0 with (inject_Z 0). rewrite <- Zle_Qle. lia. Qed.

Lemma ofnat_S j : Num.ofnat (S j) == Num.ofnat j + 1.
Proof.
  unfold Num.ofnat. rewrite Nat2Z.inj_succ, <- Z.add_1_r, inject_Z_plus. reflexivity.
Qed.

Lemma created_fallen rnd k cw ch :
  unitRange rnd -> fallen ch 0 (Confetti.createConfettiPiece rnd k cw ch).
Proof.
  intros U. unfold fallen. simpl.
  pose proof (U (k + 8)%nat) as [H8 _]. pose proof (U (k + 1)%nat) as [H1 _].
  pose proof (ofN_nonneg ch) as Hc.
  split; [lra|]. change (Num.ofnat 0) with 0.
  pose proof (Qmult_le_0_compat _ _ H1 Hc). lra.
Qed.

Lemma advance_fallen sine ch j p :
  fallen ch j p -> fallen ch (S j) (Confetti.advance sine (Num.ofN ch) p).
Proof.
  intros [Hv Hy]. unfold fallen. simpl. split; [done|]. rewrite ofnat_S. lra.
Qed.

Lemma fallen_weaken ch j p : fallen ch (S j) p -> fallen ch j p.
Proof. intros [Hv Hy]. split; [done|]. rewrite ofnat_S in Hy. lra. Qed.

Lemma seeded_fallen ch p : seeded ch p -> fallen ch 0 p.
Proof.
  induction 1 as [rnd k cw U|sine p _ IH].
  - by apply created_fallen.
  - apply fallen_weaken, advance_fallen, IH.
Qed.

Lemma tick_pieces env s hs :
  Confetti.confettiPieces (fst (Confetti.animateConfetti env s hs)) =
    List.filter (Confetti.onScreen (Num.ofN (Confetti.canvas_height s)))
      (map (Confetti.advance (sin env) (Num.ofN (Confetti.canvas_height s)))
           (Confetti.confettiPieces s)) /\
  Confetti.canvas_height (fst (Confetti.animateConfetti env s hs)) = Confetti.canvas_height s.
Proof.
  unfold Confetti.animateConfetti.
  destruct (0 <? _)%nat; [destruct (Host.requestAnimationFrame _ _)|]; done.
Qed.

Lemma filter_length_le' {A} (f : A -> bool) l : (length (List.filter f l) <= length l)%nat.
Proof. induction l as [|x l IH]; simpl; [lia|]. destruct (f x); simpl; lia. Qed.

Lemma tick_length env s hs :
  (length (Confetti.confettiPieces (fst (Confetti.animateConfetti env s hs))) <=
   length (Confetti.confettiPieces s))%nat.
Proof.
  destruct (tick_pieces env s hs) as [-> _].
  etransitivity; [apply filter_length_le'|]. by rewrite length_map.
Qed.

Lemma ticks_snoc envs env s hs :
  ticks (envs ++ [env]) s hs =
  Confetti.animateConfetti env (fst (ticks envs s hs)) (snd (ticks envs s hs)).
Proof.
  revert s hs. induction envs as [|e envs IH]; intros s hs; simpl.
  - by destruct (Confetti.animateConfetti env s hs).
  - destruct (Confetti.animateConfetti e s hs). apply IH.
Qed.

Lemma ticks_length envs s hs :
  (length (Confetti.confettiPieces (fst (ticks envs s hs))) <=
   length (Confetti.confettiPieces s))%nat.
Proof.
  revert s hs. induction envs as [|e envs IH]; intros s hs; simpl; [done|].
  pose proof (tick_length e s hs). destruct (Confetti.animateConfetti e s hs) as [s' hs'].
  etransitivity; [apply IH|done].
Qed.

Lemma ticks_fallen envs s hs j :
  Forall (fallen (Confetti.canvas_height s) j) (Confetti.confettiPieces s) ->
  let r := fst (ticks envs s hs) in
  Confetti.canvas_height r = Confetti.canvas_height s /\
  Forall (fallen (Confetti.canvas_height s) (j + length envs)) (Confetti.confettiPieces r) /\
  (envs <> [] ->
   Forall (fun p => Confetti.onScreen (Num.ofN (Confetti.canvas_height s)) p = true)
     (Confetti.confettiPieces r)).
Proof.
  revert s hs j. induction envs as [|e envs IH] using rev_ind; intros s hs j F; simpl.
  - rewrite Nat.add_0_r. done.
  - rewrite ticks_snoc. destruct (IH s hs j F) as (Hh & Hf & _).
    destruct (tick_pieces e (fst (ticks envs s hs)) (snd (ticks envs s hs))) as [-> ->].
    rewrite Hh. split; [done|]. split.
    + rewrite length_app. simpl. replace (j + (length envs + 1))%nat with (S (j + length envs)) by lia.
      apply Forall_forall. intros p Hp. apply list_elem_of_In, filter_In in Hp as [Hp _].
      apply in_map_iff in Hp as (q & <- & Hq). apply advance_fallen.
      rewrite Forall_forall in Hf. apply Hf. by apply list_elem_of_In.
    + intros _. apply Forall_forall. intros p Hp.
      by apply list_elem_of_In, filter_In in Hp as [_ Hp].
Qed.

Lemma ofnat_le n m : (n <= m)%nat -> Num.ofnat n <= Num.ofnat m.
Proof. intros H. unfold Num.ofnat. rewrite <- Zle_Qle. lia. Qed.

Lemma ofnat_lifetime ch : Num.ofnat (lifetime ch) == 2 * Num.ofN ch + 50.
Proof.
  unfold Num.ofnat, Num.ofN, lifetime. rewrite N_nat_Z, N2Z.inj_add, N2Z.inj_mul.
  rewrite inject_Z_plus, inject_Z_mult. reflexivity.
Qed.

Lemma ticks_drain envs s hs :
  Forall (seeded (Confetti.canvas_height s)) (Confetti.confettiPieces s) ->
  (lifetime (Confetti.canvas_height s) <= length envs)%nat ->
  Confetti.confettiPieces (fst (ticks envs s hs)) = [].
Proof.
  intros S L.
  assert (Forall (fallen (Confetti.canvas_height s) 0) (Confetti.confettiPieces s)) as F.
  { eapply Forall_impl; [exact S|]. intros p. apply seeded_fallen. }
  destruct (ticks_fallen envs s hs 0 F) as (_ & Hf & Ho).
  assert (envs <> []) as Hne.
  { intros ->. simpl in L. unfold lifetime in L. lia. }
  specialize (Ho Hne).
  destruct (Confetti.confettiPieces (fst (ticks envs s hs))) as [|p ps]; [done|exfalso].
  apply Forall_cons_1 in Hf as [[Hv Hy] _]. apply Forall_cons_1 in Ho as [Ho _].
  unfold Confetti.onScreen in Ho. apply andb_true_iff in Ho as [Ho _].
  apply ltb_lt in Ho. simpl in Hy.
  pose proof (ofnat_le _ _ L) as Hl. rewrite ofnat_lifetime in Hl.
  pose proof (ofN_nonneg (Confetti.canvas_height s)). lra.
Qed.

Close Scope Q_scope.

Lemma createPieces_seeded rnd k n cw ch :
  unitRange rnd -> Forall (seeded ch) (Confetti.createPieces rnd k n cw ch).
Proof.
  intros U. revert k. induction n as [|n IH]; intros k; cbn [Confetti.createPieces].
  - constructor.
  - constructor; [by constructor|apply IH].
Qed.

Lemma tick_seeded env s hs :
  Forall (seeded (Confetti.canvas_height s)) (Confetti.confettiPieces s) ->
  Forall (seeded (Confetti.canvas_height s))
    (Confetti.confettiPieces (fst (Confetti.animateConfetti env s hs))).
Proof.
  intros F. destruct (tick_pieces env s hs) as [-> _].
  apply Forall_forall. intros p Hp. apply list_elem_of_In, filter_In in Hp as [Hp _].
  apply in_map_iff in Hp as (q & <- & Hq). constructor.
  rewrite Forall_forall in F. apply F. by apply list_elem_of_In.
Qed.

Lemma launch_seeded env s hs :
  unitRange (random env) ->
  Forall (seeded (innerHeight env)) (Confetti.confettiPieces s) ->
  let r := fst (Confetti.launchConfetti env s hs) in
  Confetti.canvas_height r = innerHeight env /\
  Forall (seeded (innerHeight env)) (Confetti.confettiPieces r).
Proof.
  intros U F. unfold Confetti.launchConfetti. cbv zeta.
  set (s2 := Confetti.push _ _).
  assert (Confetti.canvas_height s2 = innerHeight env) as Hh by done.
  assert (Forall (seeded (innerHeight env)) (Confetti.confettiPieces s2)) as F2.
  { subst s2. simpl. apply Forall_app. split; [done|]. by apply createPieces_seeded. }
  destruct (Confetti.confettiAnimationId s2); [done|].
  destruct (tick_pieces env s2 (Host.setTimeout ConfettiSecondary 400 hs).2) as [_ ->].
  split; [done|]. rewrite <- Hh. apply tick_seeded. by rewrite Hh.
Qed.

Lemma secondary_seeded env s :
  unitRange (random env) ->
  Forall (seeded (Confetti.canvas_height s)) (Confetti.confettiPieces s) ->
  Forall (seeded (Confetti.canvas_height s))
    (Confetti.confettiPieces (Confetti.secondaryBurst env s)).
Proof.
  intros U F. simpl. apply Forall_app. split; [done|]. by apply createPieces_seeded.
Qed.

(** One tick, seen from the host: either nothing is left and nothing is
    requested, or a frame is requested and the handle names it. *)
Lemma animate_cases env s h :
  let r := Confetti.animateConfetti env s h in
  Confetti.painted (fst r) =
    map (Confetti.advance (sin env) (Num.ofN (Confetti.canvas_height s)))
        (Confetti.confettiPieces s) /\
  ((Confetti.confettiPieces (fst r) = [] /\ snd r = h /\
    Confetti.confettiAnimationId (fst r) = Confetti.confettiAnimationId s) \/
   (Confetti.confettiPieces (fst r) <> [] /\
    snd r = snd (Host.requestAnimationFrame ConfettiFrame h) /\
    Confetti.confettiAnimationId (fst r) = Some (Host.nextFrame h))).
Proof.
  unfold Confetti.animateConfetti.
  destruct (List.filter _ _) as [|p ps] eqn:E; simpl; split; auto.
Qed.

(** C6.  Every seeded piece falls (its downward velocity is positive), and
    after [lifetime] ticks on an unchanged canvas none of them is left; a
    tick never makes the active set longer; a tick that leaves the set empty
    requests no further frame; and the pieces added by [launchConfetti] and
    by the secondary burst are seeded pieces. *)
Theorem confetti_burst_drains (s : Confetti.State) (hs : Host.t) (envs : list Env) :
  Forall (seeded (Confetti.canvas_height s)) (Confetti.confettiPieces s) ->
  (lifetime (Confetti.canvas_height s) <= length envs)%nat ->
  Forall (fun p => (0 < Confetti.velocityY p)%Q) (Confetti.confettiPieces s) /\
  Confetti.confettiPieces (fst (ticks envs s hs)) = [] /\
  (forall env s' hs',
     (length (Confetti.confettiPieces (fst (Confetti.animateConfetti env s' hs'))) <=
      length (Confetti.confettiPieces s'))%nat) /\
  (forall env s' hs',
     Confetti.confettiPieces (fst (Confetti.animateConfetti env s' hs')) = [] ->
     snd (Confetti.animateConfetti env s' hs') = hs') /\
  (forall env s0 hs0,
     unitRange (random env) ->
     Forall (seeded (innerHeight env)) (Confetti.confettiPieces s0) ->
     let r := fst (Confetti.launchConfetti env s0 hs0) in
     Confetti.canvas_height r = innerHeight env /\
     Forall (seeded (innerHeight env)) (Confetti.confettiPieces r)) /\
  (forall env s0,
     unitRange (random env) ->
     Forall (seeded (Confetti.canvas_height s0)) (Confetti.confettiPieces s0) ->
     Forall (seeded (Confetti.canvas_height s0))
       (Confetti.confettiPieces (Confetti.secondaryBurst env s0))).
Proof.
  intros F L. split; [|split; [|split; [|split; [|split]]]].
  - eapply Forall_impl; [exact F|]. intros p Hp.
    destruct (seeded_fallen _ _ Hp) as [Hv _]. lra.
  - by apply ticks_drain.
  - apply tick_length.
  - intros env s' hs' He.
    destruct (animate_cases env s' hs') as [_ [(_ & Hh & _)|(Hne & _)]]; done.
  - apply launch_seeded.
  - apply secondary_seeded.
Qed.

Ltac ncf := unfold notConfettiFrame; intros; congruence.

Lemma runTask_confetti env task a h0 :
  hostGrows notConfettiFrame h0 (host a) ->
  task <> ConfettiFrame ->
  (confetti (runTask env task a) = confetti a \/
   exists env', confetti (runTask env task a) = Confetti.secondaryBurst env' (confetti a)) /\
  hostGrows notConfettiFrame h0 (host (runTask env task a)).
Proof.
  intros G Hne.
  destruct task; try done; unfold runTask, later, showPage; on_eq;
    cbn [host confetti setHost setPages setCaptcha setHearts setEvasion setEnvelope
         setConfetti setStarfield setTypewriter setGallery setReplayHidden snd fst];
    (split; [eauto|]); (eapply grow_trans; [exact G|]).
  - apply grow_raf; ncf.
  - apply grow_refl.
  - eapply grow_trans; [|apply grow_startFloatingHearts; ncf]. apply grow_raf; ncf.
  - apply grow_refl.
  - apply grow_spawnHeart. ncf.
  - apply grow_refl.
  - apply grow_refl.
  - eapply grow_trans; [|apply grow_setTimeout; ncf]. apply grow_raf; ncf.
  - apply grow_startStarfield. ncf.
  - apply grow_refl.
  - eapply grow_trans; [|apply grow_setTimeout; ncf]. apply grow_showGallery; ncf.
  - apply grow_startTypewriter; ncf.
  - apply grow_refl.
  - apply grow_animateStars. ncf.
  - apply grow_refl.
  - apply grow_typeNextLine; ncf.
  - apply grow_typeNext; ncf.
  - apply grow_refl.
  - apply grow_startRight. ncf.
  - apply grow_refl.
Qed.

Lemma dispatch_confetti env ev a :
  (forall t, t ∈ Host.timers (host a) -> Host.timer_task t <> ConfettiFrame) ->
  confettiStep a (dispatch env ev a) (isReplay ev).
Proof.
  intros NT. destruct ev; cbn [isReplay dispatch].
  - apply cf_quiet; unfold toggle; case_match; try done; apply grow_refl.
  - apply cf_quiet; unfold toggle; repeat case_match; try done; apply grow_refl.
  - on_eq. apply cf_quiet; [done|]. app_simpl. apply grow_verifyCaptcha; ncf.
  - unfold mousemove. repeat case_match; try (apply cf_quiet; [done|apply grow_refl]).
    on_eq. apply cf_quiet; [done|]. app_simpl. apply grow_evadeNoButton; ncf.
  - unfold touchmove. case_match; [|apply cf_quiet; [done|apply grow_refl]].
    on_eq. apply cf_quiet; [done|]. app_simpl. apply grow_evadeNoButton; ncf.
  - unfold touchstart. on_eq. apply cf_quiet; [done|]. app_simpl.
    apply grow_evadeNoButton; ncf.
  - unfold yesClick, later. on_eq. app_simpl.
    eapply (cf_launch _ _ env); app_simpl.
    + apply grow_stopFloatingHearts.
    + apply surjective_pairing.
    + eapply grow_trans; [|apply grow_setTimeout; ncf]. apply grow_setTimeout; ncf.
  - unfold openEnvelope, later. case_match; apply cf_quiet; try done; try apply grow_refl.
    app_simpl. apply grow_setTimeout; ncf.
  - unfold openEnvelope, later.
    repeat case_match; apply cf_quiet; try done; try apply grow_refl.
    app_simpl. apply grow_setTimeout; ncf.
  - unfold resize. on_eq. eapply cf_resize; [reflexivity|]. app_simpl.
    apply grow_onResize; ncf.
  - unfold replay, showPage. on_eq. app_simpl.
    eapply cf_replay; app_simpl.
    + eapply grow_trans; [apply grow_resetGallery|]. apply grow_stopStarfield.
    + apply surjective_pairing.
    + eapply grow_trans; [apply grow_stopFloatingHearts|]. apply grow_raf; ncf.
  - destruct (Host.takeTimer id (host a)) as [[task hs]|] eqn:E;
      [|apply cf_quiet; [done|apply grow_refl]].
    assert (task <> ConfettiFrame) as Hne.
    { unfold Host.takeTimer in E. destruct (Host.findTimer id (host a)) as [x|] eqn:F; [|done].
      injection E as <- _. apply NT. unfold Host.findTimer in F.
      apply find_some in F as [F _]. by apply list_elem_of_In. }
    destruct (runTask_confetti env task (setHost hs a) (host a)) as [[C|[env' C]] G];
      [eapply grow_takeTimer, E|done| |].
    + by apply cf_quiet.
    + by eapply cf_secondary.
  - destruct (Host.takeFrame id (host a)) as [[task hs]|] eqn:E;
      [|apply cf_quiet; [done|apply grow_refl]].
    assert (task = ConfettiFrame \/ task <> ConfettiFrame) as [->|Hne]
      by (destruct task; auto; right; congruence).
    + eapply cf_tick; [exact E|]. unfold runTask. on_eq. app_simpl.
      apply surjective_pairing.
    + destruct (runTask_confetti env task (setHost hs a) (host a)) as [[C|[env' C]] G];
        [eapply grow_takeFrame, E|done| |].
      * by apply cf_quiet.
      * by eapply cf_secondary.
Qed.

Lemma grows_noTimer h h' :
  hostGrows notConfettiFrame h h' ->
  (forall t, t ∈ Host.timers h -> Host.timer_task t <> ConfettiFrame) ->
  forall t, t ∈ Host.timers h' -> Host.timer_task t <> ConfettiFrame.
Proof. intros G H t Ht. destruct (grow_timer_elem _ _ _ _ G Ht); auto. Qed.

Lemma grows_loopFrames h h' f :
  hostGrows notConfettiFrame h h' ->
  f ∈ Host.frames h' -> Host.frame_task f = ConfettiFrame -> f ∈ Host.frames h.
Proof.
  intros G Hf Ht. destruct (grow_frame_elem _ _ _ _ G Hf) as [|N]; [done|]. by destruct N.
Qed.

Lemma grows_notPending h h' :
  hostGrows notConfettiFrame h h' -> ~ loopPending h -> ~ loopPending h'.
Proof.
  intros G N (f & Hf & Ht). apply N. exists f. split; [|done].
  eapply grows_loopFrames; eauto.
Qed.

Lemma animate_inv env s h :
  ~ loopPending h ->
  (forall t, t ∈ Host.timers h -> Host.timer_task t <> ConfettiFrame) ->
  let r := Confetti.animateConfetti env s h in
  (forall t, t ∈ Host.timers (snd r) -> Host.timer_task t <> ConfettiFrame) /\
  (forall f, f ∈ Host.frames (snd r) -> Host.frame_task f = ConfettiFrame ->
     Confetti.confettiAnimationId (fst r) = Some (Host.frame_id f)).
Proof.
  intros N NT r. destruct (animate_cases env s h) as [_ [(_ & Hh & _)|(_ & Hh & Hid)]];
    fold r in Hh |- *; try fold r in Hid; rewrite Hh.
  - split; [done|]. intros f Hf Ht. destruct N. by exists f.
  - split; [done|]. simpl. intros f Hf Ht.
    apply elem_of_app in Hf as [Hf|Hf]; [destruct N; by exists f|].
    apply list_elem_of_singleton in Hf as ->. by rewrite Hid.
Qed.

Lemma take_loop_frame a id h1 :
  confettiInv a ->
  Host.takeFrame id (host a) = Some (ConfettiFrame, h1) ->
  Confetti.confettiAnimationId (confetti a) = Some id /\
  ~ loopPending h1 /\
  (forall t, t ∈ Host.timers h1 -> Host.timer_task t <> ConfettiFrame).
Proof.
  intros [NT NF] E. unfold Host.takeFrame in E.
  destruct (Host.findFrame id (host a)) as [x|] eqn:F; [|done].
  injection E as Ex <-. unfold Host.findFrame in F. apply find_some in F as [Hx Hid].
  apply bool_decide_eq_true in Hid. apply list_elem_of_In in Hx.
  pose proof (NF x Hx Ex) as Hh. rewrite Hid in Hh. split; [done|]. split; [|done].
  intros (f & Hf & Ht). simpl in Hf. apply list_elem_of_filter in Hf as [Hne Hf].
  pose proof (NF f Hf Ht). congruence.
Qed.

Lemma confettiInv_step a a' r : confettiStep a a' r -> confettiInv a -> confettiInv a'.
Proof.
  intros St [NT NF]. unfold confettiInv.
  assert (Confetti.confettiAnimationId (confetti a) = None -> ~ loopPending (host a)) as NP.
  { intros Hn (f & Hf & Ht). pose proof (NF f Hf Ht). congruence. }
  destruct St as [C G|env C G|env C G|env h1 h2 G1 L G2|env id h1 T A|h1 h2 G1 R G2].
  - split; [by eapply grows_noTimer|]. intros f Hf Ht. rewrite C.
    apply NF; [|done]. eapply grows_loopFrames; eauto.
  - split; [by eapply grows_noTimer|]. intros f Hf Ht. rewrite C. simpl.
    apply NF; [|done]. eapply grows_loopFrames; eauto.
  - split; [by eapply grows_noTimer|]. intros f Hf Ht. rewrite C. simpl.
    apply NF; [|done]. eapply grows_loopFrames; eauto.
  - assert (forall t, t ∈ Host.timers h1 -> Host.timer_task t <> ConfettiFrame) as NT1
      by (by eapply grows_noTimer).
    set (hs1 := snd (Host.setTimeout ConfettiSecondary 400 h1)).
    assert (forall t, t ∈ Host.timers hs1 -> Host.timer_task t <> ConfettiFrame) as NT2.
    { eapply grows_noTimer; [|exact NT1]. apply grow_setTimeout. unfold notConfettiFrame.
      congruence. }
    unfold Confetti.launchConfetti in L. cbv zeta in L. fold hs1 in L.
    destruct (Confetti.confettiAnimationId _) as [id|] eqn:Hid.
    + injection L as L1 L2. subst h2. split; [by eapply grows_noTimer|].
      intros f Hf Ht. rewrite <- L1. simpl in Hid. simpl. rewrite Hid. apply NF; [|done].
      eapply (grows_loopFrames (host a) h1); [done| |done].
      pose proof (grows_loopFrames hs1 (host a') f G2 Hf Ht) as H. exact H.
    + simpl in Hid.
      assert (~ loopPending hs1) as N1.
      { intros (f & Hf & Ht). apply (NP eq_refl). exists f. split; [|done].
        eapply grows_loopFrames; [exact G1| |done]. exact Hf. }
      match type of L with
      | Confetti.animateConfetti _ ?s _ = _ => pose proof (animate_inv env s hs1 N1 NT2) as H
      end.
      cbv zeta in H. rewrite L in H. destruct H as [T' F']. simpl in T', F'.
      split; [by eapply grows_noTimer|].
      intros f Hf Ht. apply F'; [|done]. eapply grows_loopFrames; eauto.
  - destruct (take_loop_frame a id h1 (conj NT NF) T) as (_ & N1 & NT1).
    pose proof (animate_inv env (confetti a) h1 N1 NT1) as H. cbv zeta in H.
    rewrite A in H. exact H.
  - unfold Confetti.replayReset in R. injection R as <- <-.
    split.
    + eapply grows_noTimer; [exact G2|]. 
      assert (forall t, t ∈ Host.timers h1 -> Host.timer_task t <> ConfettiFrame) as NT1
        by (by eapply grows_noTimer).
      destruct (Confetti.confettiAnimationId (confetti a)); [|done]. exact NT1.
    + intros f Hf Ht. exfalso.
      pose proof (grows_loopFrames _ _ f G2 Hf Ht) as H2.
      destruct (Confetti.confettiAnimationId (confetti a)) as [id|] eqn:Hid.
      * simpl in H2. apply list_elem_of_filter in H2 as [Hne H2].
        pose proof (grows_loopFrames _ _ f G1 H2 Ht) as H1.
        pose proof (NF f H1 Ht). congruence.
      * pose proof (grows_loopFrames _ _ f G1 H2 Ht) as H1.
        pose proof (NF f H1 Ht). congruence.
Qed.

Lemma confettiInv_initial m env0 : confettiInv (initialApp m env0).
Proof. split; simpl; intros x Hx; by apply elem_of_nil in Hx. Qed.

Lemma confettiInv_run evs a : confettiInv a -> confettiInv (run evs a).
Proof.
  revert a. induction evs as [|[env ev] evs IH]; intros a I; simpl; [done|].
  apply IH. eapply confettiInv_step; [|exact I]. apply dispatch_confetti, I.
Qed.

Lemma confettiInv_reachable a : reachable a -> confettiInv a.
Proof. intros (m & env0 & evs & ->). apply confettiInv_run, confettiInv_initial. Qed.

Lemma stale_step id ps a a' :
  confettiStep a a' false -> stale id ps a -> stale id ps a'.
Proof.
  intros St (Hid & NP & NT & Hp & Hps). unfold stale.
  inversion St as [C G|env C G|env C G|env h1 h2 G1 L G2|env id' h1 T A| ]; subst.
  - rewrite C. repeat split; try done; [by eapply grows_notPending|by eapply grows_noTimer].
  - rewrite C. simpl.
    repeat split; try done; [by eapply grows_notPending|by eapply grows_noTimer].
  - rewrite C. simpl.
    repeat split; try done; [by eapply grows_notPending|by eapply grows_noTimer|].
    by apply prefix_app_r.
  - unfold Confetti.launchConfetti in L. cbv zeta in L.
    cbn [Confetti.confettiAnimationId Confetti.push Confetti.resizeConfettiCanvas] in L.
    rewrite Hid in L. injection L as L1 L2. rewrite <- L1. subst h2. simpl.
    assert (hostGrows notConfettiFrame (host a) (host a')) as G.
    { eapply grow_trans; [exact G1|]. eapply grow_trans; [|exact G2].
      apply grow_setTimeout. unfold notConfettiFrame. congruence. }
    repeat split; try done; [by eapply grows_notPending|by eapply grows_noTimer|].
    by apply prefix_app_r.
  - exfalso. apply NP. unfold Host.takeFrame in T.
    destruct (Host.findFrame id' (host a)) as [x|] eqn:F; [|done].
    injection T as Ex _. unfold Host.findFrame in F. apply find_some in F as [Hx _].
    exists x. by rewrite <- list_elem_of_In in Hx.
Qed.

Lemma stale_run id ps evs a :
  noReplay evs -> stale id ps a -> stale id ps (run evs a).
Proof.
  revert a. induction evs as [|[env ev] evs IH]; intros a Hn S; simpl; [done|].
  inversion Hn as [|? ? Hev Hevs]; subst. simpl in Hev.
  apply IH; [done|]. eapply stale_step; [|exact S].
  rewrite <- Hev. apply dispatch_confetti. by destruct S as (_ & _ & NT & _).
Qed.

Lemma replay_confetti env a :
  Confetti.confettiAnimationId (confetti (replay env a)) = None.
Proof. unfold replay, showPage. on_eq. reflexivity. Qed.

(** C10.  When the frame callback of the loop runs in a reachable state and
    leaves no piece, the handle keeps the identifier of that frame and no
    frame of the loop is pending.  A click on Yes then adds its 150 pieces,
    and through every run of events without a replay the handle stays as it
    is, no frame of the loop is pending, nothing is painted and those pieces
    stay unchanged at the head of the active set.  The replay handler sets the
    handle to null. *)
Theorem stale_handle_blocks_restart (a : App) (env : Env) (id : positive) (hs : Host.t) :
  reachable a ->
  Host.takeFrame id (host a) = Some (ConfettiFrame, hs) ->
  let a1 := dispatch env (FrameFires id) a in
  Confetti.confettiPieces (confetti a1) = [] ->
  (Confetti.confettiAnimationId (confetti a1) = Some id /\ ~ loopPending (host a1)) /\
  (forall env',
     let a2 := dispatch env' YesClick a1 in
     let ps :=
       Confetti.createPieces (random env') 0 150 (innerWidth env') (innerHeight env') in
     Confetti.confettiPieces (confetti a2) = ps /\
     forall evs, noReplay evs -> stale id ps (run evs a2)) /\
  (forall env' b, Confetti.confettiAnimationId (confetti (replay env' b)) = None).
Proof.
  intros R T a1 Hempty.
  pose proof (confettiInv_reachable a R) as I.
  destruct (take_loop_frame a id hs I T) as (Hid & NP & NT).
  assert (confetti a1 = fst (Confetti.animateConfetti env (confetti a) hs) /\
          host a1 = snd (Confetti.animateConfetti env (confetti a) hs)) as [C1 H1].
  { subst a1. cbn [dispatch]. rewrite T. unfold runTask. on_eq. done. }
  destruct (animate_cases env (confetti a) hs) as [_ [(_ & Hh & Hi)|(Hne & _)]];
    [|by rewrite <- C1 in Hne].
  rewrite <- C1 in Hi. rewrite <- H1 in Hh.
  assert (Confetti.confettiAnimationId (confetti a1) = Some id) as Hid1 by congruence.
  assert (~ loopPending (host a1)) as NP1 by (by rewrite Hh).
  split; [done|]. split; [|intros; apply replay_confetti].
  intros env' a2 ps.
  assert (confetti a2 =
            Confetti.push ps (Confetti.resizeConfettiCanvas env' (confetti a1)) /\
          hostGrows notConfettiFrame (host a1) (host a2)) as [C2 G2].
  { subst a2. cbn [dispatch]. unfold yesClick, later. on_eq. app_simpl.
    unfold Confetti.launchConfetti. cbv zeta.
    cbn [Confetti.confettiAnimationId Confetti.push Confetti.resizeConfettiCanvas].
    rewrite Hid1. app_simpl. split; [done|].
    eapply grow_trans; [|apply grow_setTimeout; unfold notConfettiFrame; congruence].
    eapply grow_trans; [|apply grow_setTimeout; unfold notConfettiFrame; congruence].
    eapply grow_trans; [|apply grow_setTimeout; unfold notConfettiFrame; congruence].
    apply grow_stopFloatingHearts. }
  clearbody a2 a1.
  assert (Confetti.confettiPieces (confetti a2) = ps) as Hps.
  { rewrite C2. simpl. by rewrite Hempty. }
  split; [done|]. intros evs Hn. apply stale_run; [done|].
  unfold stale. rewrite C2. simpl. rewrite Hempty. simpl.
  repeat split; try done; [by eapply grows_notPending|].
  eapply grows_noTimer; [exact G2|]. by rewrite Hh.
Qed.

(** Three pieces on a canvas of height 10 are gone after 70 ticks. *)
Lemma confetti_burst_drains_witness :
  let envs := replicate 70 (Sample.env 0) in
  Forall (seeded 10) (Confetti.confettiPieces Sample.threePieces) /\
  (lifetime 10 <= length envs)%nat /\
  length (Confetti.confettiPieces Sample.threePieces) = 3%nat /\
  Confetti.confettiPieces (fst (ticks envs Sample.threePieces Host.empty)) = [].
Proof.
  intros envs.
  assert (Forall (seeded (Confetti.canvas_height Sample.threePieces))
            (Confetti.confettiPieces Sample.threePieces)) as F
    by apply (createPieces_seeded _ _ _ _ _ unitRange_zero).
  assert (lifetime (Confetti.canvas_height Sample.threePieces) <= length envs)%nat as L
    by (vm_compute; lia).
  refine (conj F (conj L (conj eq_refl _))).
  exact (proj1 (proj2 (confetti_burst_drains Sample.threePieces Host.empty envs F L))).
Defined.

(** In the tiny window the fifth frame of the loop drains the burst; the
    handle keeps its identifier and a second click on Yes adds 150 pieces
    that no frame will move. *)
Lemma stale_handle_blocks_restart_witness :
  let a := run Sample.burst Sample.app in
  let hs := Host.cancelAnimationFrame 5 (host a) in
  let a1 := dispatch Sample.tiny (FrameFires 5) a in
  reachable a /\
  Host.takeFrame 5 (host a) = Some (ConfettiFrame, hs) /\
  Confetti.confettiPieces (confetti a1) = [] /\
  Confetti.confettiAnimationId (confetti a1) = Some 5%positive /\
  length (Confetti.confettiPieces (confetti (dispatch Sample.tiny YesClick a1))) = 150%nat.
Proof.
  intros a hs a1.
  assert (reachable a) as R by apply reachable_run.
  assert (Host.takeFrame 5 (host a) = Some (ConfettiFrame, hs)) as T
    by (vm_compute; reflexivity).
  assert (Confetti.confettiPieces (confetti a1) = []) as D by (vm_compute; reflexivity).
  destruct (stale_handle_blocks_restart a Sample.tiny 5 hs R T D) as ((H1 & _) & H2 & _).
  refine (conj R (conj T (conj D (conj H1 _)))).
  destruct (H2 Sample.tiny) as [E _]. fold a1 in E. rewrite E. vm_compute. reflexivity.
Defined.

(** ** The typewriter *)

Lemma filter_sublist' {A} (f : A -> bool) l1 l2 :
  l1 `sublist_of` l2 -> List.filter f l1 `sublist_of` List.filter f l2.
Proof.
  induction 1 as [|x l1 l2 _ IH|x l1 l2 _ IH]; simpl.
  - constructor.
  - destruct (f x); [by constructor|done].
  - destruct (f x); [by constructor|done].
Qed.

Lemma filter_none {A} (f : A -> bool) l :
  Forall (fun x => f x = false) l -> List.filter f l = [].
Proof. induction 1 as [|x l Hx _ IH]; simpl; [done|]. by rewrite Hx. Qed.

Lemma notLetter_not_live tw t : notLetter t -> live tw t = false.
Proof. unfold notLetter. by destruct t. Qed.

Lemma chainOf_grows tw h h' :
  hostGrows notLetter h h' -> chainOf tw h' `sublist_of` chainOf tw h.
Proof.
  intros [(new & Hn & S) _]. unfold chainOf.
  etransitivity; [apply filter_sublist', S|].
  rewrite List.filter_app, (filter_none _ new), app_nil_r; [done|].
  eapply Forall_impl; [exact Hn|]. intros t. apply notLetter_not_live.
Qed.

Ltac nl := unfold notLetter; intros; reflexivity.

Lemma typewriter_invoke cb a : typewriter (invoke cb a) = typewriter a.
Proof. by destruct cb as [[]|]. Qed.

Lemma envelope_invoke cb a : envelope (invoke cb a) = envelope a.
Proof. by destruct cb as [[]|]. Qed.

Lemma hidden_invoke cb a :
  replayBtn_hidden (invoke cb a) = afterCallback cb (replayBtn_hidden a).
Proof. by destruct cb as [[]|]. Qed.

Ltac on_eq' :=
  rewrite ?onCaptcha_eq, ?onHearts_eq, ?onEvasion_eq, ?onConfetti_eq, ?onStarfield_eq,
    ?onGallery_eq, ?onTypewriter_eq, ?host_invoke, ?typewriter_invoke, ?envelope_invoke,
    ?hidden_invoke.

Ltac app_simpl' :=
  cbn [host typewriter envelope replayBtn_hidden setHost setPages setCaptcha setHearts
       setEvasion setEnvelope setConfetti setStarfield setTypewriter setGallery
       setReplayHidden snd fst].

Lemma runTask_letter env task a h0 :
  hostGrows notLetter h0 (host a) ->
  isLetter task = false ->
  typewriter (runTask env task a) = typewriter a /\
  envelope (runTask env task a) = envelope a /\
  replayBtn_hidden (runTask env task a) = replayBtn_hidden a /\
  hostGrows notLetter h0 (host (runTask env task a)).
Proof.
  intros G Hne.
  destruct task; try discriminate; unfold runTask, later, showPage; on_eq'; app_simpl';
    (split; [done|]); (split; [done|]); (split; [done|]); (eapply grow_trans; [exact G|]).
  - apply grow_raf; nl.
  - apply grow_refl.
  - eapply grow_trans; [|apply grow_startFloatingHearts; nl]. apply grow_raf; nl.
  - apply grow_refl.
  - apply grow_spawnHeart. nl.
  - apply grow_refl.
  - apply grow_refl.
  - eapply grow_trans; [|apply grow_setTimeout; nl]. apply grow_raf; nl.
  - apply grow_startStarfield. nl.
  - apply grow_refl.
  - apply grow_animateConfetti. nl.
  - apply grow_refl.
  - apply grow_animateStars. nl.
  - apply grow_refl.
  - apply grow_refl.
  - apply grow_startRight. nl.
  - apply grow_refl.
Qed.

Lemma takeTimer_elem id h task h1 :
  Host.takeTimer id h = Some (task, h1) ->
  exists x, x ∈ Host.timers h /\ Host.timer_id x = id /\ Host.timer_task x = task /\
    h1 = match Host.timer_kind x with
         | Host.Timeout => Host.clearTimer id h
         | Host.Interval => h
         end.
Proof.
  unfold Host.takeTimer. destruct (Host.findTimer id h) as [x|] eqn:F; [|done].
  intros [= <- <-]. unfold Host.findTimer in F. apply find_some in F as [Hx Hid].
  exists x. rewrite list_elem_of_In. by apply bool_decide_eq_true in Hid.
Qed.

Lemma takeFrame_elem id h task h1 :
  Host.takeFrame id h = Some (task, h1) ->
  exists x, x ∈ Host.frames h /\ Host.frame_id x = id /\ Host.frame_task x = task /\
    h1 = Host.cancelAnimationFrame id h.
Proof.
  unfold Host.takeFrame. destruct (Host.findFrame id h) as [x|] eqn:F; [|done].
  intros [= <- <-]. unfold Host.findFrame in F. apply find_some in F as [Hx Hid].
  exists x. rewrite list_elem_of_In. by apply bool_decide_eq_true in Hid.
Qed.

Lemma dispatch_letter env ev a :
  (forall f, f ∈ Host.frames (host a) -> isLetter (Host.frame_task f) = false) ->
  letterStep a (dispatch env ev a) ev.
Proof.
  intros NF. destruct ev; cbn [dispatch].
  - apply ls_quiet; try done; unfold toggle; try case_match; try done; apply grow_refl.
  - apply ls_quiet; try done; unfold toggle; repeat case_match; try done; apply grow_refl.
  - on_eq'. apply ls_quiet; try done. app_simpl'. apply grow_verifyCaptcha; nl.
  - unfold mousemove. repeat case_match; try (apply ls_quiet; [done..|apply grow_refl]).
    on_eq'. apply ls_quiet; try done. app_simpl'. apply grow_evadeNoButton; nl.
  - unfold touchmove. case_match; [|apply ls_quiet; [done..|apply grow_refl]].
    on_eq'. apply ls_quiet; try done. app_simpl'. apply grow_evadeNoButton; nl.
  - unfold touchstart. on_eq'. apply ls_quiet; try done. app_simpl'.
    apply grow_evadeNoButton; nl.
  - unfold yesClick, later. on_eq'. app_simpl'. apply ls_quiet; try done. app_simpl'.
    eapply grow_trans; [|apply grow_setTimeout; nl].
    eapply grow_trans; [|apply grow_setTimeout; nl].
    eapply grow_trans; [|apply grow_launchConfetti; nl].
    apply grow_stopFloatingHearts.
  - unfold openEnvelope, later.
    destruct (Envelope.openEnvelope (envelope a)) as [v|] eqn:E.
    + by eapply ls_open.
    + apply ls_quiet; try done. apply grow_refl.
  - destruct (isActivationKey key); [|apply ls_quiet; try done; apply grow_refl].
    unfold openEnvelope, later.
    destruct (Envelope.openEnvelope (envelope a)) as [v|] eqn:E.
    + by eapply ls_open.
    + apply ls_quiet; try done. apply grow_refl.
  - unfold resize. on_eq'. apply ls_quiet; try done. app_simpl'.
    apply grow_onResize; nl.
  - unfold replay, showPage. on_eq'. app_simpl'. apply ls_replay; try done. app_simpl'.
    eapply grow_trans; [|apply grow_raf; nl].
    eapply grow_trans; [|apply grow_stopFloatingHearts].
    eapply grow_trans; [|apply grow_confettiReset].
    eapply grow_trans; [|apply grow_stopStarfield].
    apply grow_resetGallery.
  - destruct (Host.takeTimer id (host a)) as [[task hs]|] eqn:E;
      [|apply ls_quiet; try done; apply grow_refl].
    destruct (isLetter task) eqn:L.
    + destruct task; try discriminate.
      * unfold runTask, later. on_eq'. app_simpl'.
        eapply ls_reveal; [exact E| |reflexivity|done..].
        apply grow_showGallery; nl.
      * eapply (ls_type _ _ env); [exact E|reflexivity|..]; unfold runTask; on_eq'; done.
      * eapply (ls_type _ _ env); [exact E|reflexivity|..]; unfold runTask; on_eq'; done.
      * eapply (ls_type _ _ env); [exact E|reflexivity|..]; unfold runTask; on_eq'; done.
    + destruct (runTask_letter env task (setHost hs a) (host a)) as (H1 & H2 & H3 & H4);
        [eapply grow_takeTimer, E|done|].
      by apply ls_quiet.
  - destruct (Host.takeFrame id (host a)) as [[task hs]|] eqn:E;
      [|apply ls_quiet; try done; apply grow_refl].
    destruct (takeFrame_elem _ _ _ _ E) as (x & Hx & _ & Ht & _).
    pose proof (NF x Hx) as L. rewrite Ht in L.
    destruct (runTask_letter env task (setHost hs a) (host a)) as (H1 & H2 & H3 & H4);
      [eapply grow_takeFrame, E|done|].
    by apply ls_quiet.
Qed.

Lemma filter_filter_comm {A} (f : A -> bool) (P : A -> Prop) `{!forall x, Decision (P x)} l :
  List.filter f (filter P l) = filter P (List.filter f l).
Proof.
  induction l as [|x l IH]; [done|]. rewrite filter_cons. simpl.
  destruct (decide (P x)), (f x) eqn:E; simpl; rewrite ?filter_cons, ?E.
  - destruct (decide (P x)); [|done]. by rewrite IH.
  - done.
  - destruct (decide (P x)); [done|]. done.
  - done.
Qed.

Lemma chainOf_clear tw id h :
  chainOf tw (Host.clearTimer id h) = filter (fun x => Host.timer_id x <> id) (chainOf tw h).
Proof. unfold chainOf. simpl. apply filter_filter_comm. Qed.

Lemma chainOf_setTimeout tw task d h :
  chainOf tw (snd (Host.setTimeout task d h)) =
  chainOf tw h ++
    (if live tw task then [Host.Build_Timer (Host.nextTimer h) Host.Timeout d task] else []).
Proof. unfold chainOf. simpl. rewrite List.filter_app. simpl. by destruct (live tw task). Qed.

Lemma filter_weaker {A} (f g : A -> bool) l :
  (forall x, x ∈ l -> f x = true -> g x = true) ->
  List.filter f l `sublist_of` List.filter g l.
Proof.
  induction l as [|x l IH]; intros H; simpl; [done|].
  assert (List.filter f l `sublist_of` List.filter g l) as S.
  { apply IH. intros y Hy. apply H. by right. }
  destruct (f x) eqn:E.
  - rewrite (H x); [by constructor|by left|done].
  - destruct (g x); [by constructor|done].
Qed.

Lemma filter_same {A} (f g : A -> bool) l :
  (forall x, x ∈ l -> f x = g x) -> List.filter f l = List.filter g l.
Proof.
  induction l as [|x l IH]; intros H; simpl; [done|].
  rewrite (H x) by (by left). rewrite IH; [done|]. intros y Hy. apply H. by right.
Qed.

Lemma live_signal tw t :
  live tw t = true ->
  isLetter t = true /\
  forall c, taskSignal t = Some c -> Typewriter.isAborted tw c = false.
Proof.
  destruct t; simpl; try discriminate; unfold revealing; simpl; intros H; (split; [done|]);
    intros c [= <-]; try done; by apply negb_true_iff in H.
Qed.

Lemma elem_chainOf tw h t :
  t ∈ chainOf tw h <-> t ∈ Host.timers h /\ live tw (Host.timer_task t) = true.
Proof. unfold chainOf. rewrite !list_elem_of_In. apply filter_In. Qed.

Lemma length_le_1 {A} (l : list A) x : (length l <= 1)%nat -> x ∈ l -> l = [x].
Proof.
  destruct l as [|y [|z l]]; simpl; intros H Hx.
  - by apply elem_of_nil in Hx.
  - by apply list_elem_of_singleton in Hx as ->.
  - lia.
Qed.

(** A pending link of the chain is the only one; once the host has taken it
    out, none is left. *)
Lemma fired_live a id task h1 :
  letterInv a ->
  Host.takeTimer id (host a) = Some (task, h1) ->
  live (typewriter a) task = true ->
  h1 = Host.clearTimer id (host a) /\
  chainOf (typewriter a) h1 = [] /\
  Envelope.envelopeOpened (envelope a) = true /\
  replayBtn_hidden a = true /\
  (forall c, taskSignal task = Some c ->
     Typewriter.typewriterAbortController (typewriter a) = Some c /\
     (c < length (Typewriter.aborted (typewriter a)))%nat).
Proof.
  intros (A & B & C & D & K & F & G & Hc & I) T L.
  destruct (takeTimer_elem _ _ _ _ T) as (x & Hx & Hid & Ht & Hh1).
  destruct (live_signal _ _ L) as [Hl Hs].
  rewrite (K x Hx) in Hh1 by (by rewrite Ht).
  assert (x ∈ chain a) as Hxc by (apply elem_chainOf; by rewrite Ht).
  pose proof (length_le_1 _ _ A Hxc) as Hch.
  split; [done|]. split; [|split; [|split]].
  - rewrite Hh1, chainOf_clear. fold (chain a). rewrite Hch.
    rewrite filter_cons. destruct (decide _) as [N|_]; [by destruct N|done].
  - destruct (Envelope.envelopeOpened (envelope a)); [done|]. by rewrite B in Hch.
  - destruct (replayBtn_hidden a); [done|]. by rewrite C in Hch.
  - intros c Hc'. rewrite <- Ht in Hc'. split; [by eapply I|by eapply G].
Qed.

(** A letter callback that is not live belongs to an aborted reveal and
    does nothing. *)
Lemma fired_dead env tw task f h :
  typewriterTask env task = Some f -> live tw task = false -> f tw h = (tw, h, None).
Proof.
  destruct task; try discriminate; intros [= <-]; simpl; unfold revealing; simpl;
    intros H; apply negb_false_iff in H.
  - unfold Typewriter.typeNextLine. by rewrite H.
  - unfold Typewriter.typeNext. by rewrite H.
Qed.

Lemma isAborted_ext tw tw' ext c :
  Typewriter.aborted tw' = Typewriter.aborted tw ++ ext ->
  (c < length (Typewriter.aborted tw))%nat ->
  Typewriter.isAborted tw' c = Typewriter.isAborted tw c.
Proof. intros E L. unfold Typewriter.isAborted. by rewrite E, lookup_app_l. Qed.

(** What [typeNextLine] does for a reveal that is not aborted. *)
Lemma typeNextLine_spec r i tw h :
  Typewriter.isAborted tw (signal r) = false ->
  let res := Typewriter.typeNextLine r i tw h in
  Typewriter.aborted res.1.1 = Typewriter.aborted tw /\
  Typewriter.typewriterAbortController res.1.1 = Typewriter.typewriterAbortController tw /\
  Host.frames res.1.2 = Host.frames h /\
  ((Host.timers res.1.2 = Host.timers h /\ Typewriter.lines res.1.1 = Typewriter.lines tw) \/
   exists t, Host.timers res.1.2 = Host.timers h ++ [t] /\
     Host.timer_kind t = Host.Timeout /\ taskSignal (Host.timer_task t) = Some (signal r)).
Proof.
  intros Ha. unfold Typewriter.typeNextLine. rewrite Ha.
  destruct (lineData r !! i) as [data|]; [|by auto 10].
  destruct (isInstant data); simpl; repeat split; right; eexists; eauto.
Qed.

Lemma typeNext_spec env ty b i tw h :
  Typewriter.isAborted tw (signal (typer_run ty)) = false ->
  let res := Typewriter.typeNext env ty b i tw h in
  Typewriter.aborted res.1 = Typewriter.aborted tw /\
  Typewriter.typewriterAbortController res.1 = Typewriter.typewriterAbortController tw /\
  Host.frames res.2 = Host.frames h /\
  exists t, Host.timers res.2 = Host.timers h ++ [t] /\
    Host.timer_kind t = Host.Timeout /\
    taskSignal (Host.timer_task t) = Some (signal (typer_run ty)).
Proof.
  intros Ha. unfold Typewriter.typeNext. rewrite Ha.
  destruct (Typewriter.typeTags _ _ _); simpl; repeat split; eexists; eauto.
Qed.

Lemma startTypewriter_spec cb tw h :
  let res := Typewriter.startTypewriter cb tw h in
  let c := length (Typewriter.aborted tw) in
  Typewriter.aborted res.1.1 = Typewriter.aborted tw ++ [false] /\
  Typewriter.typewriterAbortController res.1.1 = Some c /\
  Host.frames res.1.2 = Host.frames h /\
  (Host.timers res.1.2 = Host.timers h \/
   exists t, Host.timers res.1.2 = Host.timers h ++ [t] /\
     Host.timer_kind t = Host.Timeout /\ taskSignal (Host.timer_task t) = Some c).
Proof.
  unfold Typewriter.startTypewriter. cbv zeta.
  set (tw1 := {| Typewriter.typewriterAbortController := _ |}).
  set (r := {| signal := _ |}).
  assert (Typewriter.isAborted tw1 (signal r) = false) as Ha.
  { unfold Typewriter.isAborted. simpl. rewrite lookup_app_r by lia.
    by rewrite Nat.sub_diag. }
  destruct (typeNextLine_spec r 0 tw1 h Ha) as (E1 & E2 & E3 & E4).
  rewrite E1, E2, E3. repeat split; try done.
  destruct E4 as [[E4 _]|(t & E4 & K & S)]; [by left|right]. by exists t.
Qed.

Lemma live_type_spec env task f tw h :
  typewriterTask env task = Some f ->
  live tw task = true ->
  (forall c, taskSignal task = Some c ->
     Typewriter.typewriterAbortController tw = Some c /\
     (c < length (Typewriter.aborted tw))%nat) ->
  (forall c, Typewriter.typewriterAbortController tw = Some c ->
     (c < length (Typewriter.aborted tw))%nat) ->
  let tw' := (f tw h).1.1 in
  let h' := (f tw h).1.2 in
  (exists ext, Typewriter.aborted tw' = Typewriter.aborted tw ++ ext) /\
  (forall c, Typewriter.typewriterAbortController tw' = Some c ->
     (c < length (Typewriter.aborted tw'))%nat) /\
  Host.frames h' = Host.frames h /\
  (Host.timers h' = Host.timers h \/
   exists t c, Host.timers h' = Host.timers h ++ [t] /\
     Host.timer_kind t = Host.Timeout /\
     taskSignal (Host.timer_task t) = Some c /\
     Typewriter.isAborted tw' c = false /\
     Typewriter.typewriterAbortController tw' = Some c).
Proof.
  intros Hf L Hs Hc.
  destruct task; try discriminate; injection Hf as <-; cbv zeta.
  - (* BeginTypewriter *)
    destruct (startTypewriter_spec (Some ShowReplayButton) tw h) as (E1 & E2 & E3 & E4).
    split; [by eexists|]. split; [|split; [done|]].
    + intros c. rewrite E1, E2, length_app. intros [= <-]. simpl. lia.
    + destruct E4 as [E4|(t & E4 & K & S)]; [by left|right].
      exists t, (length (Typewriter.aborted tw)). repeat split; try done.
      unfold Typewriter.isAborted. rewrite E1, lookup_app_r by lia.
      by rewrite Nat.sub_diag.
  - (* TypeNextLine *)
    destruct (live_signal _ _ L) as [_ Ha]. specialize (Ha _ eq_refl).
    destruct (Hs _ eq_refl) as [Hctrl Hlt].
    destruct (typeNextLine_spec run0 currentLineIdx tw h Ha) as (E1 & E2 & E3 & E4).
    split; [exists []; by rewrite app_nil_r|]. split; [|split; [done|]].
    + rewrite E1, E2. apply Hc.
    + destruct E4 as [[E4 _]|(t & E4 & K & S)]; [by left|right].
      exists t, (signal run0). repeat split; try done; [|congruence].
      unfold Typewriter.isAborted in *. by rewrite E1.
  - (* TypeNext *)
    destruct (live_signal _ _ L) as [_ Ha]. specialize (Ha _ eq_refl).
    destruct (Hs _ eq_refl) as [Hctrl Hlt]. simpl.
    destruct (typeNext_spec env typer built segIdx tw h Ha) as (E1 & E2 & E3 & (t & E4 & K & S)).
    split; [exists []; by rewrite app_nil_r|]. split; [|split; [done|]].
    + rewrite E1, E2. apply Hc.
    + right. exists t, (signal (typer_run typer)). repeat split; try done; [|congruence].
      unfold Typewriter.isAborted in *. by rewrite E1.
Qed.

(** The parts of the invariant that speak of single callbacks survive when
    callbacks that are not of the letter are added. *)
Lemma letter_members a h' tw' :
  letterInv a ->
  hostGrows notLetter (host a) h' ->
  length (Typewriter.aborted tw') = length (Typewriter.aborted (typewriter a)) ->
  (forall t, t ∈ Host.timers h' -> isLetter (Host.timer_task t) = true ->
     Host.timer_kind t = Host.Timeout) /\
  (forall f, f ∈ Host.frames h' -> isLetter (Host.frame_task f) = false) /\
  (forall t c, t ∈ Host.timers h' -> taskSignal (Host.timer_task t) = Some c ->
     (c < length (Typewriter.aborted tw'))%nat).
Proof.
  intros (_ & _ & _ & _ & K & F & G & _) Hg Hl. split; [|split].
  - intros t Ht L. destruct (grow_timer_elem _ _ _ _ Hg Ht) as [H|H]; [by apply K|].
    unfold notLetter in H. congruence.
  - intros f Hf. destruct (grow_frame_elem _ _ _ _ Hg Hf) as [H|H]; [by apply F|done].
  - intros t c Ht S. rewrite Hl.
    destruct (grow_timer_elem _ _ _ _ Hg Ht) as [H|H]; [by eapply G|].
    unfold notLetter in H. destruct (Host.timer_task t); done.
Qed.

Lemma sublist_nil' {A} (l : list A) : l `sublist_of` [] -> l = [].
Proof. apply sublist_nil_r. Qed.

Lemma letterInv_quiet a a' :
  typewriter a' = typewriter a -> envelope a' = envelope a ->
  replayBtn_hidden a' = replayBtn_hidden a ->
  hostGrows notLetter (host a) (host a') ->
  letterInv a -> letterInv a'.
Proof.
  intros Htw He Hh Hg I.
  destruct (letter_members a (host a') (typewriter a') I Hg) as (K' & F' & G');
    [by rewrite Htw|].
  destruct I as (A & B & C & D & K & F & G & Hc & I).
  assert (chain a' `sublist_of` chain a) as S.
  { unfold chain. rewrite Htw. by apply chainOf_grows. }
  unfold letterInv. rewrite He, Hh, Htw in *.
  split; [etransitivity; [apply sublist_length, S|done]|].
  split; [intros E; apply sublist_nil'; by rewrite <- (B E)|].
  split; [intros E; apply sublist_nil'; by rewrite <- (C E)|].
  split; [done|]. split; [done|]. split; [done|]. split; [done|]. split; [done|].
  intros t c Ht. apply I. eapply elem_of_sublist; eauto.
Qed.

Lemma chainOf_same_on tw tw' h :
  (forall t c, t ∈ Host.timers h -> taskSignal (Host.timer_task t) = Some c ->
     Typewriter.isAborted tw' c = Typewriter.isAborted tw c) ->
  chainOf tw' h = chainOf tw h.
Proof.
  intros H. unfold chainOf. apply filter_same. intros t Ht.
  destruct (Host.timer_task t) eqn:E; simpl; try done; unfold revealing; simpl.
  - erewrite H; [done|exact Ht|by rewrite E].
  - erewrite H; [done|exact Ht|by rewrite E].
Qed.

(** A callback that hands the host a successor does not call [onComplete]. *)
Lemma successor_no_callback env task f tw h t :
  typewriterTask env task = Some f ->
  Host.timers (f tw h).1.2 = Host.timers h ++ [t] ->
  (f tw h).2 = None.
Proof.
  assert (forall l : list Host.Timer, l = l ++ [t] -> False) as Hno.
  { intros l E. apply (f_equal length) in E. rewrite length_app in E. simpl in E. lia. }
  destruct task; try discriminate; intros [= <-]; simpl; [| |done].
  - unfold Typewriter.startTypewriter, Typewriter.typeNextLine. cbv zeta.
    destruct (Typewriter.isAborted _ _); simpl; [by intros E%Hno|].
    destruct (_ !! 0%nat) as [data|]; simpl; [|by intros E%Hno].
    by destruct (isInstant data).
  - unfold Typewriter.typeNextLine.
    destruct (Typewriter.isAborted _ _); simpl; [by intros E%Hno|].
    destruct (_ !! _) as [data|]; simpl; [|by intros E%Hno].
    by destruct (isInstant data).
Qed.

Lemma letterInv_step a a' ev :
  letterStep a a' ev ->
  (isReplay ev = true -> replayBtn_hidden a = false) ->
  letterInv a -> letterInv a'.
Proof.
  intros St Gate I.
  destruct St as [ev _ Htw He Hh Hg|ev v _ Ho He Htw Hh Hhost|id h1 h2 T Hg Hhost He Htw Hh
                 |env id task h1 f T Hf Htw Hhost Hh He|Htw He Hh Hg].
  - (* quiet *) by eapply letterInv_quiet.
  - (* the envelope is opened *)
    pose proof I as (A & B & C & D & K & F & G & Hc & II).
    unfold Envelope.openEnvelope in Ho.
    destruct (Envelope.envelopeOpened (envelope a)) eqn:E; [done|]. injection Ho as <-.
    assert (chain a' = [Host.Build_Timer (Host.nextTimer (host a)) Host.Timeout 900 EnvelopeReveal])
      as Hch.
    { unfold chain. rewrite Htw, Hhost, chainOf_setTimeout. fold (chain a).
      by rewrite (B eq_refl). }
    destruct (letter_members a (host a) (typewriter a') I (grow_refl _ _)) as (K' & F' & G');
      [by rewrite Htw|].
    unfold letterInv. rewrite Hch, He, Hh, Hhost. simpl.
    split; [done|]. split; [done|]. split; [by rewrite (D eq_refl)|]. split; [done|].
    split; [|split; [done|split; [|split]]].
    + intros t Ht L. apply elem_of_app in Ht as [Ht|Ht]; [by apply K|].
      by apply list_elem_of_singleton in Ht as ->.
    + intros t c Ht S. apply elem_of_app in Ht as [Ht|Ht]; [by eapply G'|].
      by apply list_elem_of_singleton in Ht as ->.
    + by rewrite Htw.
    + intros t c Ht S. by apply list_elem_of_singleton in Ht as ->.
  - (* the envelope is revealed *)
    destruct (fired_live a id EnvelopeReveal h1 I T eq_refl) as (Hh1 & Hc1 & E & H & _).
    assert (hostGrows notLetter (host a) h2) as Hg2.
    { eapply grow_trans; [|exact Hg]. rewrite Hh1. apply grow_clearTimer. }
    destruct (letter_members a h2 (typewriter a') I Hg2) as (K' & F' & G');
      [by rewrite Htw|].
    pose proof I as (A & B & C & D & K & F & G & Hc & II).
    assert (chainOf (typewriter a) h2 = []) as Hc2.
    { apply sublist_nil'. rewrite <- Hc1. by apply chainOf_grows. }
    assert (chain a' = [Host.Build_Timer (Host.nextTimer h2) Host.Timeout 600 BeginTypewriter])
      as Hch.
    { unfold chain. by rewrite Htw, Hhost, chainOf_setTimeout, Hc2. }
    unfold letterInv. rewrite Hch, He, Hh, Hhost. simpl.
    split; [done|]. split; [by rewrite E|]. split; [by rewrite H|]. split; [by rewrite E|].
    split; [|split; [done|split; [|split]]].
    + intros t Ht L. apply elem_of_app in Ht as [Ht|Ht]; [by apply K'|].
      by apply list_elem_of_singleton in Ht as ->.
    + intros t c Ht S. apply elem_of_app in Ht as [Ht|Ht]; [by eapply G'|].
      by apply list_elem_of_singleton in Ht as ->.
    + by rewrite Htw.
    + intros t c Ht S. by apply list_elem_of_singleton in Ht as ->.
  - (* a callback of the typewriter *)
    destruct (live (typewriter a) task) eqn:L.
    + destruct (fired_live a id task h1 I T L) as (Hh1 & Hc1 & E & H & Hs).
      pose proof I as (A & B & C & D & K & F & G & Hc & II).
      destruct (live_type_spec env task f (typewriter a) h1 Hf L Hs Hc)
        as ((ext & Ea) & Hc' & Ef & Et).
      rewrite <- Htw, <- Hhost in *.
      assert (hostGrows notLetter (host a) h1) as Hg1 by (rewrite Hh1; apply grow_clearTimer).
      destruct (letter_members a h1 (typewriter a) I Hg1) as (K1 & F1 & G1); [done|].
      assert (chainOf (typewriter a') h1 = []) as Hc2.
      { rewrite <- Hc1. apply chainOf_same_on. intros t c Ht S.
        eapply isAborted_ext; [exact Ea|]. by eapply G1. }
      assert (length (Typewriter.aborted (typewriter a)) <=
              length (Typewriter.aborted (typewriter a')))%nat as Hlen.
      { rewrite Ea, length_app. lia. }
      unfold letterInv. rewrite He, E. unfold chain, chainOf. rewrite Ef.
      destruct Et as [Et|(t & c & Et & Kt & St & At & Ct)]; rewrite Et.
      * fold (chainOf (typewriter a') h1). rewrite Hc2. simpl.
        split; [lia|]. split; [done|]. split; [done|]. split; [done|].
        split; [done|]. split; [done|]. split; [|split; [done|]].
        -- intros t c Ht S. specialize (G1 t c Ht S). lia.
        -- intros t c Ht. by apply elem_of_nil in Ht.
      * rewrite List.filter_app. fold (chainOf (typewriter a') h1). rewrite Hc2. simpl.
        assert (live (typewriter a') (Host.timer_task t) = true) as Lt.
        { destruct (Host.timer_task t); try discriminate; simpl; unfold revealing;
            rewrite St; by rewrite At. }
        rewrite Lt. simpl.
        assert (afterCallback (f (typewriter a) h1).2 (replayBtn_hidden a) = true) as Hh'.
        { rewrite Hhost in Et. by rewrite (successor_no_callback env task f _ _ t Hf Et). }
        rewrite Hh, Hh'.
        split; [lia|]. split; [done|]. split; [done|]. split; [done|].
        split; [|split; [done|split; [|split; [done|]]]].
        -- intros t' Ht' L'. apply elem_of_app in Ht' as [Ht'|Ht']; [by apply K1|].
           by apply list_elem_of_singleton in Ht' as ->.
        -- intros t' c' Ht' S'. apply elem_of_app in Ht' as [Ht'|Ht'].
           ++ specialize (G1 t' c' Ht' S'). lia.
           ++ apply list_elem_of_singleton in Ht' as ->. apply Hc'. congruence.
        -- intros t' c' Ht' S'. apply list_elem_of_singleton in Ht' as ->. congruence.
    + (* of an aborted reveal *)
      rewrite (fired_dead env _ task f h1 Hf L) in Htw, Hhost, Hh. simpl in *.
      eapply letterInv_quiet; try done. rewrite Hhost. by eapply grow_takeTimer.
  - (* replay *)
    specialize (Gate eq_refl).
    pose proof I as (A & B & C & D & K & F & G & Hc & II).
    assert (length (Typewriter.aborted (typewriter a')) =
            length (Typewriter.aborted (typewriter a))) as Hlen.
    { rewrite Htw. unfold Typewriter.resetTypewriter, Typewriter.abort.
      destruct (Typewriter.typewriterAbortController _); simpl; [|done].
      by rewrite length_insert. }
    destruct (letter_members a (host a') (typewriter a') I Hg Hlen) as (K' & F' & G').
    assert (chain a' = []) as Hch.
    { apply sublist_nil'. rewrite <- (C Gate). unfold chain.
      etransitivity; [apply chainOf_grows, Hg|].
      unfold chainOf. apply filter_weaker. intros t Ht.
      assert (forall c, Typewriter.isAborted (typewriter a) c = true ->
                Typewriter.isAborted (typewriter a') c = true) as Hmore.
      { intros c. rewrite Htw. unfold Typewriter.resetTypewriter, Typewriter.abort,
          Typewriter.isAborted.
        destruct (Typewriter.typewriterAbortController _) as [c0|]; simpl; [|done].
        destruct (decide (c0 = c)) as [->|Hne].
        - destruct (Typewriter.aborted (typewriter a) !! c) eqn:Hl; simpl; [|done].
          intros _. rewrite list_lookup_insert_eq; [done|]. by eapply lookup_lt_Some.
        - by rewrite list_lookup_insert_ne. }
      destruct (Host.timer_task t); simpl; try done; unfold revealing; simpl;
        rewrite !negb_true_iff; intros Hf;
        destruct (Typewriter.isAborted (typewriter a) _) eqn:Ha; try done;
        by rewrite (Hmore _ Ha) in Hf. }
    unfold letterInv. rewrite Hch, He, Hh. simpl.
    split; [lia|]. split; [done|]. split; [intros [=]|]. split; [done|].
    split; [exact K'|]. split; [exact F'|]. split; [exact G'|]. split.
    + intros c. rewrite Htw. unfold Typewriter.resetTypewriter, Typewriter.abort.
      destruct (Typewriter.typewriterAbortController _) eqn:E; simpl; [done|].
      by rewrite E.
    + intros t c Ht. by apply elem_of_nil in Ht.
Qed.

Lemma letterInv_initial m env0 : letterInv (initialApp m env0).
Proof.
  unfold letterInv, chain, chainOf. simpl.
  repeat split; try done; try lia; intros;
    match goal with H : _ ∈ [] |- _ => by apply elem_of_nil in H end.
Qed.

Lemma letterInv_run evs a : gated evs a -> letterInv a -> letterInv (run evs a).
Proof.
  revert a. induction evs as [|[env ev] evs IH]; intros a G I; simpl; [done|].
  destruct G as [G1 G2]. apply IH; [done|].
  eapply letterInv_step; [|exact G1|exact I].
  apply dispatch_letter. by destruct I as (_ & _ & _ & _ & _ & F & _).
Qed.

Lemma revealing_live tw t : revealing tw t = true -> live tw t = true.
Proof. by destruct t. Qed.

Lemma inFlight_chain a :
  inFlight a = List.filter (fun t => revealing (typewriter a) (Host.timer_task t)) (chain a).
Proof.
  unfold inFlight, chain, chainOf. induction (Host.timers (host a)) as [|t l IH]; [done|].
  simpl. destruct (revealing _ _) eqn:R.
  - rewrite (revealing_live _ _ R). simpl. by rewrite R, IH.
  - destruct (live _ _); simpl; by rewrite ?R, IH.
Qed.

(** C5 (as the code has it). In a run in which replay is clicked only
    while its button is shown, at most one reveal is in flight, and none
    while a start of the typewriter is pending; [startTypewriter] itself
    aborts nothing: it allocates a controller and leaves the flags of the
    earlier ones as they are. *)
Theorem one_reveal_while_replay_is_gated (m : Markup) (env0 : Env)
    (evs : list (Env * Event)) :
  gated evs (initialApp m env0) ->
  let a := run evs (initialApp m env0) in
  (length (inFlight a) <= 1)%nat /\
  (forall t, t ∈ Host.timers (host a) -> Host.timer_task t = BeginTypewriter ->
     inFlight a = []) /\
  (forall cb s hs,
     Typewriter.aborted (fst (fst (Typewriter.startTypewriter cb s hs))) =
     Typewriter.aborted s ++ [false]).
Proof.
  intros G a. pose proof (letterInv_run evs _ G (letterInv_initial m env0)) as I.
  fold a in I. destruct I as (A & _). split; [|split].
  - rewrite inFlight_chain. etransitivity; [apply filter_length_le'|done].
  - intros t Ht Hb.
    assert (t ∈ chain a) as Hc by (apply elem_chainOf; by rewrite Hb).
    rewrite inFlight_chain, (length_le_1 _ _ A Hc). simpl.
    by rewrite Hb.
  - intros cb s hs. by destruct (startTypewriter_spec cb s hs) as (E & _).
Qed.





(** In a run in which replay is clicked only while its button is shown, the
    page is [controlled] whenever no start of a reveal is pending. *)
Lemma gated_run_controlled m env0 evs :
  gated evs (initialApp m env0) ->
  let a := run evs (initialApp m env0) in
  (forall t, t ∈ Host.timers (host a) ->
     Host.timer_task t <> EnvelopeReveal /\ Host.timer_task t <> BeginTypewriter) ->
  controlled a = true.
Proof.
  intros G a Hn. pose proof (letterInv_run evs _ G (letterInv_initial m env0)) as I.
  fold a in I. destruct I as (_ & _ & _ & _ & _ & F & Gs & Hc & I).
  unfold controlled. rewrite !andb_true_iff, !forallb_forall. repeat split.
  - destruct (Typewriter.typewriterAbortController (typewriter a)) as [c|] eqn:E; [|done].
    apply Nat.ltb_lt. by apply Hc.
  - intros t Hin. apply list_elem_of_In in Hin. destruct (Hn t Hin) as [N1 N2].
    unfold governed. destruct (Host.timer_task t) eqn:Et; try done;
      simpl; apply orb_true_iff;
      match goal with
      | |- Typewriter.isAborted ?tw ?c = true \/ _ =>
          destruct (Typewriter.isAborted tw c) eqn:Ab; [by left|right]
      end;
      apply bool_decide_eq_true; eapply (I t); try (by rewrite Et);
      apply elem_chainOf; (split; [done|]); rewrite Et; simpl; unfold revealing; simpl;
      by rewrite Ab.
  - intros f Hin. apply list_elem_of_In in Hin. apply negb_true_iff. by apply F.
Qed.




Lemma one_reveal_while_replay_is_gated_witness :
  let evs := Sample.fullReveal ++ [(Sample.env 0, ReplayClick); (Sample.env 0, EnvelopeClick)] ++
             Sample.fires [16; 19; 20]%positive in
  gated evs Sample.app /\
  signalsInFlight (run evs Sample.app) = [Some 1%nat] /\
  (length (inFlight (run evs Sample.app)) <= 1)%nat.
Proof.
  intros evs.
  assert (gated evs Sample.app) as G.
  { vm_compute. repeat split; intros; first [reflexivity | discriminate]. }
  refine (conj G (conj _ _)).
  - vm_compute. reflexivity.
  - exact (proj1 (one_reveal_while_replay_is_gated Sample.markup (Sample.env 0) evs G)).
Defined.

(** C5, the claim as stated fails. [startTypewriter] invoked while a
    reveal is running (here in the middle of the first line) leaves that
    reveal running beside its own. And a run reaches such an invocation:
    when the replay handler runs while a click on the envelope is still
    waiting for its delay and the envelope is clicked again, both clicks
    start the typewriter, and two reveals are in flight. *)
Lemma second_start_leaves_first_running :
  (let a := run Sample.midReveal Sample.app in
   let r := Typewriter.startTypewriter (Some ShowReplayButton) (typewriter a) (host a) in
   signalsInFlight a = [Some 0%nat] /\
   Typewriter.isAborted (fst (fst r)) 0 = false /\
   signalsInFlight (setHost (snd (fst r)) (setTypewriter (fst (fst r)) a)) =
     [Some 0%nat; Some 1%nat]) /\
  (let a := run Sample.doubleStart Sample.app in
   let a' := dispatch (Sample.env 0) (TimerFires 8) a in
   reachable a /\ reachable a' /\
   fst <$> Host.takeTimer 8 (host a) = Some BeginTypewriter /\
   signalsInFlight a = [Some 0%nat] /\
   signalsInFlight a' = [Some 0%nat; Some 1%nat] /\
   Typewriter.aborted (typewriter a') = [false; false] /\
   ~ (length (inFlight a') <= 1)%nat).
Proof.
  split.
  - cbv zeta. refine (conj _ (conj _ _)); vm_compute; reflexivity.
  - intros a a'. refine (conj _ (conj _ (conj _ (conj _ (conj _ (conj _ _)))))).
    + apply reachable_run.
    + exists Sample.markup, (Sample.env 0),
        (Sample.doubleStart ++ [(Sample.env 0, TimerFires 8)]).
      vm_compute. reflexivity.
    + vm_compute. reflexivity.
    + vm_compute. reflexivity.
    + vm_compute. reflexivity.
    + vm_compute. reflexivity.
    + vm_compute. lia.
Qed.


(** ** Replay *)

Lemma swap_Permutation {A} (arr : list A) i j : Captcha.swap arr i j ≡ₚ arr.
Proof.
  unfold Captcha.swap. destruct (arr !! i) as [ai|] eqn:Ei; [|done].
  destruct (arr !! j) as [aj|] eqn:Ej; [|done].
  apply Permutation_inj. split; [by rewrite !length_insert|].
  exists (fun k => if decide (k = i) then j else if decide (k = j) then i else k). split.
  - intros x y. repeat case_decide; congruence.
  - intros k. assert (i < length arr)%nat by (by eapply lookup_lt_Some).
    assert (j < length arr)%nat by (by eapply lookup_lt_Some).
    destruct (decide (k = j)) as [->|Hj].
    + rewrite list_lookup_insert_eq by (by rewrite length_insert).
      case_decide; [by subst|done].
    + rewrite list_lookup_insert_ne by done.
      destruct (decide (k = i)) as [->|Hi].
      * by rewrite list_lookup_insert_eq.
      * by rewrite list_lookup_insert_ne.
Qed.

Lemma shuffleLoop_Permutation {A} rnd k i (arr : list A) :
  Captcha.shuffleLoop rnd k i arr ≡ₚ arr.
Proof.
  revert k arr. induction i as [|i IH]; intros k arr; simpl; [done|].
  rewrite IH. apply swap_Permutation.
Qed.

Lemma shuffleLoop_ext {A} rnd rnd' k i (arr : list A) :
  (forall n, rnd' n = rnd n) ->
  Captcha.shuffleLoop rnd' k i arr = Captcha.shuffleLoop rnd k i arr.
Proof.
  intros E. revert k arr. induction i as [|i IH]; intros k arr; simpl; [done|].
  by rewrite E, IH.
Qed.

Lemma layout_init rnd s :
  Captcha.img_src <$> Captcha.grid (Captcha.initCaptchaGrid rnd s) =
  Captcha.src <$> Captcha.shuffleArray rnd Captcha.CAPTCHA_IMAGES.
Proof.
  unfold Captcha.initCaptchaGrid. cbn [Captcha.grid].
  generalize (Captcha.shuffleArray rnd Captcha.CAPTCHA_IMAGES). intros l.
  apply list_eq. intros i. rewrite !list_lookup_fmap, list_lookup_imap.
  by destruct (l !! i).
Qed.

Lemma restoreLines_lookup origs ls i :
  Typewriter.restoreLines origs ls !! i =
  if decide (i < length ls)%nat then
    match List.find (fun o => Nat.eqb (el o) i) (rev origs) with
    | Some o => Some {| Typewriter.innerHTML := originalHTML o;
                        Typewriter.cursor := false; Typewriter.active := false |}
    | None => ls !! i
    end
  else None.
Proof.
  unfold Typewriter.restoreLines. revert ls.
  induction origs as [|o origs IH]; intros ls; simpl.
  - case_decide; [done|]. apply lookup_ge_None. lia.
  - rewrite IH, length_insert. case_decide as Hi; [|done].
    assert (forall l1 (o' : Original),
              List.find (fun o => Nat.eqb (el o) i) (l1 ++ [o']) =
              match List.find (fun o => Nat.eqb (el o) i) l1 with
              | Some x => Some x
              | None => if Nat.eqb (el o') i then Some o' else None
              end) as F.
    { induction l1 as [|x l1 IH1]; intros o'; simpl; [done|].
      destruct (Nat.eqb (el x) i); [done|apply IH1]. }
    rewrite F. destruct (List.find _ (rev origs)); [done|].
    destruct (Nat.eqb (el o) i) eqn:E.
    + apply Nat.eqb_eq in E. subst. by rewrite list_lookup_insert_eq.
    + apply Nat.eqb_neq in E. by rewrite list_lookup_insert_ne.
Qed.

Lemma restoreLines_length origs ls : length (Typewriter.restoreLines origs ls) = length ls.
Proof.
  unfold Typewriter.restoreLines. revert ls.
  induction origs as [|o origs IH]; intros ls; simpl; [done|].
  by rewrite IH, length_insert.
Qed.

Lemma restoreLines_idem origs ls :
  Typewriter.restoreLines origs (Typewriter.restoreLines origs ls) =
  Typewriter.restoreLines origs ls.
Proof.
  apply list_eq. intros i. rewrite (restoreLines_lookup origs (Typewriter.restoreLines _ _)).
  rewrite restoreLines_length. rewrite (restoreLines_lookup origs ls).
  case_decide; [|done]. destruct (List.find _ _); [done|]. try case_decide; done.
Qed.

Lemma resetTypewriter_idem s :
  Typewriter.resetTypewriter (Typewriter.resetTypewriter s) = Typewriter.resetTypewriter s.
Proof.
  destruct s as [[c|] flags origs ls]; unfold Typewriter.resetTypewriter, Typewriter.abort;
    cbn -[Typewriter.restoreLines]; by rewrite restoreLines_idem.
Qed.

Lemma firstOnly_idem l : Gallery.firstOnly (Gallery.firstOnly l) = Gallery.firstOnly l.
Proof.
  unfold Gallery.firstOnly. apply list_eq. intros i. rewrite !list_lookup_imap.
  by destruct (l !! i).
Qed.

Lemma clear_stopFloatingHearts s h :
  Hearts.clear (fst (Hearts.stopFloatingHearts s h)) =
  {| Hearts.heartInterval := None; Hearts.hearts := [];
     Hearts.created := Hearts.created s |}.
Proof.
  unfold Hearts.clear, Hearts.stopFloatingHearts.
  destruct (Hearts.heartInterval s) eqn:E; cbn; by rewrite ?E.
Qed.

Lemma resetGallery_state s h :
  fst (Gallery.resetGallery s h) =
  {| Gallery.leftSlideIdx := 0; Gallery.rightSlideIdx := 0;
     Gallery.leftAutoPlayId := None; Gallery.rightAutoPlayId := None;
     Gallery.row_hidden := true;
     Gallery.galleryLeftTrack := Gallery.firstOnly <$> Gallery.galleryLeftTrack s;
     Gallery.galleryRightTrack := Gallery.firstOnly <$> Gallery.galleryRightTrack s |}.
Proof.
  unfold Gallery.resetGallery, Gallery.stopSideGalleries, Gallery.update, Gallery.setHidden,
    Gallery.setIds.
  destruct (Gallery.leftAutoPlayId s) eqn:E1; destruct (Gallery.rightAutoPlayId s) eqn:E2;
    cbn; rewrite ?E1, ?E2; cbn; rewrite ?E1, ?E2; reflexivity.
Qed.

(** The replay handler, one component at a time. *)
Lemma replay_eq env a :
  replay env a =
  {| pages := {| currentPage := CAPTCHA; captcha_active := false;
                 proposal_active := false; congrats_active := false |};
     captcha := Captcha.initCaptchaGrid (random env) (Captcha.replayReset (captcha a));
     hearts := {| Hearts.heartInterval := None; Hearts.hearts := [];
                  Hearts.created := Hearts.created (hearts a) |};
     evasion := Evasion.replayReset (evasion a);
     envelope := Envelope.replayReset (envelope a);
     confetti := fst (Confetti.replayReset (confetti a) Host.empty);
     starfield := fst (Starfield.stopStarfield (starfield a) Host.empty);
     typewriter := Typewriter.resetTypewriter (typewriter a);
     gallery :=
       {| Gallery.leftSlideIdx := 0; Gallery.rightSlideIdx := 0;
          Gallery.leftAutoPlayId := None; Gallery.rightAutoPlayId := None;
          Gallery.row_hidden := true;
          Gallery.galleryLeftTrack :=
            Gallery.firstOnly <$> Gallery.galleryLeftTrack (gallery a);
          Gallery.galleryRightTrack :=
            Gallery.firstOnly <$> Gallery.galleryRightTrack (gallery a) |};
     replayBtn_hidden := true;
     host := host (replay env a) |}.
Proof.
  destruct a as [pg cp [hi hl hc] ev en [cps [ci|] cw ch cpd] [ss [si|] sw sh sp sr] tw
                 [gli gri [gl|] [gr|] gh glt grt] rb hs];
    destruct hi; reflexivity.
Qed.
Lemma replay_host_settled env a :
  Gallery.leftAutoPlayId (gallery a) = None ->
  Gallery.rightAutoPlayId (gallery a) = None ->
  Starfield.starAnimId (starfield a) = None ->
  Confetti.confettiAnimationId (confetti a) = None ->
  Hearts.heartInterval (hearts a) = None ->
  host (replay env a) = snd (Host.requestAnimationFrame (ShowPageOuter CAPTCHA) (host a)).
Proof.
  destruct a as [pg cp [hi hl hc] ev en [cps ci cw ch cpd] [ss si sw sh sp sr] tw
                 [gli gri gl gr gh glt grt] rb hs].
  cbn [gallery starfield confetti hearts Gallery.leftAutoPlayId Gallery.rightAutoPlayId
       Starfield.starAnimId Confetti.confettiAnimationId Hearts.heartInterval].
  intros -> -> -> -> ->. reflexivity.
Qed.

Lemma besidesGrid_init rnd s :
  besidesGrid (Captcha.initCaptchaGrid rnd s) =
  (∅, Captcha.failureCount s, bool_decide (size (∅ : gset nat) = 0%nat),
   Captcha.captchaError_textContent s, Captcha.captchaError_visible s,
   Captcha.captchaHint_visible s, Captcha.container_transition s,
   Captcha.container_transform s, Captcha.container_opacity s, Captcha.container_shake s).
Proof.
  unfold besidesGrid, Captcha.initCaptchaGrid, Captcha.updateVerifyButton.
  cbn [Captcha.selectedCells Captcha.failureCount Captcha.verifyBtn_disabled
       Captcha.captchaError_textContent Captcha.captchaError_visible
       Captcha.captchaHint_visible Captcha.container_transition
       Captcha.container_transform Captcha.container_opacity Captcha.container_shake].
  reflexivity.
Qed.

Lemma besidesGrid_rebuilt rnd rnd' s :
  besidesGrid (Captcha.initCaptchaGrid rnd'
                 (Captcha.replayReset (Captcha.initCaptchaGrid rnd (Captcha.replayReset s)))) =
  besidesGrid (Captcha.initCaptchaGrid rnd (Captcha.replayReset s)).
Proof.
  rewrite !besidesGrid_init. reflexivity.
Qed.

Lemma evasion_replayReset_idem s :
  Evasion.replayReset (Evasion.replayReset s) = Evasion.replayReset s.
Proof. reflexivity. Qed.

Lemma confetti_replayReset_idem s h h' :
  fst (Confetti.replayReset (fst (Confetti.replayReset s h)) h') =
  fst (Confetti.replayReset s h).
Proof. reflexivity. Qed.

Lemma stopStarfield_idem s h h' :
  fst (Starfield.stopStarfield (fst (Starfield.stopStarfield s h)) h') =
  fst (Starfield.stopStarfield s h).
Proof. reflexivity. Qed.

Lemma replay_observable env a :
  observable (replay env a) =
  ({| currentPage := CAPTCHA; captcha_active := false; proposal_active := false;
      congrats_active := false |},
   besidesGrid (Captcha.initCaptchaGrid (random env) (Captcha.replayReset (captcha a))),
   Evasion.replayReset (evasion a),
   Envelope.replayReset (envelope a),
   Typewriter.resetTypewriter (typewriter a),
   fst (Confetti.replayReset (confetti a) Host.empty),
   {| Hearts.heartInterval := None; Hearts.hearts := [];
      Hearts.created := Hearts.created (hearts a) |},
   fst (Starfield.stopStarfield (starfield a) Host.empty),
   {| Gallery.leftSlideIdx := 0; Gallery.rightSlideIdx := 0;
      Gallery.leftAutoPlayId := None; Gallery.rightAutoPlayId := None;
      Gallery.row_hidden := true;
      Gallery.galleryLeftTrack := Gallery.firstOnly <$> Gallery.galleryLeftTrack (gallery a);
      Gallery.galleryRightTrack :=
        Gallery.firstOnly <$> Gallery.galleryRightTrack (gallery a) |},
   true).
Proof. unfold observable. rewrite replay_eq. reflexivity. Qed.

Lemma firstOnly_twice (t : option (list bool)) :
  Gallery.firstOnly <$> (Gallery.firstOnly <$> t) = Gallery.firstOnly <$> t.
Proof. destruct t as [l|]; [|done]. simpl. by rewrite firstOnly_idem. Qed.

Lemma replay_observable_twice env1 env2 a :
  observable (replay env2 (replay env1 a)) = observable (replay env1 a).
Proof.
  rewrite (replay_observable env2 (replay env1 a)), (replay_observable env1 a).
  rewrite (replay_eq env1 a).
  cbn [captcha evasion envelope typewriter confetti hearts starfield gallery].
  rewrite besidesGrid_rebuilt, evasion_replayReset_idem, confetti_replayReset_idem,
    stopStarfield_idem, resetTypewriter_idem.
  cbn [Gallery.galleryLeftTrack Gallery.galleryRightTrack Hearts.created].
  rewrite !firstOnly_twice. reflexivity.
Qed.

Lemma replay_settles env a :
  let a1 := replay env a in
  Gallery.leftAutoPlayId (gallery a1) = None /\
  Gallery.rightAutoPlayId (gallery a1) = None /\
  Starfield.starAnimId (starfield a1) = None /\
  Confetti.confettiAnimationId (confetti a1) = None /\
  Hearts.heartInterval (hearts a1) = None.
Proof. cbv zeta. rewrite replay_eq. by repeat split. Qed.

Lemma replay_grid env a :
  Captcha.grid (captcha (replay env a)) =
  imap Captcha.createCell (Captcha.shuffleArray (random env) Captcha.CAPTCHA_IMAGES).
Proof. rewrite replay_eq. reflexivity. Qed.

Lemma initCaptchaGrid_ext rnd rnd' s s' :
  (forall n, rnd' n = rnd n) ->
  besidesGrid (Captcha.initCaptchaGrid rnd' s') = besidesGrid (Captcha.initCaptchaGrid rnd s) ->
  Captcha.initCaptchaGrid rnd' s' = Captcha.initCaptchaGrid rnd s.
Proof.
  intros E B. rewrite !besidesGrid_init in B. destruct s, s'.
  cbn [Captcha.failureCount Captcha.captchaError_textContent Captcha.captchaError_visible
       Captcha.captchaHint_visible Captcha.container_transition
       Captcha.container_transform Captcha.container_opacity Captcha.container_shake] in B.
  simplify_eq.
  unfold Captcha.initCaptchaGrid, Captcha.shuffleArray, Captcha.updateVerifyButton.
  cbn [Captcha.selectedCells Captcha.failureCount Captcha.verifyBtn_disabled
       Captcha.captchaError_textContent Captcha.captchaError_visible
       Captcha.captchaHint_visible Captcha.container_transition
       Captcha.container_transform Captcha.container_opacity Captcha.container_shake].
  by rewrite (shuffleLoop_ext rnd rnd').
Qed.

Lemma raf_timers task h :
  Host.timers (snd (Host.requestAnimationFrame task h)) = Host.timers h.
Proof. reflexivity. Qed.

Lemma raf_frames task h :
  Host.frames (snd (Host.requestAnimationFrame task h)) =
  Host.frames h ++ [{| Host.frame_id := Host.nextFrame h; Host.frame_task := task |}].
Proof. reflexivity. Qed.

Lemma replay_layout env a :
  layout (replay env a) = Captcha.src <$> Captcha.shuffleArray (random env) Captcha.CAPTCHA_IMAGES.
Proof. unfold layout. rewrite replay_captcha. apply layout_init. Qed.

Lemma replay_layout_Permutation env1 env2 a :
  layout (replay env2 (replay env1 a)) ≡ₚ layout (replay env1 a).
Proof.
  rewrite !replay_layout. unfold Captcha.shuffleArray. by rewrite !shuffleLoop_Permutation.
Qed.

Lemma replay_same_draws env1 env2 a :
  (forall n, random env2 n = random env1 n) ->
  captcha (replay env2 (replay env1 a)) = captcha (replay env1 a).
Proof.
  intros E. rewrite (replay_captcha env2), (replay_captcha env1).
  apply initCaptchaGrid_ext; [done|]. apply besidesGrid_rebuilt.
Qed.

Lemma replay_twice_host env1 env2 a :
  host (replay env2 (replay env1 a)) =
  snd (Host.requestAnimationFrame (ShowPageOuter CAPTCHA) (host (replay env1 a))).
Proof.
  destruct (replay_settles env1 a) as (G1 & G2 & St & Cf & Ht).
  by apply replay_host_settled.
Qed.

(** C9 (as the code has it). The second of two replays in a row leaves every
    component as the first one set it, but for the grid, which it rebuilds
    in the order its own calls of [Math.random] give: the pictures are the
    same nine, and the cells are the same when the draws are. Of the
    pending callbacks it changes nothing but to request one more frame for
    the page transition. *)
Theorem replay_twice_same_but_for_layout (a : App) (env1 env2 : Env) :
  let a1 := replay env1 a in
  let a2 := replay env2 a1 in
  observable a2 = observable a1 /\
  layout a2 ≡ₚ layout a1 /\
  ((forall n, random env2 n = random env1 n) -> captcha a2 = captcha a1) /\
  Host.timers (host a2) = Host.timers (host a1) /\
  Host.frames (host a2) =
    Host.frames (host a1) ++
    [{| Host.frame_id := Host.nextFrame (host a1);
        Host.frame_task := ShowPageOuter CAPTCHA |}].
Proof.
  intros a1 a2. unfold a2, a1. rewrite replay_twice_host.
  refine (conj _ (conj _ (conj _ (conj _ _)))).
  - apply replay_observable_twice.
  - apply replay_layout_Permutation.
  - apply replay_same_draws.
  - apply raf_timers.
  - apply raf_frames.
Qed.

(** C9, the claim as stated fails: with other draws the second replay
    shows the pictures in another order than the first. *)
Lemma replay_twice_changes_layout :
  let a := run (Sample.fullReveal) Sample.app in
  let a1 := replay (Sample.env 0) a in
  let a2 := replay (Sample.env (1 # 2)) a1 in
  reachable a /\ replayBtn_hidden a = false /\
  layout a1 !! 0%nat = Some "assets/captcha/boyfriend-2.jpg" /\
  layout a2 !! 0%nat = Some "assets/captcha/boyfriend-1.jpg" /\
  layout a2 <> layout a1.
Proof.
  intros a a1 a2. refine (conj _ (conj _ (conj _ (conj _ _)))).
  - by exists Sample.markup, (Sample.env 0), Sample.fullReveal.
  - vm_compute. reflexivity.
  - vm_compute. reflexivity.
  - vm_compute. reflexivity.
  - vm_compute. discriminate.
Qed.


(** ** The CAPTCHA grid *)

Lemma size_zero_empty (X : gset nat) : bool_decide (size X = 0%nat) = bool_decide (X = ∅).
Proof. apply bool_decide_ext. rewrite size_empty_iff. by unfold_leibniz. Qed.

Lemma imap_createCell_unmarked l :
  Captcha.markCell false <$> imap Captcha.createCell l = imap Captcha.createCell l.
Proof.
  apply list_eq. intros i. rewrite list_lookup_fmap, !list_lookup_imap.
  by destruct (l !! i).
Qed.

Lemma shuffleArray_Permutation {A} rnd (arr : list A) : Captcha.shuffleArray rnd arr ≡ₚ arr.
Proof. apply shuffleLoop_Permutation. Qed.

Lemma shuffled_step s s' : captchaStep s s' -> shuffledCatalog s -> shuffledCatalog s'.
Proof.
  intros St (l & P & E). destruct St as [s' [|i Hi|]|h|rnd].
  - by exists l.
  - exists l. split; [done|]. cbn [Captcha.toggleCell Captcha.grid Captcha.updateVerifyButton].
    rewrite <- E. apply list_eq. intros j. rewrite !list_lookup_fmap, list_lookup_alter.
    destruct (decide (i = j)) as [->|]; [|done]. by destruct (Captcha.grid s !! j).
  - by exists l.
  - exists l. split; [done|]. unfold Captcha.verifyCaptcha. by case_match.
  - exists (Captcha.shuffleArray rnd Captcha.CAPTCHA_IMAGES).
    split; [apply shuffleArray_Permutation|]. cbn [Captcha.initCaptchaGrid Captcha.grid].
    apply imap_createCell_unmarked.
Qed.

Lemma widgets_step s s' : captchaStep s s' -> wfCaptcha s -> widgetsAgree s -> widgetsAgree s'.
Proof.
  intros St [Hidx Hsel] [Hm Hv]. destruct St as [s' [|i Hi|]|h|rnd].
  - done.
  - split.
    + cbn [Captcha.toggleCell Captcha.grid Captcha.selectedCells Captcha.updateVerifyButton].
      intros j c. rewrite list_lookup_alter. destruct (decide (i = j)) as [->|Hne].
      * destruct (Captcha.grid s !! j) as [c0|] eqn:E; [|done]. intros [= <-].
        cbn [Captcha.markCell Captcha.selected Captcha.aria_checked]. split; [|done].
        destruct (decide (j ∈ Captcha.selectedCells s)) as [Hin|Hin].
        -- rewrite !(bool_decide_eq_true_2 _ Hin). simpl. symmetry.
           apply bool_decide_eq_false. set_solver.
        -- rewrite !(bool_decide_eq_false_2 _ Hin). simpl. symmetry.
           apply bool_decide_eq_true. set_solver.
      * intros E. destruct (Hm j c E) as [-> ->]. split; [|done].
        apply bool_decide_ext.
        destruct (decide (i ∈ Captcha.selectedCells s)) as [Hin|Hin].
        -- rewrite (bool_decide_eq_true_2 _ Hin). set_solver.
        -- rewrite (bool_decide_eq_false_2 _ Hin). set_solver.
    + cbn [Captcha.toggleCell Captcha.verifyBtn_disabled Captcha.selectedCells
           Captcha.updateVerifyButton]. apply size_zero_empty.
  - done.
  - unfold Captcha.verifyCaptcha. by case_match.
  - split.
    + cbn [Captcha.initCaptchaGrid Captcha.grid Captcha.selectedCells
           Captcha.updateVerifyButton].
      intros i c. rewrite list_lookup_imap. destruct (_ !! i); [|done]. intros [= <-].
      split; [|done]. symmetry. apply bool_decide_eq_false. set_solver.
    + cbn [Captcha.initCaptchaGrid Captcha.verifyBtn_disabled Captcha.selectedCells
           Captcha.updateVerifyButton]. apply size_zero_empty.
Qed.

Lemma feedback_step s s' : captchaStep s s' -> feedbackAgrees s -> feedbackAgrees s'.
Proof.
  intros St [Hh He]. destruct St as [s' [|i Hi|]|h|rnd].
  - done.
  - split; [done|]. cbn. done.
  - done.
  - unfold Captcha.verifyCaptcha. case_match; [done|].
    split; cbn -[Nat.min nth]; [split; [lia|done]|]. intros _. split; [lia|done].
  - split; cbn; [split; [done|lia]|done].
Qed.

Lemma feedback_initCaptchaGrid rnd s : feedbackAgrees s -> feedbackAgrees (Captcha.initCaptchaGrid rnd s).
Proof. done. Qed.

Lemma filter_length_Permutation {A} (f : A -> bool) l l' :
  l ≡ₚ l' -> length (List.filter f l) = length (List.filter f l').
Proof.
  induction 1 as [|x l l' _ IH|x y l|l l' l'' _ IH1 _ IH2]; simpl; try done.
  - destruct (f x); simpl; by rewrite IH.
  - by destruct (f x), (f y).
  - by rewrite IH1.
Qed.

Lemma filter_fmap_length {A B} (f : B -> bool) (g : A -> B) l :
  length (List.filter f (g <$> l)) = length (List.filter (fun x => f (g x)) l).
Proof.
  induction l as [|x l IH]; [done|]. rewrite fmap_cons. cbn [List.filter].
  destruct (f (g x)); cbn [length]; by rewrite IH.
Qed.

Lemma filter_imap_length {A B} (f : B -> bool) (p : A -> bool) (g : nat -> A -> B) l :
  (forall i x, f (g i x) = p x) ->
  length (List.filter f (imap g l)) = length (List.filter p l).
Proof.
  revert g. induction l as [|x l IH]; intros g H; simpl; [done|].
  rewrite H. destruct (p x); simpl; rewrite (IH (g ∘ S)); try done; intros; apply H.
Qed.

Lemma filter_sublist_of {A} (f : A -> bool) l : List.filter f l `sublist_of` l.
Proof.
  induction l as [|x l IH]; simpl; [done|]. destruct (f x); by constructor.
Qed.

Lemma shuffled_length s : shuffledCatalog s -> length (Captcha.grid s) = 9%nat.
Proof.
  intros (l & P & E). apply (f_equal length) in E.
  rewrite length_fmap, length_imap in E. rewrite E. by rewrite P.
Qed.

Lemma shuffled_pictures s :
  shuffledCatalog s ->
  Captcha.img_src <$> Captcha.grid s ≡ₚ Captcha.src <$> Captcha.CAPTCHA_IMAGES.
Proof.
  intros (l & P & E). rewrite <- P.
  assert (Captcha.img_src <$> Captcha.grid s =
          Captcha.img_src <$> (Captcha.markCell false <$> Captcha.grid s)) as ->.
  { rewrite <- list_fmap_compose. by apply list_fmap_ext. }
  rewrite E. replace (Captcha.img_src <$> imap Captcha.createCell l) with (Captcha.src <$> l);
    [done|]. apply list_eq. intros i.
  rewrite !list_lookup_fmap, list_lookup_imap. by destruct (l !! i).
Qed.

Lemma shuffled_targets s :
  shuffledCatalog s ->
  length (List.filter (fun c => String.eqb (Captcha.dataset_isTarget c) "true")
            (Captcha.grid s)) = 4%nat.
Proof.
  intros (l & P & E).
  transitivity (length (List.filter (fun c => String.eqb (Captcha.dataset_isTarget c) "true")
                          (Captcha.markCell false <$> Captcha.grid s))).
  { by rewrite filter_fmap_length. }
  rewrite E, (filter_imap_length _ Captcha.isTarget).
  - by rewrite (filter_length_Permutation _ _ _ P).
  - intros i x. by destruct x as [? [] ?].
Qed.

Lemma indexed_seq (g : list Captcha.Cell) :
  (forall i c, g !! i = Some c -> Captcha.dataset_index c = i) ->
  Captcha.dataset_index <$> g = seq 0 (length g).
Proof.
  intros H. apply list_eq. intros i. rewrite list_lookup_fmap.
  destruct (g !! i) as [c|] eqn:E; simpl.
  - rewrite (H i c E). symmetry. apply lookup_seq. split; [done|].
    by eapply lookup_lt_Some.
  - symmetry. apply lookup_seq_ge. by apply lookup_ge_None.
Qed.

Lemma targetIndices_size s :
  wfCaptcha s -> shuffledCatalog s -> size (targetIndices s) = 4%nat.
Proof.
  intros [Hidx _] Sh. unfold targetIndices.
  rewrite size_list_to_set, length_map; [by apply shuffled_targets|].
  apply (sublist_NoDup _ (Captcha.dataset_index <$> Captcha.grid s)).
  - rewrite (indexed_seq _ Hidx). apply NoDup_seq.
  - apply (fmap_sublist _ _ _ (filter_sublist_of _ _)).
Qed.

Lemma shuffled_initial m env0 : shuffledCatalog (captcha (initialApp m env0)).
Proof.
  exists (Captcha.shuffleArray (random env0) Captcha.CAPTCHA_IMAGES).
  split; [apply shuffleArray_Permutation|]. cbn [initialApp captcha Captcha.initCaptchaGrid Captcha.grid].
  apply imap_createCell_unmarked.
Qed.

Lemma widgets_initial m env0 : widgetsAgree (captcha (initialApp m env0)).
Proof.
  split.
  - cbn [initialApp captcha Captcha.initCaptchaGrid Captcha.grid Captcha.selectedCells
         Captcha.updateVerifyButton].
    intros i c. rewrite list_lookup_imap. destruct (_ !! i); [|done]. intros [= <-].
    split; [|done]. symmetry. apply bool_decide_eq_false. set_solver.
  - cbn [initialApp captcha Captcha.initCaptchaGrid Captcha.verifyBtn_disabled
         Captcha.selectedCells Captcha.updateVerifyButton]. apply size_zero_empty.
Qed.

Lemma feedback_initial m env0 : feedbackAgrees (captcha (initialApp m env0)).
Proof. split; cbn; [split; [done|lia]|done]. Qed.

(** The three invariants of the CAPTCHA state hold in every reachable
    state. *)
Lemma captcha_invariants a :
  reachable a ->
  wfCaptcha (captcha a) /\ shuffledCatalog (captcha a) /\ widgetsAgree (captcha a) /\
  feedbackAgrees (captcha a).
Proof.
  intros (m & env0 & evs & ->).
  assert (forall a, wfCaptcha (captcha a) /\ shuffledCatalog (captcha a) /\
                    widgetsAgree (captcha a) /\ feedbackAgrees (captcha a) ->
                    wfCaptcha (captcha (run evs a)) /\ shuffledCatalog (captcha (run evs a)) /\
                    widgetsAgree (captcha (run evs a)) /\ feedbackAgrees (captcha (run evs a)))
    as H.
  { induction evs as [|[env ev] evs IH]; intros a H; simpl; [done|]. apply IH.
    destruct H as (W & S & G & F). pose proof (dispatch_captcha env ev a) as St.
    refine (conj _ (conj _ (conj _ _))).
    - by eapply (wf_step _ _ St).
    - by eapply (shuffled_step _ _ St).
    - by eapply (widgets_step _ _ St).
    - by eapply (feedback_step _ _ St). }
  apply H. split; [apply wf_initial|]. split; [apply shuffled_initial|].
  split; [apply widgets_initial|apply feedback_initial].
Qed.

Lemma floor_draw_le rnd k i :
  unitRange rnd -> (Z.to_nat (Num.floor (rnd k * Num.ofnat (i + 1))) <= i)%nat.
Proof.
  intros U. destruct (U k) as [H0 H1]. unfold Num.floor, Num.ofnat.
  assert (Qfloor (rnd k * inject_Z (Z.of_nat (i + 1))) < Z.of_nat (i + 1))%Z as H.
  { rewrite Zlt_Qlt. eapply Qle_lt_trans; [apply Qfloor_le|].
    assert (0 < inject_Z (Z.of_nat (i + 1)))%Q as Hp.
    { change 0%Q with (inject_Z 0). rewrite <- Zlt_Qlt. lia. }
    eapply Qlt_le_trans; [apply Qmult_lt_compat_r; [exact Hp|exact H1]|].
    rewrite Qmult_1_l. apply Qle_refl. }
  lia.
Qed.

(** X1. [shuffleArray] rearranges its argument: the result has the same
    elements, each as often as before; and for draws in [0, 1) the index
    drawn for position [i] is one of 0, ..., [i]. *)
Theorem shuffleArray_rearranges (rnd : nat -> Q) (arr : list Captcha.ImageData) :
  unitRange rnd ->
  Captcha.shuffleArray rnd arr ≡ₚ arr /\
  length (Captcha.shuffleArray rnd arr) = length arr /\
  (forall k i, (Z.to_nat (Num.floor (rnd k * Num.ofnat (i + 1))) <= i)%nat).
Proof.
  intros U. split; [apply shuffleArray_Permutation|]. split.
  - by rewrite shuffleArray_Permutation.
  - intros k i. by apply floor_draw_le.
Qed.

Lemma shuffleArray_rearranges_witness :
  unitRange (fun _ => 0%Q) /\
  Captcha.shuffleArray (fun _ => 0%Q) Captcha.CAPTCHA_IMAGES ≡ₚ Captcha.CAPTCHA_IMAGES.
Proof.
  split; [apply unitRange_zero|].
  exact (proj1 (shuffleArray_rearranges _ Captcha.CAPTCHA_IMAGES unitRange_zero)).
Defined.

(** X2. In every reachable state the grid shows the nine pictures of the
    catalog, each once, every cell carries its position as index, exactly
    four cells are targets, and only displayed cells are selected. *)
Theorem grid_shows_catalog (a : App) :
  reachable a ->
  let s := captcha a in
  length (Captcha.grid s) = 9%nat /\
  Captcha.img_src <$> Captcha.grid s ≡ₚ Captcha.src <$> Captcha.CAPTCHA_IMAGES /\
  size (targetIndices s) = 4%nat /\
  (forall i c, Captcha.grid s !! i = Some c -> Captcha.dataset_index c = i) /\
  (forall i, i ∈ Captcha.selectedCells s -> (i < 9)%nat).
Proof.
  intros R s. destruct (captcha_invariants a R) as (W & Sh & _ & _). fold s in W, Sh.
  pose proof (shuffled_length s Sh) as L.
  refine (conj L (conj (shuffled_pictures s Sh) (conj (targetIndices_size s W Sh) _))).
  destruct W as [Hidx Hsel]. split; [done|]. intros i Hi. rewrite <- L. by apply Hsel.
Qed.

Lemma grid_shows_catalog_witness :
  let a := run Sample.exactSelection Sample.app in
  reachable a /\ size (targetIndices (captcha a)) = 4%nat /\
  Captcha.selectedCells (captcha a) = targetIndices (captcha a).
Proof.
  intros a. assert (reachable a) as R by apply reachable_run.
  refine (conj R (conj _ _)).
  - exact (proj1 (proj2 (proj2 (grid_shows_catalog a R)))).
  - vm_compute. reflexivity.
Defined.

(** X3. In every reachable state a cell has the class [selected], and
    [aria-checked] true, exactly when its index is in [selectedCells], and
    the verify button is disabled exactly when nothing is selected. *)
Theorem widgets_mirror_selection (a : App) :
  reachable a ->
  let s := captcha a in
  (forall i c, Captcha.grid s !! i = Some c ->
     (Captcha.selected c = true <-> i ∈ Captcha.selectedCells s) /\
     Captcha.aria_checked c = Captcha.selected c) /\
  (Captcha.verifyBtn_disabled s = true <-> Captcha.selectedCells s = ∅).
Proof.
  intros R s. destruct (captcha_invariants a R) as (_ & _ & [Hm Hv] & _). fold s in Hm, Hv.
  split.
  - intros i c E. destruct (Hm i c E) as [-> H]. split; [|done]. apply bool_decide_eq_true.
  - rewrite Hv. apply bool_decide_eq_true.
Qed.

Lemma widgets_mirror_selection_witness :
  let a := run [Sample.click 3; Sample.click 5; Sample.click 3] Sample.app in
  reachable a /\ Captcha.selectedCells (captcha a) = {[5%nat]} /\
  (Captcha.verifyBtn_disabled (captcha a) = true <-> Captcha.selectedCells (captcha a) = ∅).
Proof.
  intros a. assert (reachable a) as R by apply reachable_run.
  refine (conj R (conj _ _)).
  - vm_compute. reflexivity.
  - exact (proj2 (widgets_mirror_selection a R)).
Defined.

(** X4. In every reachable state the hint is visible exactly when a
    verification has failed since the page was loaded or replayed (from the
    first failure on), and an error message is visible only then and is the
    one for the current failure count. *)
Theorem feedback_follows_failures (a : App) :
  reachable a ->
  let s := captcha a in
  (Captcha.captchaHint_visible s = true <-> (1 <= Captcha.failureCount s)%nat) /\
  (Captcha.captchaError_visible s = true ->
     (1 <= Captcha.failureCount s)%nat /\
     Captcha.captchaError_textContent s =
       nth (Nat.min (Captcha.failureCount s - 1) 2) Captcha.messages "undefined").
Proof. intros R s. by destruct (captcha_invariants a R) as (_ & _ & _ & F). Qed.

Lemma feedback_follows_failures_witness :
  let a := run [Sample.click 0; Sample.verify] Sample.app in
  reachable a /\ Captcha.failureCount (captcha a) = 1%nat /\
  (Captcha.captchaHint_visible (captcha a) = true <-> (1 <= Captcha.failureCount (captcha a))%nat).
Proof.
  intros a. assert (reachable a) as R by apply reachable_run.
  refine (conj R (conj _ _)).
  - vm_compute. reflexivity.
  - exact (proj1 (feedback_follows_failures a R)).
Defined.

Lemma markCell_self c :
  Captcha.aria_checked c = Captcha.selected c -> Captcha.markCell (Captcha.selected c) c = c.
Proof. destruct c. simpl. by intros ->. Qed.

Lemma toggle_selection_twice (X : gset nat) (i : nat) :
  let Y := if bool_decide (i ∈ X) then X ∖ {[i]} else {[i]} ∪ X in
  (if bool_decide (i ∈ Y) then Y ∖ {[i]} else {[i]} ∪ Y) = X /\
  negb (bool_decide (i ∈ Y)) = bool_decide (i ∈ X).
Proof.
  cbv zeta. destruct (decide (i ∈ X)) as [Hin|Hin].
  - rewrite !(bool_decide_eq_true_2 _ Hin). rewrite bool_decide_eq_false_2 by set_solver.
    split; [|done]. apply set_eq. intros j. destruct (decide (j = i)); set_solver.
  - rewrite !(bool_decide_eq_false_2 _ Hin). rewrite bool_decide_eq_true_2 by set_solver.
    split; [|done]. apply set_eq. intros j. destruct (decide (j = i)); set_solver.
Qed.

Lemma captcha_state_ext (s t : Captcha.State) :
  Captcha.grid s = Captcha.grid t ->
  Captcha.selectedCells s = Captcha.selectedCells t ->
  Captcha.failureCount s = Captcha.failureCount t ->
  Captcha.verifyBtn_disabled s = Captcha.verifyBtn_disabled t ->
  Captcha.captchaError_textContent s = Captcha.captchaError_textContent t ->
  Captcha.captchaError_visible s = Captcha.captchaError_visible t ->
  Captcha.captchaHint_visible s = Captcha.captchaHint_visible t ->
  Captcha.container_transition s = Captcha.container_transition t ->
  Captcha.container_transform s = Captcha.container_transform t ->
  Captcha.container_opacity s = Captcha.container_opacity t ->
  Captcha.container_shake s = Captcha.container_shake t ->
  s = t.
Proof. destruct s, t. simpl. by intros -> -> -> -> -> -> -> -> -> -> ->. Qed.

Lemma toggleCell_grid i s :
  Captcha.grid (Captcha.toggleCell i s) =
  alter (Captcha.markCell (negb (bool_decide (i ∈ Captcha.selectedCells s)))) i (Captcha.grid s).
Proof. reflexivity. Qed.

Lemma toggleCell_selectedCells i s :
  Captcha.selectedCells (Captcha.toggleCell i s) =
  if bool_decide (i ∈ Captcha.selectedCells s)
  then Captcha.selectedCells s ∖ {[i]} else {[i]} ∪ Captcha.selectedCells s.
Proof. reflexivity. Qed.

Lemma toggleCell_verifyBtn i s :
  Captcha.verifyBtn_disabled (Captcha.toggleCell i s) =
  bool_decide (Captcha.selectedCells (Captcha.toggleCell i s) = ∅).
Proof. rewrite <- size_zero_empty. reflexivity. Qed.

Lemma toggle_twice_state s i c :
  widgetsAgree s -> Captcha.grid s !! i = Some c ->
  Captcha.toggleCell i (Captcha.toggleCell i s) = errorHidden s.
Proof.
  intros [Hm Hv] E. destruct (Hm i c E) as [Hc Ha].
  destruct (toggle_selection_twice (Captcha.selectedCells s) i) as [H1 H2]. cbv zeta in H1, H2.
  assert (Captcha.selectedCells (Captcha.toggleCell i (Captcha.toggleCell i s)) =
          Captcha.selectedCells s) as Hs.
  { by rewrite toggleCell_selectedCells, toggleCell_selectedCells. }
  apply captcha_state_ext; try reflexivity.
  - rewrite toggleCell_grid, toggleCell_selectedCells, toggleCell_grid, H2.
    apply list_eq. intros j. rewrite !list_lookup_alter.
    destruct (decide (i = j)) as [<-|Hne]; [|by rewrite ?decide_False by done].
    rewrite ?decide_True by done. rewrite E. simpl. f_equal. rewrite <- Hc.
    destruct c; simpl in *. by subst.
  - exact Hs.
  - rewrite toggleCell_verifyBtn, Hs. symmetry. exact Hv.
Qed.

(** X5. In every reachable state, toggling a displayed cell twice gives
    back the grid, the selected set and the state of the verify button; all
    that is left of the two toggles is that the error message is hidden. *)
Theorem toggle_twice_restores (a : App) (i : nat) :
  reachable a -> (i < 9)%nat ->
  let s := captcha a in
  Captcha.toggleCell i (Captcha.toggleCell i s) = errorHidden s.
Proof.
  intros R Hi s. destruct (captcha_invariants a R) as (W & Sh & G & _).
  pose proof (shuffled_length _ Sh) as L.
  destruct (lookup_lt_is_Some_2 (Captcha.grid (captcha a)) i) as [c E]; [lia|].
  by apply (toggle_twice_state _ i c).
Qed.

Lemma toggle_twice_restores_witness :
  reachable Sample.app /\ (3 < 9)%nat /\
  Captcha.toggleCell 3 (Captcha.toggleCell 3 (captcha Sample.app)) =
    errorHidden (captcha Sample.app).
Proof.
  assert (reachable Sample.app) as R by apply (reachable_run []).
  assert (3 < 9)%nat as H by lia.
  exact (conj R (conj H (toggle_twice_restores Sample.app 3 R H))).
Defined.


(** ** The chase of the No button *)

Local Open Scope Q_scope.






Local Close Scope Q_scope.

Lemma phase_move s s' : evasionMove s s' -> evasionPhase s -> evasionPhase s'.
Proof.
  intros M P. destruct M as [env e h| |t]; [|exact P|exact P].
  unfold Evasion.evadeNoButton.
  destruct (Evasion.noButtonGone s) eqn:G; [exact P|].
  destruct (Evasion.triggers env e s); [|exact P].
  assert (Evasion.noEvadeAttempts s <= 7)%nat as Hle.
  { unfold evasionPhase in P. destruct (Evasion.transition s); [lia|intuition congruence|lia]. }
  destruct (Evasion.MAX_EVADE_BEFORE_GONE <=? S (Evasion.noEvadeAttempts s))%nat eqn:M.
  - apply Nat.leb_le in M. unfold Evasion.MAX_EVADE_BEFORE_GONE in M.
    unfold evasionPhase. cbn. repeat split; lia.
  - apply Nat.leb_gt in M. unfold Evasion.MAX_EVADE_BEFORE_GONE in M. cbv zeta.
    destruct (Evasion.sampleLoop _ _ _ _ _ _ _ _) as [[[x y] n]|]; [|exact P].
    unfold evasionPhase. cbn [fst Evasion.transition Evasion.noEvadeAttempts
      Evasion.noButtonGone Evasion.style_left Evasion.style_top Evasion.evading].
    repeat split; try lia; try done.
    unfold Evasion.transitionSpeed. lia.
Qed.

Lemma phase_moves s s' : rtc evasionMove s s' -> evasionPhase s -> evasionPhase s'.
Proof. induction 1; eauto using phase_move. Qed.

Lemma phase_reachable a : reachable a -> evasionPhase (evasion a).
Proof.
  intros (m & env0 & evs & ->).
  assert (forall a, evasionPhase (evasion a) -> evasionPhase (evasion (run evs a))) as H.
  { induction evs as [|[env ev] evs IH]; intros a P; simpl; [done|]. apply IH.
    destruct (isReplay ev) eqn:R.
    - destruct ev; try discriminate. cbn [dispatch]. rewrite replay_evasion. by cbn.
    - eapply phase_moves; [by apply dispatch_evasion|done]. }
  apply H. by cbn.
Qed.

(** X7. In every reachable state the inline transition of the No button
    tells the phase of the chase. Empty: no attempt yet, no position
    written, no class [evading]. A move: between 1 and 7 attempts, the
    button active, a position written, and the speed is
    300 - 15 * attempts, between 195 and 285, so that the floor of 150 in
    [Math.max] never applies; nor does the floor of 60 of the detection
    radius, which is 120 - 5 * attempts while the button is active. The
    vanish transition: 8 attempts and the button retired. *)
Theorem evasion_phases (a : App) :
  reachable a ->
  let s := evasion a in
  evasionPhase s /\
  (forall speed, Evasion.transition s = Evasion.Move speed -> (195 <= speed <= 285)%Z) /\
  (Evasion.noButtonGone s = false ->
   Evasion.detectionRadius (Evasion.noEvadeAttempts s) =
     (120 - 5 * Z.of_nat (Evasion.noEvadeAttempts s))%Z /\
   (85 <= Evasion.detectionRadius (Evasion.noEvadeAttempts s) <= 120)%Z).
Proof.
  intros R s. pose proof (phase_reachable a R) as P. fold s in P.
  pose proof (evasionInv_reachable a R) as [I1 I2]. fold s in I1, I2.
  unfold Evasion.MAX_EVADE_BEFORE_GONE in *.
  split; [exact P|]. split.
  - intros speed E. unfold evasionPhase in P. rewrite E in P. lia.
  - intros G. assert (Evasion.noEvadeAttempts s <> 8)%nat as N.
    { intros E. apply I2 in E. congruence. }
    unfold Evasion.detectionRadius. lia.
Qed.

Lemma evasion_phases_witness :
  let a := run (take 3 Sample.eightTouches) Sample.app in
  reachable a /\ Evasion.transition (evasion a) = Evasion.Move 255 /\
  Evasion.detectionRadius (Evasion.noEvadeAttempts (evasion a)) = 105%Z.
Proof.
  intros a. assert (reachable a) as R by apply reachable_run.
  destruct (evasion_phases a R) as (_ & _ & H).
  refine (conj R (conj _ _)).
  - vm_compute. reflexivity.
  - destruct H as [-> _]; vm_compute; reflexivity.
Defined.


(** ** Floating hearts *)

Ltac proj_simpl :=
  cbn [pages captcha hearts evasion envelope confetti starfield typewriter gallery
       replayBtn_hidden host setHost setPages setCaptcha setHearts setEvasion setEnvelope
       setConfetti setStarfield setTypewriter setGallery setReplayHidden fst snd].

Lemma hearts_invoke cb a : hearts (invoke cb a) = hearts a.
Proof. by destruct cb as [[]|]. Qed.

Lemma runTask_hearts env task a : heartsStep (hearts a) (hearts (runTask env task a)).
Proof.
  destruct task; unfold runTask, later, showPage; on_eq; rewrite ?hearts_invoke; proj_simpl;
    try apply hs_same.
  - apply hs_start.
  - apply hs_spawn.
  - apply hs_remove.
Qed.

Lemma dispatch_hearts env ev a : heartsStep (hearts a) (hearts (dispatch env ev a)).
Proof.
  destruct ev; cbn [dispatch].
  - unfold toggle. case_match; apply hs_same.
  - unfold toggle. repeat case_match; apply hs_same.
  - on_eq. apply hs_same.
  - unfold mousemove. repeat case_match; on_eq; apply hs_same.
  - unfold touchmove. case_match; on_eq; apply hs_same.
  - unfold touchstart. on_eq. apply hs_same.
  - unfold yesClick, later. on_eq. proj_simpl. apply hs_stop.
  - unfold openEnvelope, later. case_match; apply hs_same.
  - unfold openEnvelope, later. repeat case_match; apply hs_same.
  - unfold resize. on_eq. apply hs_same.
  - rewrite replay_eq. proj_simpl.
    rewrite <- (clear_stopFloatingHearts (hearts a) Host.empty). apply hs_clear.
  - destruct (Host.takeTimer id (host a)) as [[t hs]|]; [|apply hs_same].
    apply (runTask_hearts env t (setHost hs a)).
  - destruct (Host.takeFrame id (host a)) as [[t hs]|]; [|apply hs_same].
    apply (runTask_hearts env t (setHost hs a)).
Qed.

Lemma heartsInv_step s s' : heartsStep s s' -> heartsInv s -> heartsInv s'.
Proof.
  intros St [Hn Hd]. destruct St as [|env h|n|h|h|h].
  - done.
  - split; cbn [Hearts.spawnHeart fst Hearts.hearts Hearts.created].
    + intros x Hx. apply elem_of_app in Hx as [Hx|Hx].
      * specialize (Hn x Hx). lia.
      * apply list_elem_of_singleton in Hx. subst. cbn. lia.
    + rewrite fmap_app. apply NoDup_app. split; [done|]. split.
      * intros n Hin Hin'. apply list_elem_of_singleton in Hin'. cbn in Hin'. subst.
        apply list_elem_of_fmap in Hin as (x & Hx1 & Hx2). specialize (Hn x Hx2). lia.
      * apply NoDup_singleton.
  - split; cbn [Hearts.removeHeart Hearts.hearts Hearts.created].
    + intros x Hx. apply Hn. apply list_elem_of_In in Hx. apply filter_In in Hx as [Hx _].
      by apply list_elem_of_In.
    + eapply sublist_NoDup; [exact Hd|]. apply (fmap_sublist _ _ _ (filter_sublist_of _ _)).
  - unfold Hearts.startFloatingHearts. by destruct (Hearts.heartInterval s).
  - unfold Hearts.stopFloatingHearts. by destruct (Hearts.heartInterval s).
  - split; cbn [Hearts.clear Hearts.hearts]; [|constructor].
    intros x Hx. by apply elem_of_nil in Hx.
Qed.

Lemma heartsInv_reachable a : reachable a -> heartsInv (hearts a).
Proof.
  intros (m & env0 & evs & ->).
  assert (forall a, heartsInv (hearts a) -> heartsInv (hearts (run evs a))) as H.
  { induction evs as [|[env ev] evs IH]; intros a P; simpl; [done|]. apply IH.
    eapply heartsInv_step; [apply dispatch_hearts|done]. }
  apply H. split; cbn; [|constructor]. intros x Hx. by apply elem_of_nil in Hx.
Qed.

Lemma removeHeart_fresh n l :
  (forall x, x ∈ l -> Hearts.node x <> n) ->
  List.filter (fun x => negb (Nat.eqb (Hearts.node x) n)) l = l.
Proof.
  induction l as [|y l IH]; intros H; simpl; [done|].
  assert (Hearts.node y <> n) as Hy by (apply H; left).
  apply Nat.eqb_neq in Hy. rewrite Hy. simpl. f_equal. apply IH. intros x Hx. apply H. by right.
Qed.

Local Open Scope Q_scope.

(** X8. [spawnHeart] appends one heart, a span not used before, and sets
    the timer that removes it; the delay of that timer is the duration of
    the animation plus two seconds, from 8 up to and including 16 seconds
    for values of [Math.random] in [0, 1) (the script's doubles reach 14 and
    16000 themselves). In every reachable state the removal takes
    exactly that heart out again, whatever hearts were added after it. *)
Theorem heart_spawned_then_removed (a : App) (env : Env) (newer : list Hearts.Heart) :
  reachable a -> unitRange (random env) ->
  let s := hearts a in
  let r := Hearts.spawnHeart env s (host a) in
  (forall x, x ∈ newer -> Hearts.node x <> Hearts.created s) ->
  exists x d,
    Hearts.hearts (fst r) = Hearts.hearts s ++ [x] /\
    Hearts.node x = Hearts.created s /\
    6 <= Hearts.animationDuration x /\ Hearts.animationDuration x <= 14 /\
    added (host a) (snd r) =
      [{| Host.timer_id := Host.nextTimer (host a); Host.timer_kind := Host.Timeout;
          Host.timer_delay := d; Host.timer_task := RemoveHeart (Hearts.node x) |}] /\
    d == (Hearts.animationDuration x + 2) * 1000 /\ 8000 <= d /\ d <= 16000 /\
    Hearts.hearts
      (Hearts.removeHeart (Hearts.node x)
         {| Hearts.heartInterval := Hearts.heartInterval s;
            Hearts.hearts := Hearts.hearts (fst r) ++ newer;
            Hearts.created := Hearts.created (fst r) |}) =
    Hearts.hearts s ++ newer.
Proof.
  intros R U s r Hl. destruct (heartsInv_reachable a R) as [Hn _]. fold s in Hn.
  destruct (U 2%nat) as [U0 U1].
  unfold r, Hearts.spawnHeart. cbn [fst snd Hearts.hearts Hearts.created Hearts.node].
  eexists _, _. split; [reflexivity|]. cbn [Hearts.node Hearts.animationDuration].
  split; [reflexivity|]. split; [lra|]. split; [lra|]. split.
  { unfold added, Host.setTimeout, Host.schedule. cbn [snd Host.timers].
    by rewrite drop_app_length. }
  split; [reflexivity|]. split; [lra|]. split; [lra|].
  cbn [Hearts.removeHeart Hearts.hearts]. rewrite !List.filter_app. simpl.
  rewrite Nat.eqb_refl. simpl.
  rewrite (removeHeart_fresh _ (Hearts.hearts s)), (removeHeart_fresh _ newer);
    [by rewrite app_nil_r| |].
  - intros x Hx. by apply Hl.
  - intros x Hx. specialize (Hn x Hx). lia.
Qed.

Lemma heart_spawned_then_removed_witness :
  let a := Sample.app in
  let r := Hearts.spawnHeart (Sample.env 0) (hearts a) (host a) in
  reachable a /\ unitRange (random (Sample.env 0)) /\
  exists x, Hearts.hearts (fst r) = Hearts.hearts (hearts a) ++ [x] /\
            Hearts.hearts (Hearts.removeHeart (Hearts.node x) (fst r)) = [].
Proof.
  intros a r.
  assert (reachable a) as R by apply (reachable_run []).
  assert (unitRange (random (Sample.env 0))) as U by apply unitRange_zero.
  refine (conj R (conj U _)).
  destruct (heart_spawned_then_removed a (Sample.env 0) [] R U) as (x & d & H1 & _ & _ & _ & _ & _ & _ & _ & H2).
  { intros x Hx. by apply elem_of_nil in Hx. }
  exists x. split; [exact H1|]. rewrite app_nil_r in H2. exact H2.
Defined.

Local Close Scope Q_scope.


(** ** Identifiers of the host *)

Create HintDb wf.

Lemma wf_empty : wfHost Host.empty.
Proof. repeat split; simpl; try constructor; intros x Hx; by apply elem_of_nil in Hx. Qed.

Lemma wf_schedule k task d h : wfHost h -> wfHost (snd (Host.schedule k task d h)).
Proof.
  intros [[Ht Hd] Hf]. split; [|exact Hf]. simpl. split.
  - intros t Hin. apply elem_of_app in Hin as [Hin|Hin].
    + specialize (Ht t Hin). lia.
    + apply list_elem_of_singleton in Hin as ->. simpl. lia.
  - rewrite fmap_app. apply NoDup_app. split; [done|]. split; [|apply NoDup_singleton].
    intros id Hin Hin'. apply list_elem_of_singleton in Hin'. simpl in Hin'. subst.
    apply list_elem_of_fmap in Hin as (t & E & Hin). specialize (Ht t Hin). lia.
Qed.

Lemma wf_setTimeout task d h : wfHost h -> wfHost (snd (Host.setTimeout task d h)).
Proof. apply wf_schedule. Qed.

Lemma wf_setInterval task d h : wfHost h -> wfHost (snd (Host.setInterval task d h)).
Proof. apply wf_schedule. Qed.

Lemma wf_raf task h : wfHost h -> wfHost (snd (Host.requestAnimationFrame task h)).
Proof.
  intros [Ht [Hf Hd]]. split; [exact Ht|]. simpl. split.
  - intros f Hin. apply elem_of_app in Hin as [Hin|Hin].
    + specialize (Hf f Hin). lia.
    + apply list_elem_of_singleton in Hin as ->. simpl. lia.
  - rewrite fmap_app. apply NoDup_app. split; [done|]. split; [|apply NoDup_singleton].
    intros id Hin Hin'. apply list_elem_of_singleton in Hin'. simpl in Hin'. subst.
    apply list_elem_of_fmap in Hin as (f & E & Hin). specialize (Hf f Hin). lia.
Qed.

Lemma wf_clearTimer id h : wfHost h -> wfHost (Host.clearTimer id h).
Proof.
  intros [[Ht Hd] Hf]. split; [|exact Hf]. simpl. split.
  - intros t Hin. apply list_elem_of_filter in Hin as [_ Hin]. by apply Ht.
  - eapply sublist_NoDup; [exact Hd|]. apply fmap_sublist, sublist_filter.
Qed.

Lemma wf_cancel id h : wfHost h -> wfHost (Host.cancelAnimationFrame id h).
Proof.
  intros [Ht [Hf Hd]]. split; [exact Ht|]. simpl. split.
  - intros t Hin. apply list_elem_of_filter in Hin as [_ Hin]. by apply Hf.
  - eapply sublist_NoDup; [exact Hd|]. apply fmap_sublist, sublist_filter.
Qed.

Lemma wf_takeTimer id h task h' :
  Host.takeTimer id h = Some (task, h') -> wfHost h -> wfHost h'.
Proof.
  unfold Host.takeTimer. destruct (Host.findTimer id h) as [x|]; [|done].
  intros [= <- <-] W. destruct (Host.timer_kind x); [by apply wf_clearTimer|done].
Qed.

Lemma wf_takeFrame id h task h' :
  Host.takeFrame id h = Some (task, h') -> wfHost h -> wfHost h'.
Proof.
  unfold Host.takeFrame. destruct (Host.findFrame id h) as [x|]; [|done].
  intros [= <- <-] W. by apply wf_cancel.
Qed.

#[local] Hint Resolve wf_setTimeout wf_setInterval wf_schedule wf_raf wf_clearTimer wf_cancel : wf.

Lemma wf_verifyCaptcha s h : wfHost h -> wfHost (snd (Captcha.verifyCaptcha s h)).
Proof. intros. unfold Captcha.verifyCaptcha. case_match; cbn [snd]; auto with wf. Qed.

Lemma wf_spawnHeart env s h : wfHost h -> wfHost (snd (Hearts.spawnHeart env s h)).
Proof. intros. unfold Hearts.spawnHeart. cbn [snd]. auto with wf. Qed.

Lemma wf_spawnSoon n i h : wfHost h -> wfHost (Hearts.spawnSoon n i h).
Proof.
  revert i h. induction n as [|n IH]; intros i h W; cbn [Hearts.spawnSoon]; [done|].
  apply IH. auto with wf.
Qed.

Lemma wf_startFloatingHearts s h :
  wfHost h -> wfHost (snd (Hearts.startFloatingHearts s h)).
Proof.
  intros. unfold Hearts.startFloatingHearts. case_match; [done|].
  destruct (Host.setInterval SpawnHeart 400 h) as [id h1] eqn:E. cbn [snd].
  apply wf_spawnSoon. replace h1 with (snd (Host.setInterval SpawnHeart 400 h)) by (by rewrite E).
  auto with wf.
Qed.

Lemma wf_stopFloatingHearts s h : wfHost h -> wfHost (snd (Hearts.stopFloatingHearts s h)).
Proof. intros. unfold Hearts.stopFloatingHearts. case_match; cbn [snd]; auto with wf. Qed.

Lemma wf_evadeNoButton env e s h :
  wfHost h -> wfHost (snd (Evasion.evadeNoButton env e s h)).
Proof.
  intros. unfold Evasion.evadeNoButton.
  destruct (Evasion.noButtonGone s); [done|].
  destruct (Evasion.triggers env e s); [|done].
  destruct (_ <=? _)%nat; [cbn [snd]; auto with wf|].
  by destruct (Evasion.sampleLoop _ _ _ _ _ _ _ _) as [[[? ?] ?]|].
Qed.

Lemma wf_animateStars env s h : wfHost h -> wfHost (snd (Starfield.animateStars env s h)).
Proof. intros. unfold Starfield.animateStars. apply (wf_raf StarFrame h). done. Qed.

Lemma wf_startStarfield env s h : wfHost h -> wfHost (snd (Starfield.startStarfield env s h)).
Proof.
  intros. unfold Starfield.startStarfield. case_match; [done|]. by apply wf_animateStars.
Qed.

Lemma wf_stopStarfield s h : wfHost h -> wfHost (snd (Starfield.stopStarfield s h)).
Proof. intros. unfold Starfield.stopStarfield. cbn [snd]. case_match; auto with wf. Qed.

Lemma wf_onResize s h : wfHost h -> wfHost (snd (Starfield.onResize s h)).
Proof.
  intros W. unfold Starfield.onResize. cbv zeta.
  set (hs1 := match Starfield.starResizeTimer s with
              | Some id => Host.clearTimer id h
              | None => h
              end).
  assert (wfHost hs1) as W1 by (unfold hs1; case_match; auto with wf).
  destruct (Host.setTimeout StarResize 250 hs1) as [id h2] eqn:E. cbn [snd].
  replace h2 with (snd (Host.setTimeout StarResize 250 hs1)) by (by rewrite E).
  auto with wf.
Qed.

Lemma wf_stopSideGalleries s h : wfHost h -> wfHost (snd (Gallery.stopSideGalleries s h)).
Proof.
  intros. unfold Gallery.stopSideGalleries. repeat case_match; simplify_eq; cbn [snd];
    auto with wf.
Qed.

Lemma wf_startSideGalleries s h : wfHost h -> wfHost (snd (Gallery.startSideGalleries s h)).
Proof.
  intros W. unfold Gallery.startSideGalleries.
  pose proof (wf_stopSideGalleries s h W) as G.
  destruct (Gallery.stopSideGalleries s h) as [s1 hs1]. cbn [snd] in G.
  apply (wf_setTimeout StartRightGallery 2000), (wf_setInterval AdvanceLeft 4000), G.
Qed.

Lemma wf_startRight s h : wfHost h -> wfHost (snd (Gallery.startRight s h)).
Proof. intros. unfold Gallery.startRight. by apply (wf_setInterval AdvanceRight 4000). Qed.

Lemma wf_showGallery s h : wfHost h -> wfHost (snd (Gallery.showGallery s h)).
Proof. intros. by apply wf_startSideGalleries. Qed.

Lemma wf_resetGallery s h : wfHost h -> wfHost (snd (Gallery.resetGallery s h)).
Proof.
  intros W. unfold Gallery.resetGallery. pose proof (wf_stopSideGalleries s h W) as G.
  by destruct (Gallery.stopSideGalleries s h).
Qed.

Lemma wf_animateConfetti env s h : wfHost h -> wfHost (snd (Confetti.animateConfetti env s h)).
Proof.
  intros. unfold Confetti.animateConfetti. case_match; [|done].
  by apply (wf_raf ConfettiFrame h).
Qed.

Lemma wf_launchConfetti env s h : wfHost h -> wfHost (snd (Confetti.launchConfetti env s h)).
Proof.
  intros. unfold Confetti.launchConfetti. cbv zeta. case_match.
  - cbn [snd]. auto with wf.
  - apply wf_animateConfetti. auto with wf.
Qed.

Lemma wf_confettiReset s h : wfHost h -> wfHost (snd (Confetti.replayReset s h)).
Proof. intros. unfold Confetti.replayReset. cbn [snd]. case_match; auto with wf. Qed.

Lemma wf_typeHTMLContent target html r next s h :
  wfHost h -> wfHost (snd (Typewriter.typeHTMLContent target html r next s h)).
Proof. intros. unfold Typewriter.typeHTMLContent. cbn [snd]. auto with wf. Qed.

Lemma wf_typeNextLine r i s h :
  wfHost h -> wfHost (snd (fst (Typewriter.typeNextLine r i s h))).
Proof.
  intros. unfold Typewriter.typeNextLine. repeat case_match; cbn [fst snd]; auto with wf.
  by apply wf_typeHTMLContent.
Qed.

Lemma wf_startTypewriter cb s h :
  wfHost h -> wfHost (snd (fst (Typewriter.startTypewriter cb s h))).
Proof. intros. unfold Typewriter.startTypewriter. by apply wf_typeNextLine. Qed.

Lemma wf_typeNext env ty b i s h :
  wfHost h -> wfHost (snd (Typewriter.typeNext env ty b i s h)).
Proof.
  intros. unfold Typewriter.typeNext. repeat case_match; cbn [fst snd]; auto with wf.
Qed.

#[local] Hint Resolve wf_verifyCaptcha wf_spawnHeart wf_startFloatingHearts
  wf_stopFloatingHearts wf_evadeNoButton wf_animateStars wf_startStarfield wf_stopStarfield
  wf_onResize wf_stopSideGalleries wf_startSideGalleries wf_startRight wf_showGallery
  wf_resetGallery wf_animateConfetti wf_launchConfetti wf_confettiReset wf_typeNextLine
  wf_startTypewriter wf_typeNext : wf.

Lemma wf_runTask env task a : wfHost (host a) -> wfHost (host (runTask env task a)).
Proof.
  intros W. destruct task; unfold runTask, later, showPage; on_eq; proj_simpl;
    auto 10 with wf.
Qed.

Lemma wf_dispatch env ev a : wfHost (host a) -> wfHost (host (dispatch env ev a)).
Proof.
  intros W. destruct ev; cbn [dispatch].
  - unfold toggle. by case_match.
  - unfold toggle. by repeat case_match.
  - on_eq. proj_simpl. auto with wf.
  - unfold mousemove. repeat case_match; try done. on_eq. proj_simpl. auto with wf.
  - unfold touchmove. case_match; [|done]. on_eq. proj_simpl. auto with wf.
  - unfold touchstart. on_eq. proj_simpl. auto with wf.
  - unfold yesClick, later. on_eq. proj_simpl. auto 10 with wf.
  - unfold openEnvelope, later. case_match; [|done]. proj_simpl. auto with wf.
  - unfold openEnvelope, later. repeat case_match; try done; proj_simpl; auto with wf.
  - unfold resize. on_eq. proj_simpl. auto with wf.
  - unfold replay, showPage. on_eq. proj_simpl. auto 12 with wf.
  - destruct (Host.takeTimer id (host a)) as [[t hs]|] eqn:E; [|done].
    apply wf_runTask. proj_simpl. by eapply wf_takeTimer.
  - destruct (Host.takeFrame id (host a)) as [[t hs]|] eqn:E; [|done].
    apply wf_runTask. proj_simpl. by eapply wf_takeFrame.
Qed.

Lemma wf_host_reachable a : reachable a -> wfHost (host a).
Proof.
  intros (m & env0 & evs & ->).
  assert (forall a, wfHost (host a) -> wfHost (host (run evs a))) as H.
  { induction evs as [|[env ev] evs IH]; intros a P; simpl; [done|].
    apply IH. by apply wf_dispatch. }
  apply H. apply wf_empty.
Qed.


(** ** The starfield and its callbacks *)

Ltac nos := unfold notOfStars; intros; split; congruence.

Lemma starfield_invoke cb a : starfield (invoke cb a) = starfield a.
Proof. by destruct cb as [[]|]. Qed.

Lemma runTask_star env task a h0 :
  hostGrows notOfStars h0 (host a) ->
  task <> StarFrame -> task <> StarResize -> task <> StartStarfield ->
  starfield (runTask env task a) = starfield a /\
  hostGrows notOfStars h0 (host (runTask env task a)).
Proof.
  intros G N1 N2 N3.
  destruct task; try done; unfold runTask, later, showPage; on_eq;
    rewrite ?starfield_invoke; proj_simpl;
    (split; [done|]); (eapply grow_trans; [exact G|]).
  - apply grow_raf; nos.
  - eapply grow_trans; [|apply grow_startFloatingHearts; nos]. apply grow_raf; nos.
  - apply grow_spawnHeart. nos.
  - eapply grow_trans; [|apply grow_setTimeout; nos]. apply grow_raf; nos.
  - eapply grow_trans; [|apply grow_setTimeout; nos]. apply grow_showGallery; nos.
  - apply grow_startTypewriter; nos.
  - apply grow_animateConfetti. nos.
  - apply grow_typeNextLine; nos.
  - apply grow_typeNext; nos.
  - apply grow_startRight. nos.
Qed.

Lemma task_of_stars task :
  task = StarFrame \/ task = StarResize \/ task = StartStarfield \/
  (task <> StarFrame /\ task <> StarResize /\ task <> StartStarfield).
Proof. destruct task; auto; right; right; right; repeat split; congruence. Qed.

Lemma runTask_starStep env task a a0 :
  hostGrows notOfStars (host a0) (host a) -> starfield a = starfield a0 ->
  task <> StarFrame ->
  starStep a0 (runTask env task a).
Proof.
  intros G E N. destruct (task_of_stars task) as [->|[->|[->|(N1 & N2 & N3)]]]; [done| | |].
  - apply (st_resized _ _ env); [by rewrite <- E|]. apply G.
  - eapply (st_start _ _ env); [exact G|]. unfold runTask. on_eq. proj_simpl.
    rewrite <- E. apply surjective_pairing.
  - destruct (runTask_star env task a (host a0) G N1 N2 N3) as [S G'].
    apply st_quiet; [congruence|done].
Qed.

Lemma dispatch_star env ev a :
  (forall t, t ∈ Host.timers (host a) -> Host.timer_task t <> StarFrame) ->
  starStep a (dispatch env ev a).
Proof.
  intros NT. destruct ev; cbn [dispatch].
  - apply st_quiet; unfold toggle; case_match; try done; apply grow_refl.
  - apply st_quiet; unfold toggle; repeat case_match; try done; apply grow_refl.
  - on_eq. apply st_quiet; [done|]. proj_simpl. apply grow_verifyCaptcha; nos.
  - unfold mousemove. repeat case_match; try (apply st_quiet; [done|apply grow_refl]).
    on_eq. apply st_quiet; [done|]. proj_simpl. apply grow_evadeNoButton; nos.
  - unfold touchmove. case_match; [|apply st_quiet; [done|apply grow_refl]].
    on_eq. apply st_quiet; [done|]. proj_simpl. apply grow_evadeNoButton; nos.
  - unfold touchstart. on_eq. apply st_quiet; [done|]. proj_simpl.
    apply grow_evadeNoButton; nos.
  - unfold yesClick, later. on_eq. proj_simpl. apply st_quiet; [done|]. proj_simpl.
    eapply grow_trans; [|apply grow_setTimeout; nos].
    eapply grow_trans; [|apply grow_setTimeout; nos].
    eapply grow_trans; [|apply grow_launchConfetti; nos]. apply grow_stopFloatingHearts.
  - unfold openEnvelope, later. case_match; apply st_quiet; try done; try apply grow_refl.
    proj_simpl. apply grow_setTimeout; nos.
  - unfold openEnvelope, later.
    repeat case_match; apply st_quiet; try done; try apply grow_refl.
    proj_simpl. apply grow_setTimeout; nos.
  - unfold resize. on_eq. proj_simpl. eapply st_debounce; [apply grow_refl|].
    proj_simpl. apply surjective_pairing.
  - unfold replay, showPage. on_eq. proj_simpl.
    eapply st_stop; proj_simpl.
    + apply grow_resetGallery.
    + apply surjective_pairing.
    + eapply grow_trans; [apply grow_confettiReset|].
      eapply grow_trans; [apply grow_stopFloatingHearts|]. apply grow_raf; nos.
  - destruct (Host.takeTimer id (host a)) as [[task hs]|] eqn:E;
      [|apply st_quiet; [done|apply grow_refl]].
    apply runTask_starStep; proj_simpl; [by eapply grow_takeTimer|done|].
    destruct (takeTimer_elem _ _ _ _ E) as (x & Hx & _ & <- & _). by apply NT.
  - destruct (Host.takeFrame id (host a)) as [[task hs]|] eqn:E;
      [|apply st_quiet; [done|apply grow_refl]].
    assert (task = StarFrame \/ task <> StarFrame) as [->|Hne]
      by (destruct task; auto; right; congruence).
    + eapply st_tick; [exact E|]. unfold runTask. on_eq. proj_simpl.
      apply surjective_pairing.
    + apply runTask_starStep; proj_simpl; [by eapply grow_takeFrame|done|done].
Qed.

Lemma grows_star_timer h h' t :
  hostGrows notOfStars h h' -> t ∈ Host.timers h' ->
  Host.timer_task t = StarFrame \/ Host.timer_task t = StarResize -> t ∈ Host.timers h.
Proof.
  intros G Ht Hk. destruct (grow_timer_elem _ _ _ _ G Ht) as [|[N1 N2]]; [done|].
  by destruct Hk.
Qed.

Lemma grows_star_frame h h' f :
  hostGrows notOfStars h h' -> f ∈ Host.frames h' ->
  Host.frame_task f = StarFrame \/ Host.frame_task f = StarResize -> f ∈ Host.frames h.
Proof.
  intros G Hf Hk. destruct (grow_frame_elem _ _ _ _ G Hf) as [|[N1 N2]]; [done|].
  by destruct Hk.
Qed.

(** The part of the invariant that speaks of the tables only, for a
    starfield state whose handles are [anim] and [rs]. *)
Lemma star_tables_grow h h' anim rs :
  hostGrows notOfStars h h' ->
  (forall t, t ∈ Host.timers h -> Host.timer_task t <> StarFrame) ->
  (forall f, f ∈ Host.frames h -> Host.frame_task f <> StarResize) ->
  (forall f, f ∈ Host.frames h -> Host.frame_task f = StarFrame -> anim = Some (Host.frame_id f)) ->
  (forall t, t ∈ Host.timers h -> Host.timer_task t = StarResize -> rs = Some (Host.timer_id t)) ->
  (forall t, t ∈ Host.timers h' -> Host.timer_task t <> StarFrame) /\
  (forall f, f ∈ Host.frames h' -> Host.frame_task f <> StarResize) /\
  (forall f, f ∈ Host.frames h' -> Host.frame_task f = StarFrame -> anim = Some (Host.frame_id f)) /\
  (forall t, t ∈ Host.timers h' -> Host.timer_task t = StarResize -> rs = Some (Host.timer_id t)).
Proof.
  intros G A B C D. repeat split.
  - intros t Ht E. apply (A t); [|done]. eapply grows_star_timer; eauto.
  - intros f Hf E. apply (B f); [|done]. eapply grows_star_frame; eauto.
  - intros f Hf E. apply C; [|done]. eapply grows_star_frame; eauto.
  - intros t Ht E. apply D; [|done]. eapply grows_star_timer; eauto.
Qed.

Lemma starInv_step a a' : starStep a a' -> starInv a -> starInv a'.
Proof.
  intros St (A & B & C & D & E). unfold starInv.
  destruct St as [S G|env S G|h1 G R|env id h1 T An|env h1 G S|h1 h2 G1 S G2].
  - rewrite S. destruct (star_tables_grow _ _ _ _ G A B C D) as (A' & B' & C' & D'). done.
  - destruct (star_tables_grow _ _ _ _ G A B C D) as (A' & B' & C' & D').
    rewrite S. unfold Starfield.resized.
    destruct (Starfield.starAnimId (starfield a)) as [i|] eqn:Hi; [|by rewrite Hi].
    cbn [Starfield.createStars Starfield.resizeStarfield Starfield.starAnimId
         Starfield.starResizeTimer Starfield.stars Starfield.painted].
    rewrite Hi. done.
  - destruct (star_tables_grow _ _ _ _ G A B C D) as (A' & B' & C' & D').
    unfold Starfield.onResize in R. cbv zeta in R. injection R as <- <-.
    cbn [Starfield.starAnimId Starfield.starResizeTimer Starfield.stars Starfield.painted
         Host.setTimeout Host.schedule snd fst Host.timers Host.frames].
    assert (forall t,
              t ∈ Host.timers (match Starfield.starResizeTimer (starfield a) with
                               | Some id => Host.clearTimer id h1
                               | None => h1
                               end) ->
              t ∈ Host.timers h1 /\
              (Host.timer_task t = StarResize -> False)) as K.
    { intros t Ht. destruct (Starfield.starResizeTimer (starfield a)) as [i|] eqn:Hi.
      - cbn in Ht. apply list_elem_of_filter in Ht as [Hne Ht]. split; [done|].
        intros Et. specialize (D' t Ht Et). congruence.
      - split; [done|]. intros Et. specialize (D' t Ht Et). congruence. }
    assert (Host.frames (match Starfield.starResizeTimer (starfield a) with
                         | Some id => Host.clearTimer id h1
                         | None => h1
                         end) = Host.frames h1) as Kf by (by case_match).
    rewrite Kf. repeat split; try done.
    + intros t Ht. apply elem_of_app in Ht as [Ht|Ht].
      * destruct (K t Ht) as [Ht' _]. by apply A'.
      * apply list_elem_of_singleton in Ht as ->. done.
    + intros t Ht Et. apply elem_of_app in Ht as [Ht|Ht].
      * destruct (K t Ht) as [_ N]. by destruct N.
      * apply list_elem_of_singleton in Ht as ->. cbn. by case_match.
    + by apply E.
    + by apply E.
  - unfold Host.takeFrame in T. destruct (Host.findFrame id (host a)) as [x|] eqn:F; [|done].
    injection T as Ex <-. unfold Host.findFrame in F. apply find_some in F as [Hx Hid].
    apply bool_decide_eq_true in Hid. apply list_elem_of_In in Hx.
    pose proof (C x Hx Ex) as Hh. rewrite Hid in Hh.
    unfold Starfield.animateStars in An. cbn in An. injection An as <- <-.
    cbn [Starfield.starAnimId Starfield.starResizeTimer Starfield.stars Starfield.painted
         Host.timers Host.frames]. repeat split; try done.
    + intros f Hf. apply elem_of_app in Hf as [Hf|Hf].
      * apply list_elem_of_filter in Hf as [_ Hf]. by apply B.
      * apply list_elem_of_singleton in Hf as ->. done.
    + intros f Hf Ef. apply elem_of_app in Hf as [Hf|Hf].
      * apply list_elem_of_filter in Hf as [Hne Hf]. specialize (C f Hf Ef). congruence.
      * by apply list_elem_of_singleton in Hf as ->.
  - destruct (star_tables_grow _ _ _ _ G A B C D) as (A' & B' & C' & D').
    unfold Starfield.startStarfield in S.
    destruct (Starfield.starAnimId (starfield a)) as [i|] eqn:Hi.
    + injection S as <- <-. rewrite Hi. done.
    + unfold Starfield.animateStars in S. cbn in S. injection S as <- <-.
      cbn [Starfield.starAnimId Starfield.starResizeTimer Starfield.stars Starfield.painted
           Host.timers Host.frames]. repeat split; try done.
      * intros f Hf. apply elem_of_app in Hf as [Hf|Hf]; [by apply B'|].
        apply list_elem_of_singleton in Hf as ->. done.
      * intros f Hf Ef. apply elem_of_app in Hf as [Hf|Hf].
        -- specialize (C' f Hf Ef). congruence.
        -- by apply list_elem_of_singleton in Hf as ->.
  - destruct (star_tables_grow _ _ _ _ G1 A B C D) as (A1 & B1 & C1 & D1).
    unfold Starfield.stopStarfield in S. injection S as <- <-.
    set (h2 := match Starfield.starAnimId (starfield a) with
               | Some id => Host.cancelAnimationFrame id h1
               | None => h1
               end) in *.
    assert (forall t, t ∈ Host.timers h2 -> Host.timer_task t <> StarFrame) as A2.
    { unfold h2. by case_match. }
    assert (forall f, f ∈ Host.frames h2 -> Host.frame_task f <> StarResize) as B2.
    { unfold h2. case_match; [|done]. intros f Hf. cbn in Hf.
      apply list_elem_of_filter in Hf as [_ Hf]. by apply B1. }
    assert (forall f, f ∈ Host.frames h2 -> Host.frame_task f = StarFrame ->
              None = Some (Host.frame_id f)) as C2.
    { unfold h2. intros f Hf Ef. destruct (Starfield.starAnimId (starfield a)) as [i|] eqn:Hi.
      - cbn in Hf. apply list_elem_of_filter in Hf as [Hne Hf]. specialize (C1 f Hf Ef).
        congruence.
      - specialize (C1 f Hf Ef). congruence. }
    assert (forall t, t ∈ Host.timers h2 -> Host.timer_task t = StarResize ->
              Starfield.starResizeTimer (starfield a) = Some (Host.timer_id t)) as D2.
    { unfold h2. by case_match. }
    destruct (star_tables_grow _ _ _ _ G2 A2 B2 C2 D2) as (A' & B' & C' & D').
    cbn [Starfield.starAnimId Starfield.starResizeTimer Starfield.stars Starfield.painted].
    done.
Qed.

Lemma starInv_initial m env0 : starInv (initialApp m env0).
Proof.
  unfold starInv. cbn. repeat split; try done; intros x Hx; by apply elem_of_nil in Hx.
Qed.

Lemma starInv_reachable a : reachable a -> starInv a.
Proof.
  intros (m & env0 & evs & ->).
  assert (forall a, starInv a -> starInv (run evs a)) as H.
  { induction evs as [|[env ev] evs IH]; intros a P; simpl; [done|].
    apply IH. eapply starInv_step; [|exact P]. apply dispatch_star, P. }
  apply H, starInv_initial.
Qed.


(** ** One loop, one debounce *)

Lemma same_key_le_1 {A} (key : A -> positive) (p : A -> bool) (l : list A) (i : positive) :
  NoDup (key <$> l) -> (forall x, x ∈ l -> p x = true -> key x = i) ->
  (length (List.filter p l) <= 1)%nat.
Proof.
  induction l as [|x l IH]; intros Hd Hk; simpl; [lia|].
  rewrite fmap_cons in Hd. apply NoDup_cons in Hd as [Hx Hd].
  assert (forall y, y ∈ l -> p y = true -> key y = i) as Hk'.
  { intros y Hy. apply Hk. by right. }
  destruct (p x) eqn:Px; [|by apply IH].
  simpl. assert (List.filter p l = []) as ->; [|simpl; lia].
  apply filter_none. apply Forall_forall. intros y Hy.
  destruct (p y) eqn:Py; [|done]. exfalso. apply Hx.
  apply list_elem_of_fmap. exists y. split; [|done].
  rewrite (Hk x) by (done || left). symmetry. by apply Hk'.
Qed.

Lemma isStarFrame_eq t : isStarFrame t = true <-> t = StarFrame.
Proof. by destruct t. Qed.

Lemma isStarResize_eq t : isStarResize t = true <-> t = StarResize.
Proof. by destruct t. Qed.

Lemma pendingFrames_nil p h :
  pendingFrames p h = [] <-> forall f, f ∈ Host.frames h -> p (Host.frame_task f) = false.
Proof.
  unfold pendingFrames. split.
  - intros E f Hf. destruct (p (Host.frame_task f)) eqn:Pf; [|done].
    assert (f ∈ List.filter (fun f => p (Host.frame_task f)) (Host.frames h)) as H.
    { apply list_elem_of_In, filter_In. split; [by apply list_elem_of_In|done]. }
    rewrite E in H. by apply elem_of_nil in H.
  - intros H. apply filter_none, Forall_forall. intros f Hf. by apply H.
Qed.

Lemma reachable_dispatch env ev a : reachable a -> reachable (dispatch env ev a).
Proof.
  intros (m & env0 & evs & ->). exists m, env0, (evs ++ [(env, ev)]).
  generalize (initialApp m env0).
  induction evs as [|[e ev'] evs IH]; intros b; simpl; [done|]. apply IH.
Qed.

(** X9. In every reachable state the loop of the starfield has at most one
    frame pending, the one [starAnimId] names, and none among the timers;
    when [starAnimId] is null nothing of the loop is pending and there are
    no stars and nothing painted. The replay handler leaves the starfield
    in that state: [stopStarfield] does stop the loop. *)
Theorem star_loop_is_single (a : App) :
  reachable a ->
  let s := starfield a in
  (length (pendingFrames isStarFrame (host a)) <= 1)%nat /\
  (forall f, f ∈ pendingFrames isStarFrame (host a) ->
     Starfield.starAnimId s = Some (Host.frame_id f)) /\
  pendingTimers isStarFrame (host a) = [] /\
  (Starfield.starAnimId s = None ->
     pendingFrames isStarFrame (host a) = [] /\
     Starfield.stars s = [] /\ Starfield.painted s = []) /\
  (forall env,
     Starfield.starAnimId (starfield (replay env a)) = None /\
     pendingFrames isStarFrame (host (replay env a)) = []).
Proof.
  intros R s. destruct (starInv_reachable a R) as (A & B & C & D & E).
  destruct (wf_host_reachable a R) as [_ [_ Hd]]. fold s in C, D, E.
  assert (forall f, f ∈ pendingFrames isStarFrame (host a) ->
            Starfield.starAnimId s = Some (Host.frame_id f)) as C'.
  { intros f Hf. apply list_elem_of_In, filter_In in Hf as [Hf Ef].
    apply C; [by apply list_elem_of_In|by apply isStarFrame_eq]. }
  refine (conj _ (conj C' (conj _ (conj _ _)))).
  - destruct (Starfield.starAnimId s) as [i|] eqn:Hi.
    + apply (same_key_le_1 Host.frame_id _ _ i Hd). intros f Hf Ef.
      apply isStarFrame_eq in Ef. specialize (C f Hf Ef). congruence.
    + assert (pendingFrames isStarFrame (host a) = []) as ->; [|simpl; lia].
      apply pendingFrames_nil. intros f Hf. destruct (isStarFrame _) eqn:Ef; [|done].
      apply isStarFrame_eq in Ef. specialize (C f Hf Ef). congruence.
  - apply filter_none, Forall_forall. intros t Ht. destruct (isStarFrame _) eqn:Et; [|done].
    apply isStarFrame_eq in Et. by destruct (A t Ht).
  - intros Hn. split; [|by apply E]. apply pendingFrames_nil. intros f Hf.
    destruct (isStarFrame _) eqn:Ef; [|done].
    apply isStarFrame_eq in Ef. specialize (C f Hf Ef). congruence.
  - intros env.
    assert (reachable (replay env a)) as R' by apply (reachable_dispatch env ReplayClick a R).
    destruct (starInv_reachable _ R') as (_ & _ & C2 & _).
    assert (Starfield.starAnimId (starfield (replay env a)) = None) as Hn
      by (by rewrite replay_eq).
    split; [done|]. apply pendingFrames_nil. intros f Hf.
    destruct (isStarFrame _) eqn:Ef; [|done].
    apply isStarFrame_eq in Ef. specialize (C2 f Hf Ef). congruence.
Qed.

Lemma star_loop_is_single_witness :
  let a := run ((Sample.env 0, YesClick) :: Sample.fires [2; 4]%positive) Sample.app in
  reachable a /\
  Host.frame_id <$> pendingFrames isStarFrame (host a) = [3%positive] /\
  Starfield.starAnimId (starfield a) = Some 3%positive /\
  length (Starfield.stars (starfield a)) = 200%nat.
Proof.
  intros a. assert (reachable a) as R by apply reachable_run.
  assert (Host.frame_id <$> pendingFrames isStarFrame (host a) = [3%positive]) as E
    by (vm_compute; reflexivity).
  refine (conj R (conj E (conj _ _))).
  - destruct (star_loop_is_single a R) as (_ & H & _).
    destruct (pendingFrames isStarFrame (host a)) as [|f [|]] eqn:P; try discriminate.
    injection E as E. rewrite <- E. apply H. left.
  - vm_compute. reflexivity.
Defined.

Lemma pendingTimers_le_1 p h i :
  wfHost h ->
  (forall t, t ∈ Host.timers h -> p (Host.timer_task t) = true -> Host.timer_id t = i) ->
  (length (pendingTimers p h) <= 1)%nat.
Proof. intros [[_ Hd] _] H. by apply (same_key_le_1 Host.timer_id _ _ i). Qed.

(** X10. The resize of the starfield is debounced: in every reachable
    state at most one of its timers is pending, the one [starResizeTimer]
    names; and a resize event leaves exactly one pending, newly set to
    fire after 250ms, whatever was pending before. *)
Theorem star_resize_is_debounced (a : App) (env : Env) :
  reachable a ->
  (length (pendingTimers isStarResize (host a)) <= 1)%nat /\
  (forall t, t ∈ pendingTimers isStarResize (host a) ->
     Starfield.starResizeTimer (starfield a) = Some (Host.timer_id t)) /\
  let a' := dispatch env Resize a in
  pendingTimers isStarResize (host a') =
    [{| Host.timer_id := Host.nextTimer (host a); Host.timer_kind := Host.Timeout;
        Host.timer_delay := 250; Host.timer_task := StarResize |}] /\
  Starfield.starResizeTimer (starfield a') = Some (Host.nextTimer (host a)).
Proof.
  intros R. destruct (starInv_reachable a R) as (A & B & C & D & E).
  pose proof (wf_host_reachable a R) as W.
  assert (forall t, t ∈ pendingTimers isStarResize (host a) ->
            Starfield.starResizeTimer (starfield a) = Some (Host.timer_id t)) as D'.
  { intros t Ht. apply list_elem_of_In, filter_In in Ht as [Ht Et].
    apply D; [by apply list_elem_of_In|by apply isStarResize_eq]. }
  refine (conj _ (conj D' _)).
  - destruct (Starfield.starResizeTimer (starfield a)) as [i|] eqn:Hi.
    + apply (pendingTimers_le_1 _ _ i W). intros t Ht Et.
      apply isStarResize_eq in Et. specialize (D t Ht Et). congruence.
    + assert (pendingTimers isStarResize (host a) = []) as ->; [|simpl; lia].
      apply filter_none, Forall_forall. intros t Ht. destruct (isStarResize _) eqn:Et; [|done].
      apply isStarResize_eq in Et. specialize (D t Ht Et). congruence.
  - cbn [dispatch]. unfold resize. on_eq. proj_simpl.
    unfold Starfield.onResize. cbv zeta.
    cbn [fst snd Host.setTimeout Host.schedule Starfield.starResizeTimer Host.timers].
    assert (forall h, Host.nextTimer
              (match Starfield.starResizeTimer (starfield a) with
               | Some id => Host.clearTimer id h
               | None => h
               end) = Host.nextTimer h) as N by (intros h; by case_match).
    rewrite N. split; [|done].
    unfold pendingTimers. cbn [Host.timers]. rewrite List.filter_app. cbn.
    assert (List.filter (fun t => isStarResize (Host.timer_task t))
              (Host.timers (match Starfield.starResizeTimer (starfield a) with
                            | Some id => Host.clearTimer id (host a)
                            | None => host a
                            end)) = []) as ->; [|done].
    apply filter_none, Forall_forall. intros t Ht.
    destruct (isStarResize _) eqn:Et; [|done]. apply isStarResize_eq in Et. exfalso.
    destruct (Starfield.starResizeTimer (starfield a)) as [i|] eqn:Hi.
    + cbn in Ht. apply list_elem_of_filter in Ht as [Hne Ht]. specialize (D t Ht Et).
      congruence.
    + specialize (D t Ht Et). congruence.
Qed.

Lemma star_resize_is_debounced_witness :
  let a := run [(Sample.env 0, Resize); (Sample.env 0, Resize)] Sample.app in
  reachable a /\
  Host.timer_id <$> pendingTimers isStarResize (host a) = [2%positive] /\
  Host.timer_id <$> pendingTimers isStarResize (host (dispatch (Sample.env 0) Resize a)) =
    [3%positive].
Proof.
  intros a. assert (reachable a) as R by apply reachable_run.
  refine (conj R (conj _ _)).
  - vm_compute. reflexivity.
  - destruct (star_resize_is_debounced a (Sample.env 0) R) as (_ & _ & -> & _).
    vm_compute. reflexivity.
Defined.


(** ** The segments of a line *)

Lemma string_app_nil_r (s : string) : String.append s "" = s.
Proof.
  induction s as [|c s IH]; [done|].
  change (String c (String.append s "") = String c s). by rewrite IH.
Qed.

Lemma string_app_assoc (s1 s2 s3 : string) :
  String.append (String.append s1 s2) s3 = String.append s1 (String.append s2 s3).
Proof.
  induction s1 as [|c s IH]; [done|].
  change (String c (String.append (String.append s s2) s3) =
          String c (String.append s (String.append s2 s3))). by rewrite IH.
Qed.

Lemma spelled_app l1 l2 : spelled (l1 ++ l2) = String.append (spelled l1) (spelled l2).
Proof.
  induction l1 as [|x l1 IH]; [done|].
  rewrite <- app_comm_cons. cbn [spelled fold_right]. fold (spelled (l1 ++ l2)). fold (spelled l1).
  by rewrite IH, string_app_assoc.
Qed.

Lemma substring_0_0 s : substring 0 0 s = EmptyString.
Proof. by destruct s. Qed.

Lemma substring_split s i k :
  (i + k <= String.length s)%nat ->
  String.append (substring 0 i s) (substring i k s) = substring 0 (i + k) s.
Proof.
  revert s. induction i as [|i IH]; intros s H.
  - by rewrite substring_0_0.
  - destruct s as [|c s]; simpl in H; [lia|].
    change (String c (String.append (substring 0 i s) (substring i k s)) =
            String c (substring 0 (i + k) s)).
    by rewrite IH by lia.
Qed.

Lemma substring_all s : substring 0 (String.length s) s = s.
Proof. induction s as [|c s IH]; simpl; [done|]. by rewrite IH. Qed.

Lemma get_substring s i c : String.get i s = Some c -> substring i 1 s = String c EmptyString.
Proof.
  revert s. induction i as [|i IH]; intros [|d s] H; simpl in *; try done.
  - injection H as ->. by rewrite substring_0_0.
  - by apply IH.
Qed.

Lemma get_lt s i c : String.get i s = Some c -> (i < String.length s)%nat.
Proof.
  revert s. induction i as [|i IH]; intros [|d s] H; simpl in *; try done; [lia|].
  apply IH in H. lia.
Qed.

Lemma substring_length_le m k s :
  (String.length (substring m k s) <= String.length s - m)%nat.
Proof.
  revert m k. induction s as [|c s IH]; intros [|m] [|k]; simpl; try lia.
  - specialize (IH 0%nat k). lia.
  - apply IH.
  - apply IH.
Qed.

Lemma index_bounds n p s m :
  String.index n p s = Some m -> p <> EmptyString -> (n <= m /\ m + String.length p <= String.length s)%nat.
Proof.
  intros H Hp. split.
  - revert n m H. induction s as [|c s IH]; intros n m H; simpl in H.
    + destruct n; [destruct p; [done|discriminate]|discriminate].
    + destruct n as [|n].
      * lia.
      * destruct (String.index n p s) as [k|] eqn:E; [|discriminate].
        injection H as <-. apply IH in E. lia.
  - apply index_correct1 in H.
    pose proof (substring_length_le m (String.length p) s) as B. rewrite H in B.
    destruct p; [done|]. simpl in *. lia.
Qed.

Lemma spelled_snoc l seg : spelled (l ++ [seg]) = String.append (spelled l) (content seg).
Proof.
  rewrite spelled_app. f_equal. unfold spelled, fold_right. apply string_app_nil_r.
Qed.

Lemma scan_spelled fuel html i segs :
  (i <= String.length html)%nat -> (String.length html - i <= fuel)%nat ->
  spelled segs = substring 0 i html ->
  spelled (Typewriter.scan fuel html i segs) = html.
Proof.
  revert i segs. induction fuel as [|fuel IH]; intros i segs Hi Hf Hs; cbn [Typewriter.scan].
  - assert (i = String.length html) as -> by lia. by rewrite Hs, substring_all.
  - destruct (i <? String.length html)%nat eqn:E.
    + apply Nat.ltb_lt in E.
      destruct (String.get i html) as [c|] eqn:G.
      2:{ exfalso. destruct (String.get i html) eqn:G' in |- *; [congruence|].
          clear -E G. revert i E G. induction html as [|d s IH]; intros [|i] E G; simpl in *;
            try lia; try discriminate. apply (IH i); [lia|done]. }
      assert (spelled (segs ++ [Build_Segment char (String c EmptyString)]) =
              substring 0 (i + 1) html) as Hchar.
      { rewrite spelled_snoc, Hs. cbn [content]. rewrite <- (get_substring _ _ _ G).
        apply substring_split. lia. }
      destruct (Ascii.eqb c "<") eqn:Ec.
      * destruct (String.index i ">" html) as [tagEnd|] eqn:Ei.
        -- destruct (index_bounds _ _ _ _ Ei) as [B1 B2]; [done|]. simpl in B2.
           apply IH; [lia|lia|].
           rewrite spelled_snoc, Hs. cbn [content].
           rewrite substring_split by lia. f_equal. lia.
        -- apply IH; [lia|lia|done].
      * apply IH; [lia|lia|done].
    + apply Nat.ltb_ge in E. assert (i = String.length html) as -> by lia.
      by rewrite Hs, substring_all.
Qed.

Lemma parse_spelled (html : string) : spelled (Typewriter.parse html) = html.
Proof.
  unfold Typewriter.parse. apply scan_spelled; [lia|lia|]. by rewrite substring_0_0.
Qed.

Lemma substring_split_at s i a b :
  (i + a + b <= String.length s)%nat ->
  String.append (substring i a s) (substring (i + a) b s) = substring i (a + b) s.
Proof.
  revert s. induction i as [|i IH]; intros s H.
  - apply substring_split. lia.
  - destruct s as [|c s]; simpl in H; [lia|]. apply IH. lia.
Qed.

Lemma substring_length s n k :
  (n + k <= String.length s)%nat -> String.length (substring n k s) = k.
Proof.
  revert n k. induction s as [|c s IH]; intros [|n] [|k] H; simpl in *; try lia; try done.
  - by rewrite IH by lia.
  - apply IH. lia.
  - apply IH. lia.
Qed.

Lemma substring_substring s n k m :
  (m + 1 <= k)%nat -> substring m 1 (substring n k s) = substring (n + m) 1 s.
Proof.
  intros H. apply get_correct. intros p. destruct p as [|p].
  - rewrite (substring_correct1 (substring n k s) m 1 0) by lia.
    rewrite (substring_correct1 s n k (0 + m)) by lia.
    rewrite (substring_correct1 s (n + m) 1 0) by lia.
    f_equal. lia.
  - by rewrite !substring_correct2 by lia.
Qed.

Lemma tag_wellFormed html i e :
  String.get i html = Some "<"%char -> String.index i ">" html = Some e ->
  exists body,
    substring i (e + 1 - i) html = String "<"%char (String.append body ">") /\
    String.index 0 ">" body = None.
Proof.
  intros G Ei. destruct (index_bounds _ _ _ _ Ei) as [B1 B2]; [done|]. simpl in B2.
  pose proof (index_correct1 _ _ _ _ Ei) as He. simpl in He.
  pose proof (get_substring _ _ _ G) as Hi.
  assert (i <> e) as Hne by (intros ->; rewrite Hi in He; discriminate).
  exists (substring (i + 1) (e - i - 1) html). split.
  - replace (e + 1 - i)%nat with (1 + ((e - i - 1) + 1))%nat by lia.
    rewrite <- substring_split_at by lia. rewrite Hi.
    rewrite <- substring_split_at by lia.
    replace (i + 1 + (e - i - 1))%nat with e by lia. by rewrite He.
  - destruct (String.index 0 ">" (substring (i + 1) (e - i - 1) html)) as [m|] eqn:Em; [|done].
    exfalso.
    destruct (index_bounds _ _ _ _ Em) as [_ Bm]; [done|]. simpl in Bm.
    rewrite substring_length in Bm by lia.
    apply index_correct1 in Em. simpl in Em. rewrite substring_substring in Em by lia.
    by apply (index_correct2 _ _ _ _ Ei (i + 1 + m)%nat); [lia|lia|].
Qed.

Lemma scan_wellFormed fuel html i segs :
  Forall wellFormedSegment segs ->
  Forall wellFormedSegment (Typewriter.scan fuel html i segs).
Proof.
  revert i segs. induction fuel as [|fuel IH]; intros i segs Hs; cbn [Typewriter.scan]; [done|].
  destruct (i <? String.length html)%nat; [|done].
  destruct (String.get i html) as [c|] eqn:G; [|done].
  assert (Forall wellFormedSegment (segs ++ [Build_Segment char (String c EmptyString)])) as Hc.
  { apply Forall_app. split; [done|]. by repeat constructor. }
  destruct (Ascii.eqb c "<") eqn:Ec; [|by apply IH].
  apply Ascii.eqb_eq in Ec. subst c.
  destruct (String.index i ">" html) as [e|] eqn:Ei; [|by apply IH].
  apply IH. apply Forall_app. split; [done|]. constructor; [|done].
  unfold wellFormedSegment. cbn [type content]. by apply tag_wellFormed.
Qed.

(** X11. The segments into which [typeHTMLContent] cuts a line spell the
    line: concatenated in order, their contents are the markup itself. Every
    tag segment runs from a [<] to the first [>] after it, and every other
    segment is a single character. *)
Theorem parse_spells_markup (html : string) :
  spelled (Typewriter.parse html) = html /\
  Forall wellFormedSegment (Typewriter.parse html).
Proof. split; [apply parse_spelled|]. apply scan_wellFormed. constructor. Qed.

(** ** The state of the typewriter *)

Lemma runTask_typewriter env task a :
  typewriterStep (typewriter a) (typewriter (runTask env task a)).
Proof.
  destruct task; unfold runTask, later, showPage; on_eq'; proj_simpl; try apply ts_same.
  - apply ts_start.
  - apply ts_line.
  - apply (ts_next _ env).
Qed.

Lemma dispatch_typewriter env ev a :
  typewriterStep (typewriter a) (typewriter (dispatch env ev a)).
Proof.
  destruct ev; cbn [dispatch].
  - unfold toggle. case_match; apply ts_same.
  - unfold toggle. repeat case_match; apply ts_same.
  - on_eq'. apply ts_same.
  - unfold mousemove. repeat case_match; on_eq'; apply ts_same.
  - unfold touchmove. case_match; on_eq'; apply ts_same.
  - unfold touchstart. on_eq'. apply ts_same.
  - unfold yesClick, later. on_eq'. proj_simpl. apply ts_same.
  - unfold openEnvelope, later. case_match; apply ts_same.
  - unfold openEnvelope, later. repeat case_match; apply ts_same.
  - unfold resize. on_eq'. apply ts_same.
  - rewrite replay_eq. proj_simpl. apply ts_reset.
  - destruct (Host.takeTimer id (host a)) as [[t hs]|]; [|apply ts_same].
    apply (runTask_typewriter env t (setHost hs a)).
  - destruct (Host.takeFrame id (host a)) as [[t hs]|]; [|apply ts_same].
    apply (runTask_typewriter env t (setHost hs a)).
Qed.

Lemma clearLines_length origs ls : length (Typewriter.clearLines origs ls) = length ls.
Proof.
  unfold Typewriter.clearLines. revert ls.
  induction origs as [|o origs IH]; intros ls; simpl; [done|]. by rewrite IH, length_insert.
Qed.

Lemma typeNextLine_keeps r i s h :
  Typewriter.typewriterOriginals (fst (fst (Typewriter.typeNextLine r i s h))) =
    Typewriter.typewriterOriginals s /\
  length (Typewriter.lines (fst (fst (Typewriter.typeNextLine r i s h)))) =
    length (Typewriter.lines s).
Proof.
  unfold Typewriter.typeNextLine, Typewriter.typeHTMLContent.
  repeat case_match; cbn; rewrite ?length_insert; done.
Qed.

Lemma letterLoaded_step m s s' : typewriterStep s s' -> letterLoaded m s -> letterLoaded m s'.
Proof.
  intros St [Ho Hl]. destruct St as [|cb h|r i h|env ty b i h|].
  - done.
  - unfold Typewriter.startTypewriter.
    match goal with |- letterLoaded m (fst (fst (Typewriter.typeNextLine ?r ?i ?s1 ?h))) =>
      destruct (typeNextLine_keeps r i s1 h) as [E1 E2] end.
    split; [by rewrite E1|]. rewrite E2. cbn. by rewrite clearLines_length.
  - destruct (typeNextLine_keeps r i s h) as [E1 E2]. split; congruence.
  - unfold Typewriter.typeNext. repeat case_match; split; cbn; rewrite ?length_insert; done.
  - unfold Typewriter.resetTypewriter, Typewriter.abort.
    case_match; split; cbn; rewrite ?restoreLines_length; done.
Qed.

Lemma letterLoaded_run m env0 evs : letterLoaded m (typewriter (run evs (initialApp m env0))).
Proof.
  assert (forall a, letterLoaded m (typewriter a) -> letterLoaded m (typewriter (run evs a))) as H.
  { induction evs as [|[env ev] evs IH]; intros a P; simpl; [done|]. apply IH.
    eapply letterLoaded_step; [apply dispatch_typewriter|done]. }
  apply H. split; cbn; [done|]. unfold loadedLines. by rewrite length_map.
Qed.


(** ** Restoring the letter *)

Lemma paint_capture (g : Original -> Typewriter.Line) inst ls0 ls :
  (length ls0 <= length ls)%nat ->
  fold_left (fun ls o => <[el o := g o]> ls) (Typewriter.capture ls0 inst) ls =
  (g <$> Typewriter.capture ls0 inst) ++ drop (length ls0) ls.
Proof.
  revert ls. induction ls0 as [|x ls0 IH] using rev_ind; intros ls H.
  - done.
  - rewrite length_app in H. simpl in H.
    unfold Typewriter.capture in *. rewrite imap_app, fold_left_app. cbn [imap fold_left].
    rewrite IH by lia. rewrite fmap_app. cbn [fmap list_fmap el]. rewrite Nat.add_0_r.
    rewrite insert_app_r_alt by (rewrite length_fmap, length_imap; lia).
    rewrite length_fmap, length_imap, Nat.sub_diag.
    destruct (drop (length ls0) ls) as [|y l] eqn:E.
    { apply (f_equal length) in E. rewrite length_drop in E. simpl in E. lia. }
    cbn [insert list_insert]. rewrite <- app_assoc. cbn [app]. do 2 f_equal.
    rewrite length_app. cbn [length].
    rewrite <- drop_drop, E. done.
Qed.

Lemma capture_lookup m j :
  Typewriter.capture (loadedLines m) (markup_instant m) !! j =
  (fun html => {| el := j; originalHTML := html; isInstant := markup_instant m j |}) <$>
    (markup_lines m !! j).
Proof.
  unfold Typewriter.capture, loadedLines. rewrite list_lookup_imap.
  change (map ?f ?l) with (f <$> l). rewrite list_lookup_fmap.
  by destruct (markup_lines m !! j).
Qed.

Lemma paint_loaded (g : Original -> Typewriter.Line) m ls :
  length ls = length (markup_lines m) ->
  fold_left (fun ls o => <[el o := g o]> ls)
    (Typewriter.capture (loadedLines m) (markup_instant m)) ls =
  g <$> Typewriter.capture (loadedLines m) (markup_instant m).
Proof.
  intros H.
  assert (length (loadedLines m) = length (markup_lines m)) as EL
    by (unfold loadedLines; apply length_map).
  rewrite paint_capture by lia. rewrite EL, <- H, drop_all. apply app_nil_r.
Qed.

(** X12. Whatever the typewriter has shown so far, the replay handler puts
    every line of the letter back as the page was loaded: its own markup,
    no cursor, hidden. *)
Theorem replay_restores_letter (m : Markup) (env0 env : Env) (evs : list (Env * Event)) :
  Typewriter.lines (typewriter (dispatch env ReplayClick (run evs (initialApp m env0)))) =
  loadedLines m.
Proof.
  destruct (letterLoaded_run m env0 evs) as [Ho Hl].
  cbn [dispatch]. rewrite replay_eq. proj_simpl.
  set (s := typewriter (run evs (initialApp m env0))) in *.
  assert (Typewriter.typewriterOriginals (Typewriter.abort s) = Typewriter.typewriterOriginals s /\
          Typewriter.lines (Typewriter.abort s) = Typewriter.lines s) as [E1 E2].
  { unfold Typewriter.abort. by case_match. }
  unfold Typewriter.resetTypewriter. cbn [Typewriter.lines]. rewrite E1, E2, Ho.
  unfold Typewriter.restoreLines. rewrite paint_loaded by done.
  apply list_eq. intros j. rewrite list_lookup_fmap, capture_lookup.
  unfold loadedLines. change (map ?f ?l) with (f <$> l). rewrite list_lookup_fmap.
  by destruct (markup_lines m !! j).
Qed.


(** ** The side galleries *)

Lemma gallery_invoke cb a : gallery (invoke cb a) = gallery a.
Proof. by destruct cb as [[]|]. Qed.

Lemma stopSideGalleries_slides s h :
  let s' := fst (Gallery.stopSideGalleries s h) in
  Gallery.leftSlideIdx s' = Gallery.leftSlideIdx s /\
  Gallery.rightSlideIdx s' = Gallery.rightSlideIdx s /\
  Gallery.galleryLeftTrack s' = Gallery.galleryLeftTrack s /\
  Gallery.galleryRightTrack s' = Gallery.galleryRightTrack s.
Proof.
  unfold Gallery.stopSideGalleries, Gallery.setIds.
  destruct (Gallery.leftAutoPlayId s) eqn:E1; destruct (Gallery.rightAutoPlayId s) eqn:E2;
    cbn; rewrite ?E1, ?E2; cbn; done.
Qed.

Lemma startSideGalleries_slides s h :
  let s' := fst (Gallery.startSideGalleries s h) in
  Gallery.leftSlideIdx s' = Gallery.leftSlideIdx s /\
  Gallery.rightSlideIdx s' = Gallery.rightSlideIdx s /\
  Gallery.galleryLeftTrack s' = Gallery.galleryLeftTrack s /\
  Gallery.galleryRightTrack s' = Gallery.galleryRightTrack s.
Proof.
  pose proof (stopSideGalleries_slides s h) as H. unfold Gallery.startSideGalleries.
  destruct (Gallery.stopSideGalleries s h) as [s1 h1]. exact H.
Qed.

Lemma runTask_gallery env task a : galleryStep (gallery a) (gallery (runTask env task a)).
Proof.
  destruct task; unfold runTask, later, showPage; on_eq; rewrite ?gallery_invoke; proj_simpl;
    try (by apply gs_keep).
  - unfold Gallery.showGallery.
    destruct (startSideGalleries_slides (Gallery.setHidden false (gallery a)) (host a))
      as (E1 & E2 & E3 & E4).
    by apply gs_keep.
  - apply gs_advance.
  - apply gs_advance.
Qed.

Lemma dispatch_gallery env ev a : galleryStep (gallery a) (gallery (dispatch env ev a)).
Proof.
  destruct ev; cbn [dispatch].
  - unfold toggle. case_match; by apply gs_keep.
  - unfold toggle. repeat case_match; by apply gs_keep.
  - on_eq. by apply gs_keep.
  - unfold mousemove. repeat case_match; on_eq; by apply gs_keep.
  - unfold touchmove. case_match; on_eq; by apply gs_keep.
  - unfold touchstart. on_eq. by apply gs_keep.
  - unfold yesClick, later. on_eq. proj_simpl. by apply gs_keep.
  - unfold openEnvelope, later. case_match; by apply gs_keep.
  - unfold openEnvelope, later. repeat case_match; by apply gs_keep.
  - unfold resize. on_eq. by apply gs_keep.
  - rewrite replay_eq. proj_simpl.
    rewrite <- (resetGallery_state (gallery a) Host.empty). apply gs_reset.
  - destruct (Host.takeTimer id (host a)) as [[t hs]|]; [|by apply gs_keep].
    apply (runTask_gallery env t (setHost hs a)).
  - destruct (Host.takeFrame id (host a)) as [[t hs]|]; [|by apply gs_keep].
    apply (runTask_gallery env t (setHost hs a)).
Qed.

Lemma onlySlide_lookup n idx i :
  onlySlide n idx !! i = if decide (i < n)%nat then Some (Nat.eqb i idx) else None.
Proof.
  unfold onlySlide. rewrite list_lookup_imap.
  case_decide as H.
  - by rewrite lookup_replicate_2.
  - rewrite lookup_ge_None_2; [done|]. rewrite length_replicate. lia.
Qed.

Lemma onlySlide_length n idx : length (onlySlide n idx) = n.
Proof. unfold onlySlide. by rewrite length_imap, length_replicate. Qed.

Lemma onlySlide_move n idx idx' :
  (idx < n)%nat -> (idx' < n)%nat ->
  <[idx' := true]> (<[idx := false]> (onlySlide n idx)) = onlySlide n idx'.
Proof.
  intros H H'. apply list_eq. intros i. rewrite onlySlide_lookup.
  destruct (decide (i = idx')) as [->|N'].
  - rewrite list_lookup_insert_eq by (rewrite length_insert, onlySlide_length; lia).
    rewrite decide_True by done. by rewrite Nat.eqb_refl.
  - rewrite list_lookup_insert_ne by done.
    destruct (decide (i = idx)) as [->|N].
    + rewrite list_lookup_insert_eq by (rewrite onlySlide_length; lia).
      rewrite decide_True by done. apply Nat.eqb_neq in N'. by rewrite N'.
    + rewrite list_lookup_insert_ne by done. rewrite onlySlide_lookup.
      case_decide; [|done]. apply Nat.eqb_neq in N, N'. by rewrite N, N'.
Qed.

Lemma firstOnly_onlySlide n idx : Gallery.firstOnly (onlySlide n idx) = onlySlide n 0.
Proof.
  apply list_eq. intros i. unfold Gallery.firstOnly. rewrite list_lookup_imap.
  rewrite !onlySlide_lookup. by case_decide.
Qed.

Lemma advance_side m side s :
  galleryInv m s ->
  forall n, sideSlides side m = Some n -> (0 < n)%nat ->
  sideIdx side (Gallery.advanceSideGallery side s) = ((sideIdx side s + 1) mod n)%nat /\
  sideTrack side (Gallery.advanceSideGallery side s) =
    Some (onlySlide n ((sideIdx side s + 1) mod n)).
Proof.
  intros I n Hn Hp. destruct (I side) as [Ht Hi]. rewrite Hn in Ht. cbn in Ht.
  specialize (Hi n Hn Hp).
  assert ((sideIdx side s + 1) mod n < n)%nat as Hm by (apply Nat.mod_upper_bound; lia).
  unfold Gallery.advanceSideGallery.
  destruct side; cbn [sideTrack sideIdx] in *; rewrite Ht; rewrite onlySlide_length;
    (destruct (Nat.eqb_spec n 0) as [->|_]; [lia|]);
    cbn [Gallery.update Gallery.leftSlideIdx Gallery.rightSlideIdx Gallery.galleryLeftTrack
         Gallery.galleryRightTrack];
    by rewrite onlySlide_move.
Qed.

Lemma advance_other side side' s :
  side <> side' ->
  sideIdx side' (Gallery.advanceSideGallery side s) = sideIdx side' s /\
  sideTrack side' (Gallery.advanceSideGallery side s) = sideTrack side' s.
Proof.
  intros N. unfold Gallery.advanceSideGallery.
  destruct side, side'; try done; cbn [sideTrack sideIdx]; repeat case_match; done.
Qed.

Lemma advance_idle side m s :
  galleryInv m s -> (sideSlides side m = None \/ sideSlides side m = Some 0%nat) ->
  Gallery.advanceSideGallery side s = s.
Proof.
  intros I H. destruct (I side) as [Ht _]. unfold Gallery.advanceSideGallery.
  destruct side; cbn [sideTrack sideIdx sideSlides] in *;
    destruct H as [H|H]; rewrite H in Ht; cbn in Ht; rewrite Ht; done.
Qed.

Lemma galleryInv_step m s s' : galleryStep s s' -> galleryInv m s -> galleryInv m s'.
Proof.
  intros St I. destruct St as [s' E1 E2 E3 E4|side|h].
  - intros side. destruct (I side) as [Ht Hi].
    destruct side; cbn [sideTrack sideIdx] in *; rewrite ?E1, ?E2, ?E3, ?E4; done.
  - destruct (sideSlides side m) as [[|n]|] eqn:Hs.
    + rewrite (advance_idle side m s I); [done|by right].
    + destruct (advance_side m side s I (S n) Hs ltac:(lia)) as [A1 A2].
      intros side'. destruct (decide (side = side')) as [<-|N].
      * rewrite A1, A2, Hs. split; [done|]. intros n' [= <-] _.
        apply Nat.mod_upper_bound. lia.
      * destruct (advance_other side side' s N) as [B1 B2]. rewrite B1, B2. apply I.
    + rewrite (advance_idle side m s I); [done|by left].
  - rewrite resetGallery_state. intros side. destruct (I side) as [Ht Hi].
    destruct side; cbn [sideTrack sideIdx] in *; rewrite Ht;
      (split; [|cbn; intros; lia]);
      match goal with |- context [sideSlides ?sd m] => destruct (sideSlides sd m) end; cbn;
      by rewrite ?firstOnly_onlySlide.
Qed.


Lemma galleryInv_run m env0 evs : galleryInv m (gallery (run evs (initialApp m env0))).
Proof.
  assert (forall a, galleryInv m (gallery a) -> galleryInv m (gallery (run evs a))) as H.
  { induction evs as [|[env ev] evs IH]; intros a P; simpl; [done|]. apply IH.
    eapply galleryInv_step; [apply dispatch_gallery|done]. }
  apply H. intros side. destruct side; cbn; (split; [|intros; lia]).
  - by destruct (markup_leftSlides m).
  - by destruct (markup_rightSlides m).
Qed.

Lemma gallery_state_ext s s' :
  Gallery.leftSlideIdx s = Gallery.leftSlideIdx s' ->
  Gallery.rightSlideIdx s = Gallery.rightSlideIdx s' ->
  Gallery.leftAutoPlayId s = Gallery.leftAutoPlayId s' ->
  Gallery.rightAutoPlayId s = Gallery.rightAutoPlayId s' ->
  Gallery.row_hidden s = Gallery.row_hidden s' ->
  Gallery.galleryLeftTrack s = Gallery.galleryLeftTrack s' ->
  Gallery.galleryRightTrack s = Gallery.galleryRightTrack s' -> s = s'.
Proof. destruct s, s'; cbn; by intros -> -> -> -> -> -> ->. Qed.

Lemma advance_rest side s :
  Gallery.leftAutoPlayId (Gallery.advanceSideGallery side s) = Gallery.leftAutoPlayId s /\
  Gallery.rightAutoPlayId (Gallery.advanceSideGallery side s) = Gallery.rightAutoPlayId s /\
  Gallery.row_hidden (Gallery.advanceSideGallery side s) = Gallery.row_hidden s.
Proof. unfold Gallery.advanceSideGallery. destruct side; repeat case_match; done. Qed.

Lemma advances_spec m side n k s :
  galleryInv m s -> sideSlides side m = Some n -> (0 < n)%nat ->
  let s' := Nat.iter k (Gallery.advanceSideGallery side) s in
  galleryInv m s' /\
  sideIdx side s' = ((sideIdx side s + k) mod n)%nat /\
  (forall side', side <> side' ->
     sideIdx side' s' = sideIdx side' s /\ sideTrack side' s' = sideTrack side' s) /\
  Gallery.leftAutoPlayId s' = Gallery.leftAutoPlayId s /\
  Gallery.rightAutoPlayId s' = Gallery.rightAutoPlayId s /\
  Gallery.row_hidden s' = Gallery.row_hidden s.
Proof.
  intros I Hn Hp s'. unfold s'. clear s'. induction k as [|k IH]; [cbn [Nat.iter]|rewrite !Nat.iter_succ].
  - split; [done|]. split; [|done]. rewrite Nat.add_0_r, Nat.mod_small; [done|].
    by apply (proj2 (I side) n).
  - destruct IH as (I' & Hi & Ho & R1 & R2 & R3).
    set (s' := Nat.iter k (Gallery.advanceSideGallery side) s) in *.
    destruct (advance_side m side s' I' n Hn Hp) as [A1 A2].
    destruct (advance_rest side s') as (Q1 & Q2 & Q3).
    split; [eapply galleryInv_step; [apply gs_advance|done]|].
    split.
    { rewrite A1, Hi, Nat.Div0.add_mod_idemp_l. f_equal. lia. }
    split; [|by rewrite Q1, Q2, Q3].
    intros side' N. destruct (advance_other side side' s' N) as [B1 B2].
    destruct (Ho side' N) as [C1 C2]. by rewrite B1, B2.
Qed.

(** X13. In every state the page reaches each gallery track shows exactly
    the slide its index names, and the index stays within the track. *)
Theorem gallery_shows_indexed_slide (m : Markup) (env0 : Env) (evs : list (Env * Event))
    (side : Gallery.Side) :
  let s := gallery (run evs (initialApp m env0)) in
  sideTrack side s = (fun n => onlySlide n (sideIdx side s)) <$> sideSlides side m /\
  (forall n, sideSlides side m = Some n -> (0 < n)%nat -> (sideIdx side s < n)%nat).
Proof. apply (galleryInv_run m env0 evs side). Qed.

(** X14. [advanceSideGallery] steps through a track in a cycle: after [k]
    calls the index has moved on by [k] modulo the number of slides, and
    after as many calls as the track has slides the gallery is again in
    the state it started from. *)
Theorem gallery_advance_cycles (m : Markup) (env0 : Env) (evs : list (Env * Event))
    (side : Gallery.Side) (n k : nat) :
  let s := gallery (run evs (initialApp m env0)) in
  sideSlides side m = Some n -> (0 < n)%nat ->
  sideIdx side (Nat.iter k (Gallery.advanceSideGallery side) s) =
    ((sideIdx side s + k) mod n)%nat /\
  Nat.iter n (Gallery.advanceSideGallery side) s = s.
Proof.
  intros s Hn Hp. pose proof (galleryInv_run m env0 evs) as I. fold s in I.
  split; [apply (advances_spec m side n k s I Hn Hp)|].
  destruct (advances_spec m side n n s I Hn Hp) as (I' & Hi & Ho & R1 & R2 & R3).
  set (s' := Nat.iter n (Gallery.advanceSideGallery side) s) in *.
  assert (sideIdx side s' = sideIdx side s) as Ei.
  { rewrite Hi. replace (sideIdx side s + n)%nat with (sideIdx side s + 1 * n)%nat by lia.
    rewrite Nat.Div0.mod_add. apply Nat.mod_small. by apply (proj2 (I side) n). }
  assert (sideTrack side s' = sideTrack side s) as Et.
  { rewrite (proj1 (I' side)), (proj1 (I side)), Ei. done. }
  destruct side.
  - destruct (Ho Gallery.Right ltac:(done)) as [C1 C2]. by apply gallery_state_ext.
  - destruct (Ho Gallery.Left ltac:(done)) as [C1 C2]. by apply gallery_state_ext.
Qed.

Lemma gallery_advance_cycles_witness :
  let s := gallery (run (Sample.midReveal ++ Sample.fires [2; 2]%positive)
                      (initialApp Sample.markup (Sample.env 0))) in
  sideSlides Gallery.Left Sample.markup = Some 3%nat /\ (0 < 3)%nat /\
  sideIdx Gallery.Left s = 2%nat /\
  sideIdx Gallery.Left (Nat.iter 2 (Gallery.advanceSideGallery Gallery.Left) s) =
    ((sideIdx Gallery.Left s + 2) mod 3)%nat /\
  Nat.iter 3 (Gallery.advanceSideGallery Gallery.Left) s = s.
Proof.
  intros s.
  assert (sideSlides Gallery.Left Sample.markup = Some 3%nat) as H1 by reflexivity.
  assert (0 < 3)%nat as H2 by lia.
  refine (conj H1 (conj H2 (conj _ _))); [vm_compute; reflexivity|].
  exact (gallery_advance_cycles Sample.markup (Sample.env 0)
           (Sample.midReveal ++ Sample.fires [2; 2]%positive) Gallery.Left 3 2 H1 H2).
Defined.


(** ** Typing the letter *)

Lemma fire_typewriter env id a task h1 f :
  Host.takeTimer id (host a) = Some (task, h1) ->
  typewriterTask env task = Some f ->
  typewriter (dispatch env (TimerFires id) a) = fst (fst (f (typewriter a) h1)) /\
  host (dispatch env (TimerFires id) a) = snd (fst (f (typewriter a) h1)) /\
  replayBtn_hidden (dispatch env (TimerFires id) a) =
    afterCallback (snd (f (typewriter a) h1)) (replayBtn_hidden a) /\
  gallery (dispatch env (TimerFires id) a) = gallery a /\
  envelope (dispatch env (TimerFires id) a) = envelope a.
Proof.
  intros T F. cbn [dispatch]. rewrite T.
  destruct task; try discriminate; cbn in F; injection F as <-;
    unfold runTask; on_eq'; rewrite ?gallery_invoke; proj_simpl; done.
Qed.

Lemma takeTimer_fresh task d h :
  wfHost h ->
  exists h1,
    Host.takeTimer (Host.nextTimer h) (snd (Host.setTimeout task d h)) = Some (task, h1) /\
    wfHost h1.
Proof.
  intros W. pose proof (wf_setTimeout task d h W) as W'.
  destruct W as [[Ht _] _].
  unfold Host.takeTimer, Host.findTimer. cbn [Host.setTimeout Host.schedule snd Host.timers].
  assert (forall l, (forall t, t ∈ l -> (Host.timer_id t < Host.nextTimer h)%positive) ->
            forall x, Host.timer_id x = Host.nextTimer h ->
            List.find (fun y => bool_decide (Host.timer_id y = Host.nextTimer h)) (l ++ [x]) =
            Some x) as F.
  { induction l as [|y l IH]; intros Hl x Hx; simpl.
    - by rewrite bool_decide_eq_true_2.
    - rewrite bool_decide_eq_false_2; [apply IH; [|done]|].
      + intros t Hin. apply Hl. by right.
      + specialize (Hl y ltac:(left)). lia. }
  rewrite F; [|done|done]. cbn [Host.timer_task Host.timer_kind].
  eexists. split; [reflexivity|]. by apply wf_clearTimer.
Qed.

Section Reveal.
Variables (m : Markup) (env : Env) (c : nat).

Let origs := Typewriter.capture (loadedLines m) (markup_instant m).
Let rn := {| signal := c; lineData := origs; onComplete := Some ShowReplayButton |}.
Let blank := {| Typewriter.innerHTML := ""; Typewriter.cursor := false;
                Typewriter.active := true |}.

(** The lines while line [j] is the next to be typed. *)
Let linesAt (j : nat) : list Typewriter.Line :=
  take j (typedLetter m) ++ drop j ((fun _ => blank) <$> markup_lines m).

(** From the state of the typewriter [tw], the table [h] and the replay
    button, the pending callbacks lead to the typed letter. *)
Let completes (tw : Typewriter.State) (h : Host.t) (hid : bool) : Prop :=
  exists ids,
    forall a, typewriter a = tw -> host a = h -> replayBtn_hidden a = hid ->
      Typewriter.lines (typewriter (run (firing env ids) a)) = typedLetter m /\
      replayBtn_hidden (run (firing env ids) a) = false /\
      gallery (run (firing env ids) a) = gallery a /\
      envelope (run (firing env ids) a) = envelope a.

Lemma completes_done tw h : Typewriter.lines tw = typedLetter m -> completes tw h false.
Proof. intros H. exists []. intros a <- _ E. by simpl. Qed.

Lemma completes_step tw h hid id task h1 f :
  Host.takeTimer id h = Some (task, h1) ->
  typewriterTask env task = Some f ->
  completes (fst (fst (f tw h1))) (snd (fst (f tw h1))) (afterCallback (snd (f tw h1)) hid) ->
  completes tw h hid.
Proof.
  intros T F [ids H]. exists (id :: ids). intros a E1 E2 E3. subst.
  destruct (fire_typewriter env id a task h1 f T F) as (D1 & D2 & D3 & D4 & D5).
  cbn [firing map run]. fold (firing env ids).
  destruct (H (dispatch env (TimerFires id) a) D1 D2 D3) as (R1 & R2 & R3 & R4).
  by rewrite R3, R4.
Qed.

Lemma completes_scheduled tw h hid task d f :
  wfHost h ->
  typewriterTask env task = Some f ->
  (forall h1, wfHost h1 ->
     completes (fst (fst (f tw h1))) (snd (fst (f tw h1))) (afterCallback (snd (f tw h1)) hid)) ->
  completes tw (snd (Host.setTimeout task d h)) hid.
Proof.
  intros W F H. destruct (takeTimer_fresh task d h W) as (h1 & T & W1).
  eapply completes_step; [exact T|exact F|]. by apply H.
Qed.

Lemma typedLetter_lookup j :
  typedLetter m !! j =
  (fun html => {| Typewriter.innerHTML := html; Typewriter.cursor := false;
                  Typewriter.active := true |}) <$> (markup_lines m !! j).
Proof. unfold typedLetter. change (map ?f ?l) with (f <$> l). apply list_lookup_fmap. Qed.

Lemma typedLetter_length : length (typedLetter m) = length (markup_lines m).
Proof. unfold typedLetter. apply length_map. Qed.

Lemma linesAt_end j : (length (markup_lines m) <= j)%nat -> linesAt j = typedLetter m.
Proof.
  intros H. unfold linesAt.
  rewrite take_ge by (rewrite typedLetter_length; lia).
  rewrite drop_ge by (rewrite length_fmap; lia). apply app_nil_r.
Qed.

(** The lines while line [j] shows [l]. *)
Let linesWith (j : nat) (l : Typewriter.Line) : list Typewriter.Line :=
  take j (typedLetter m) ++ l :: drop (S j) ((fun _ => blank) <$> markup_lines m).

Lemma linesAt_with j html :
  markup_lines m !! j = Some html -> linesAt j = linesWith j blank.
Proof.
  intros H. unfold linesAt, linesWith. f_equal.
  rewrite (drop_S _ blank); [done|]. by rewrite list_lookup_fmap, H.
Qed.

Lemma linesWith_insert j l l' html :
  markup_lines m !! j = Some html -> <[j := l']> (linesWith j l) = linesWith j l'.
Proof.
  intros H. unfold linesWith.
  assert (length (take j (typedLetter m)) = j) as E.
  { rewrite length_take, typedLetter_length. apply lookup_lt_Some in H. lia. }
  rewrite insert_app_r_alt by lia. rewrite E, Nat.sub_diag. done.
Qed.

Lemma linesWith_done j html :
  markup_lines m !! j = Some html ->
  linesWith j {| Typewriter.innerHTML := html; Typewriter.cursor := false;
                 Typewriter.active := true |} = linesAt (S j).
Proof.
  intros H. unfold linesWith, linesAt.
  rewrite (take_S_r _ _ _ (eq_trans (typedLetter_lookup j) (f_equal _ H))).
  by rewrite <- app_assoc.
Qed.

Lemma linesWith_active tw j l :
  Typewriter.lines tw = linesWith j l -> (j < length (markup_lines m))%nat ->
  Typewriter.lineActive tw j = Typewriter.active l.
Proof.
  intros H Hj. unfold Typewriter.lineActive. rewrite H. unfold linesWith.
  rewrite lookup_app_r by (rewrite length_take, typedLetter_length; lia).
  rewrite length_take, typedLetter_length.
  replace (j - j `min` length (markup_lines m))%nat with 0%nat by lia. done.
Qed.

Lemma typeTags_spec segs k :
  (k <= length segs)%nat ->
  match Typewriter.typeTags (drop k segs) (spelled (take k segs)) k with
  | Typewriter.LineDone b => b = spelled segs
  | Typewriter.Character b k' _ =>
      b = spelled (take k' segs) /\ (k < k' <= length segs)%nat
  end.
Proof.
  remember (length segs - k)%nat as n eqn:En. revert k En.
  induction n as [|n IH]; intros k En Hk.
  - rewrite drop_ge by lia. rewrite take_ge by lia. done.
  - destruct (segs !! k) as [seg|] eqn:Es.
    2:{ apply lookup_ge_None in Es. lia. }
    rewrite (drop_S _ _ _ Es). cbn [Typewriter.typeTags].
    assert ((spelled (take k segs) ++ content seg)%string = spelled (take (S k) segs)) as E.
    { rewrite (take_S_r _ _ _ Es). by rewrite spelled_snoc. }
    rewrite E. destruct (type seg).
    + specialize (IH (S k) ltac:(lia) ltac:(lia)).
      destruct (Typewriter.typeTags _ _ _); [done|]. destruct IH as [? ?]. split; [done|lia].
    + split; [done|]. apply lookup_lt_Some in Es. lia.
Qed.

Lemma setLine_lines tw j l : Typewriter.lines (Typewriter.setLine j l tw) = <[j := l]> (Typewriter.lines tw).
Proof. done. Qed.

Lemma setLine_isAborted tw j l x :
  Typewriter.isAborted (Typewriter.setLine j l tw) x = Typewriter.isAborted tw x.
Proof. done. Qed.

(** Typing line [j] from segment [k] on, and then whatever follows the
    line, leads to the typed letter. *)
Lemma line_completes j html hid (k : nat) :
  markup_lines m !! j = Some html ->
  (forall tw h1, Typewriter.isAborted tw c = false -> Typewriter.lines tw = linesAt (S j) ->
     wfHost h1 ->
     completes (fst (fst (Typewriter.typeNextLine rn (S j) tw h1)))
       (snd (fst (Typewriter.typeNextLine rn (S j) tw h1)))
       (afterCallback (snd (Typewriter.typeNextLine rn (S j) tw h1)) hid)) ->
  let typer := {| typer_el := j; segments := Typewriter.parse html;
                  typer_run := rn; typer_next := S j |} in
  forall tw h1 cur,
    (k <= length (Typewriter.parse html))%nat ->
    Typewriter.isAborted tw c = false ->
    Typewriter.lines tw =
      linesWith j {| Typewriter.innerHTML := spelled (take k (Typewriter.parse html));
                     Typewriter.cursor := cur; Typewriter.active := true |} ->
    wfHost h1 ->
    let r := Typewriter.typeNext env typer (spelled (take k (Typewriter.parse html))) k tw h1 in
    completes (fst r) (snd r) hid.
Proof.
  intros Hj Next typer.
  remember (length (Typewriter.parse html) - k)%nat as n eqn:En. revert k En.
  induction n as [n IH] using lt_wf_ind. intros k En tw h1 cur Hk Ha Hl W r.
  assert (j < length (markup_lines m))%nat as Hlt by (by apply lookup_lt_Some in Hj).
  pose proof (typeTags_spec (Typewriter.parse html) k Hk) as Sp.
  unfold r, Typewriter.typeNext, typer. cbn [typer_run typer_el signal segments typer_next].
  change (signal rn) with c.
  rewrite Ha. rewrite (linesWith_active _ _ _ Hl Hlt). cbn [Typewriter.active].
  destruct (Typewriter.typeTags _ _ _) as [b|b k' ch].
  - subst b. rewrite parse_spelled. cbn [fst snd].
    eapply (completes_scheduled _ _ _ _ _ (Typewriter.typeNextLine rn (S j))); [done|done|].
    intros h2 W2. apply Next; [done| |done].
    by rewrite setLine_lines, Hl, (linesWith_insert _ _ _ _ Hj), (linesWith_done _ _ Hj).
  - destruct Sp as [-> Hk']. cbn [fst snd].
    eapply (completes_scheduled _ _ _ _ _
              (fun s hs => (Typewriter.typeNext env typer _ k' s hs, None))); [done|done|].
    intros h2 W2. cbn [fst snd afterCallback].
    eapply (IH (length (Typewriter.parse html) - k')%nat); [lia|done|lia|done| |done].
    rewrite setLine_lines, Hl, (linesWith_insert _ _ _ _ Hj). reflexivity.
Qed.

Lemma lines_complete j :
  forall tw h1 hid,
    Typewriter.isAborted tw c = false -> Typewriter.lines tw = linesAt j -> wfHost h1 ->
    completes (fst (fst (Typewriter.typeNextLine rn j tw h1)))
      (snd (fst (Typewriter.typeNextLine rn j tw h1)))
      (afterCallback (snd (Typewriter.typeNextLine rn j tw h1)) hid).
Proof.
  remember (length (markup_lines m) - j)%nat as n eqn:En. revert j En.
  induction n as [n IH] using lt_wf_ind. intros j En tw h1 hid Ha Hl W.
  unfold Typewriter.typeNextLine. change (signal rn) with c. rewrite Ha.
  change (lineData rn) with (Typewriter.capture (loadedLines m) (markup_instant m)).
  rewrite capture_lookup.
  destruct (markup_lines m !! j) as [html|] eqn:Hj; cbn [fmap option_fmap option_map].
  - assert (j < length (markup_lines m))%nat as Hlt by (by apply lookup_lt_Some in Hj).
    pose proof (linesAt_with _ _ Hj) as Hw. rewrite Hw in Hl.
    assert (forall tw h1,
              Typewriter.isAborted tw c = false -> Typewriter.lines tw = linesAt (S j) ->
              wfHost h1 ->
              completes (fst (fst (Typewriter.typeNextLine rn (S j) tw h1)))
                (snd (fst (Typewriter.typeNextLine rn (S j) tw h1)))
                (afterCallback (snd (Typewriter.typeNextLine rn (S j) tw h1)) hid)) as Next.
    { intros tw' h' Ha' Hl' W'.
      apply (IH (length (markup_lines m) - S j)%nat); [lia|done|done|done|done]. }
    cbn [isInstant el originalHTML]. rewrite (linesWith_active _ _ _ Hl Hlt).
    change (Typewriter.active blank) with true.
    destruct (markup_instant m j); cbn [fst snd afterCallback].
    + eapply (completes_scheduled _ _ _ _ _ (Typewriter.typeNextLine rn (S j))); [done|done|].
      intros h2 W2. apply Next; [done| |done].
      by rewrite setLine_lines, Hl, (linesWith_insert _ _ _ _ Hj), (linesWith_done _ _ Hj).
    + unfold Typewriter.typeHTMLContent. rewrite (linesWith_active _ _ _ Hl Hlt).
      change (Typewriter.active blank) with true. cbn [fst snd].
      eapply (completes_scheduled _ _ _ _ _
                (fun s hs => (Typewriter.typeNext env _ _ 0 s hs, None))); [done|done|].
      intros h2 W2. cbn [fst snd afterCallback].
      apply (line_completes j html hid 0 Hj Next _ _ true); [lia|done| |done].
      by rewrite setLine_lines, Hl, (linesWith_insert _ _ _ _ Hj).
  - cbn [fst snd onComplete rn afterCallback]. apply completes_done.
    rewrite Hl. apply linesAt_end. by apply lookup_ge_None in Hj.
Qed.

Lemma start_completes tw h1 hid :
  c = length (Typewriter.aborted tw) -> letterLoaded m tw -> wfHost h1 ->
  let r := Typewriter.startTypewriter (Some ShowReplayButton) tw h1 in
  completes (fst (fst r)) (snd (fst r)) (afterCallback (snd r) hid).
Proof.
  intros Hc [Ho Hl] W r. unfold r, Typewriter.startTypewriter. rewrite Ho, <- Hc.
  apply lines_complete; [| |done].
  - unfold Typewriter.isAborted. cbn [Typewriter.aborted].
    rewrite Hc, lookup_app_r by lia. by rewrite Nat.sub_diag.
  - cbn [Typewriter.lines]. unfold Typewriter.clearLines. rewrite paint_loaded by done.
    unfold linesAt. rewrite take_0, drop_0. cbn [app].
    apply list_eq. intros j. rewrite !list_lookup_fmap, capture_lookup.
    by destruct (markup_lines m !! j).
Qed.
End Reveal.

Lemma begin_completes (m : Markup) (env : Env) (a : App) (id : positive) (h1 : Host.t) :
  letterLoaded m (typewriter a) -> wfHost (host a) ->
  Host.takeTimer id (host a) = Some (BeginTypewriter, h1) ->
  exists ids,
    Typewriter.lines (typewriter (run (firing env (id :: ids)) a)) = typedLetter m /\
    replayBtn_hidden (run (firing env (id :: ids)) a) = false /\
    gallery (run (firing env (id :: ids)) a) = gallery a /\
    envelope (run (firing env (id :: ids)) a) = envelope a.
Proof.
  intros L W0 T.
  assert (wfHost h1) as W by apply (wf_takeTimer _ _ _ _ T W0).
  destruct (start_completes m env _ (typewriter a) h1 (replayBtn_hidden a) eq_refl L W)
    as [ids H].
  exists ids.
  destruct (fire_typewriter env id a _ h1 _ T eq_refl) as (D1 & D2 & D3 & D4 & D5).
  cbn [firing map run]. fold (firing env ids).
  destruct (H (dispatch env (TimerFires id) a) D1 D2 D3) as (R1 & R2 & R3 & R4).
  by rewrite R3, R4.
Qed.

(** X15. Once the typewriter is about to start, the callbacks it sets, run
    one after the other, type the whole letter: at the end every line shows
    its own markup without a cursor, and the replay button is shown. *)
Theorem reveal_types_whole_letter (m : Markup) (env0 env : Env) (evs : list (Env * Event))
    (id : positive) (h1 : Host.t) :
  let a := run evs (initialApp m env0) in
  Host.takeTimer id (host a) = Some (BeginTypewriter, h1) ->
  exists ids,
    Typewriter.lines (typewriter (run (firing env (id :: ids)) a)) = typedLetter m /\
    replayBtn_hidden (run (firing env (id :: ids)) a) = false.
Proof.
  intros a T.
  destruct (begin_completes m env a id h1 (letterLoaded_run m env0 evs)
              (wf_host_reachable a ltac:(by exists m, env0, evs)) T) as (ids & H1 & H2 & _).
  by exists ids.
Qed.

Lemma reveal_types_whole_letter_witness :
  let a := run ((Sample.env 0, EnvelopeClick) :: Sample.fires [1]%positive)
               (initialApp Sample.markup (Sample.env 0)) in
  Host.takeTimer 4 (host a) = Some (BeginTypewriter, Host.clearTimer 4 (host a)) /\
  exists ids,
    Typewriter.lines (typewriter (run (firing (Sample.env 0) (4%positive :: ids)) a)) =
      typedLetter Sample.markup /\
    replayBtn_hidden (run (firing (Sample.env 0) (4%positive :: ids)) a) = false.
Proof.
  intros a.
  assert (Host.takeTimer 4 (host a) = Some (BeginTypewriter, Host.clearTimer 4 (host a))) as T
    by (vm_compute; reflexivity).
  refine (conj T _).
  exact (reveal_types_whole_letter Sample.markup (Sample.env 0) (Sample.env 0)
           ((Sample.env 0, EnvelopeClick) :: Sample.fires [1]%positive) 4 _ T).
Defined.


(** ** Page transitions *)

Lemma takeFrame_fresh task h :
  wfHost h ->
  exists h1,
    Host.takeFrame (Host.nextFrame h) (snd (Host.requestAnimationFrame task h)) =
      Some (task, h1) /\
    wfHost h1 /\ Host.nextFrame h1 = Pos.succ (Host.nextFrame h).
Proof.
  intros W. pose proof (wf_raf task h W) as W'.
  destruct W as [_ [Hf _]].
  unfold Host.takeFrame, Host.findFrame. cbn [Host.requestAnimationFrame snd Host.frames].
  assert (forall l, (forall t, t ∈ l -> (Host.frame_id t < Host.nextFrame h)%positive) ->
            forall x, Host.frame_id x = Host.nextFrame h ->
            List.find (fun y => bool_decide (Host.frame_id y = Host.nextFrame h)) (l ++ [x]) =
            Some x) as F.
  { induction l as [|y l IH]; intros Hl x Hx; simpl.
    - by rewrite bool_decide_eq_true_2.
    - rewrite bool_decide_eq_false_2; [apply IH; [|done]|].
      + intros t Hin. apply Hl. by right.
      + specialize (Hl y ltac:(left)). lia. }
  rewrite F; [|done|done]. cbn [Host.frame_task].
  eexists. split; [reflexivity|]. split; [by apply wf_cancel|done].
Qed.

(** X16. [showPage] takes the class [active] from every section at once and
    records the new page; the section of the new page becomes active when
    the second of the two animation frames it requests has run, and it is
    then the only active one. *)
Theorem showPage_activates_after_two_frames (a : App) (p : Page) (env1 env2 : Env) :
  reachable a ->
  let a1 := showPage p a in
  let a2 := dispatch env1 (FrameFires (Host.nextFrame (host a))) a1 in
  let a3 := dispatch env2 (FrameFires (Host.nextFrame (host a1))) a2 in
  pages a1 = noneActive p /\ pages a2 = noneActive p /\ pages a3 = onlyActive p.
Proof.
  intros R a1 a2 a3. pose proof (wf_host_reachable a R) as W.
  destruct (takeFrame_fresh (ShowPageOuter p) (host a) W) as (h1 & T1 & W1 & N1).
  destruct (takeFrame_fresh (ShowPageInner p) h1 W1) as (h2 & T2 & W2 & N2).
  assert (host a1 = snd (Host.requestAnimationFrame (ShowPageOuter p) (host a))) as H1 by done.
  assert (pages a1 = noneActive p) as P1 by done.
  assert (a2 = setHost (snd (Host.requestAnimationFrame (ShowPageInner p) h1)) a1) as E2.
  { unfold a2. cbn [dispatch]. rewrite H1, T1. done. }
  assert (Host.nextFrame (host a1) = Host.nextFrame h1) as N by (by rewrite N1, H1).
  assert (a3 = setPages (activate p (noneActive p))
                 (setHost h2 a2)) as E3.
  { unfold a3. cbn [dispatch]. rewrite N. rewrite E2 at 1. proj_simpl. rewrite T2.
    cbn [runTask]. by rewrite E2. }
  split; [done|]. split; [by rewrite E2|]. rewrite E3. proj_simpl.
  unfold activate, onlyActive, noneActive. cbn. by destruct p.
Qed.

Lemma showPage_activates_after_two_frames_witness :
  reachable Sample.app /\
  pages (dispatch (Sample.env 0) (FrameFires (Host.nextFrame (host (showPage PROPOSAL Sample.app))))
           (dispatch (Sample.env 0) (FrameFires (Host.nextFrame (host Sample.app)))
              (showPage PROPOSAL Sample.app))) = onlyActive PROPOSAL.
Proof.
  assert (reachable Sample.app) as R by (exists Sample.markup, (Sample.env 0), []; reflexivity).
  refine (conj R _).
  exact (proj2 (proj2 (showPage_activates_after_two_frames Sample.app PROPOSAL
                         (Sample.env 0) (Sample.env 0) R))).
Defined.


(** ** The loop of the confetti *)

Lemma isConfettiFrame_eq t : isConfettiFrame t = true <-> t = ConfettiFrame.
Proof. by destruct t. Qed.

Lemma named_frames_le_1 p h (handle : option positive) :
  wfHost h ->
  (forall f, f ∈ Host.frames h -> p (Host.frame_task f) = true ->
     handle = Some (Host.frame_id f)) ->
  (length (pendingFrames p h) <= 1)%nat.
Proof.
  intros [_ [_ Hd]] H. destruct handle as [i|].
  - apply (same_key_le_1 Host.frame_id _ _ i Hd). intros f Hf Ef.
    specialize (H f Hf Ef). congruence.
  - assert (pendingFrames p h = []) as ->; [|simpl; lia].
    apply pendingFrames_nil. intros f Hf. destruct (p _) eqn:Ef; [|done].
    specialize (H f Hf Ef). congruence.
Qed.

(** X17. In every reachable state the loop of the confetti has at most one
    frame pending, the one [confettiAnimationId] names, and none among the
    timers; while the handle is null no frame of the loop is pending. The
    replay handler leaves no piece, no pending frame of the loop and a null
    handle. *)
Theorem confetti_loop_is_single (a : App) :
  reachable a ->
  let s := confetti a in
  (length (pendingFrames isConfettiFrame (host a)) <= 1)%nat /\
  (forall f, f ∈ pendingFrames isConfettiFrame (host a) ->
     Confetti.confettiAnimationId s = Some (Host.frame_id f)) /\
  pendingTimers isConfettiFrame (host a) = [] /\
  (forall env,
     Confetti.confettiPieces (confetti (replay env a)) = [] /\
     Confetti.confettiAnimationId (confetti (replay env a)) = None /\
     pendingFrames isConfettiFrame (host (replay env a)) = []).
Proof.
  intros R s. destruct (confettiInv_reachable a R) as [A B]. fold s in B.
  pose proof (wf_host_reachable a R) as W.
  refine (conj _ (conj _ (conj _ _))).
  - apply (named_frames_le_1 _ _ (Confetti.confettiAnimationId s) W).
    intros f Hf Ef. apply B; [done|by apply isConfettiFrame_eq].
  - intros f Hf. apply list_elem_of_In, filter_In in Hf as [Hf Ef].
    apply B; [by apply list_elem_of_In|by apply isConfettiFrame_eq].
  - apply filter_none, Forall_forall. intros t Ht. destruct (isConfettiFrame _) eqn:Et; [|done].
    apply isConfettiFrame_eq in Et. by destruct (A t Ht).
  - intros env.
    assert (reachable (replay env a)) as R' by apply (reachable_dispatch env ReplayClick a R).
    destruct (confettiInv_reachable _ R') as [_ B2].
    assert (Confetti.confettiAnimationId (confetti (replay env a)) = None) as Hn
      by apply replay_confetti.
    split; [by rewrite replay_eq|]. split; [done|].
    apply pendingFrames_nil. intros f Hf.
    destruct (isConfettiFrame _) eqn:Ef; [|done].
    apply isConfettiFrame_eq in Ef. specialize (B2 f Hf Ef). congruence.
Qed.

Lemma confetti_loop_is_single_witness :
  let a := run [(Sample.env 0, YesClick)] Sample.app in
  reachable a /\
  Host.frame_id <$> pendingFrames isConfettiFrame (host a) = [1%positive] /\
  Confetti.confettiAnimationId (confetti a) = Some 1%positive.
Proof.
  intros a. assert (reachable a) as R by apply reachable_run.
  assert (Host.frame_id <$> pendingFrames isConfettiFrame (host a) = [1%positive]) as E
    by (vm_compute; reflexivity).
  refine (conj R (conj E _)).
  destruct (confetti_loop_is_single a R) as (_ & H & _).
  destruct (pendingFrames isConfettiFrame (host a)) as [|f [|]] eqn:P; try discriminate.
  injection E as E. rewrite <- E. apply H. left.
Defined.


(** ** The envelope *)

Lemma runTask_envelope env task a :
  Envelope.envelopeOpened (envelope (runTask env task a)) =
  Envelope.envelopeOpened (envelope a).
Proof. destruct task; unfold runTask, later, showPage; on_eq'; proj_simpl; done. Qed.

Lemma dispatch_envelope env ev a :
  isReplay ev = false ->
  Envelope.envelopeOpened (envelope a) = true ->
  Envelope.envelopeOpened (envelope (dispatch env ev a)) = true.
Proof.
  intros N O. destruct ev; cbn [dispatch]; try discriminate.
  - unfold toggle. by case_match.
  - unfold toggle. by repeat case_match.
  - by on_eq'.
  - unfold mousemove. repeat case_match; on_eq'; done.
  - unfold touchmove. case_match; on_eq'; done.
  - unfold touchstart. by on_eq'.
  - unfold yesClick, later. on_eq'. by proj_simpl.
  - unfold openEnvelope, Envelope.openEnvelope. by rewrite O.
  - unfold openEnvelope, Envelope.openEnvelope. rewrite O. by case_match.
  - unfold resize. by on_eq'.
  - destruct (Host.takeTimer id (host a)) as [[t hs]|]; [|done].
    by rewrite runTask_envelope.
  - destruct (Host.takeFrame id (host a)) as [[t hs]|]; [|done].
    by rewrite runTask_envelope.
Qed.

Lemma opened_run evs a :
  noReplay evs -> Envelope.envelopeOpened (envelope a) = true ->
  Envelope.envelopeOpened (envelope (run evs a)) = true.
Proof.
  revert a. induction evs as [|[env ev] evs IH]; intros a N O; simpl; [done|].
  apply Forall_cons in N as [N1 N2]. apply IH; [done|]. by apply dispatch_envelope.
Qed.

(** X18. Between two replays the envelope opens once: when it has been
    opened, it stays so through every run without a replay, and a click or
    a key on it leaves the whole page as it is. *)
Theorem envelope_opens_once (a : App) (evs : list (Env * Event)) (env : Env) (key : string) :
  Envelope.envelopeOpened (envelope a) = true -> noReplay evs ->
  let a' := run evs a in
  Envelope.envelopeOpened (envelope a') = true /\
  dispatch env EnvelopeClick a' = a' /\
  dispatch env (EnvelopeKey key) a' = a'.
Proof.
  intros O N a'. pose proof (opened_run evs a N O) as O'. fold a' in O'.
  split; [done|]. cbn [dispatch]. unfold openEnvelope, Envelope.openEnvelope. rewrite O'.
  split; [done|]. by case_match.
Qed.

Lemma envelope_opens_once_witness :
  let a := run [(Sample.env 0, EnvelopeClick)] Sample.app in
  Envelope.envelopeOpened (envelope a) = true /\
  noReplay Sample.midReveal /\
  dispatch (Sample.env 0) EnvelopeClick (run Sample.midReveal a) = run Sample.midReveal a.
Proof.
  intros a.
  assert (Envelope.envelopeOpened (envelope a) = true) as O by reflexivity.
  assert (noReplay Sample.midReveal) as N by (repeat constructor).
  refine (conj O (conj N _)).
  exact (proj1 (proj2 (envelope_opens_once a Sample.midReveal (Sample.env 0) "Enter" O N))).
Defined.

Lemma showGallery_row s h : Gallery.row_hidden (fst (Gallery.showGallery s h)) = false.
Proof.
  unfold Gallery.showGallery, Gallery.startSideGalleries, Gallery.stopSideGalleries,
    Gallery.setHidden, Gallery.setIds.
  destruct (Gallery.leftAutoPlayId s) eqn:E1; destruct (Gallery.rightAutoPlayId s) eqn:E2;
    cbn; rewrite ?E1, ?E2; cbn; done.
Qed.

(** X19. A click on the closed envelope leads to the letter: the click
    opens the flap and sets one timer; when that timer and then the timers
    the typewriter sets have run, the envelope has given way, the row of
    the letter and the galleries is visible, every line of the letter shows
    its own markup and the replay button is shown. *)
Theorem envelope_click_types_letter (m : Markup) (env0 env : Env) (evs : list (Env * Event)) :
  let a := run evs (initialApp m env0) in
  Envelope.envelopeOpened (envelope a) = false ->
  exists ids,
    let a' := run ((env, EnvelopeClick) :: firing env ids) a in
    envelope a' = revealedEnvelope /\
    Gallery.row_hidden (gallery a') = false /\
    Typewriter.lines (typewriter a') = typedLetter m /\
    replayBtn_hidden a' = false.
Proof.
  intros a C.
  assert (wfHost (host a)) as W by (apply wf_host_reachable; by exists m, env0, evs).
  pose proof (letterLoaded_run m env0 evs) as L. fold a in L.
  set (v := {| Envelope.envelopeOpened := true;
               Envelope.wrapper_opened := true;
               Envelope.wrapper_revealed := Envelope.wrapper_revealed (envelope a);
               Envelope.prompt_hidden := Envelope.prompt_hidden (envelope a);
               Envelope.card_revealing := Envelope.card_revealing (envelope a) |}).
  set (a1 := dispatch env EnvelopeClick a).
  assert (a1 = later EnvelopeReveal 900 (setEnvelope v a)) as E1.
  { unfold a1. cbn [dispatch]. unfold openEnvelope, Envelope.openEnvelope. by rewrite C. }
  destruct (takeTimer_fresh EnvelopeReveal 900 (host a) W) as (h1 & T1 & W1).
  set (id1 := Host.nextTimer (host a)) in *.
  set (a2 := dispatch env (TimerFires id1) a1).
  set (hg := snd (Gallery.showGallery (gallery a) h1)).
  assert (wfHost hg) as Wg by (by apply wf_showGallery).
  assert (host a2 = snd (Host.setTimeout BeginTypewriter 600 hg) /\
          typewriter a2 = typewriter a /\
          envelope a2 = revealedEnvelope /\
          gallery a2 = fst (Gallery.showGallery (gallery a) h1)) as (H2 & Tw2 & En2 & G2).
  { assert (a2 = runTask env EnvelopeReveal (setHost h1 a1)) as ->.
    { unfold a2. cbn [dispatch]. replace (host a1) with
        (snd (Host.setTimeout EnvelopeReveal 900 (host a))) by (by rewrite E1).
      by rewrite T1. }
    rewrite E1. unfold runTask, later. on_eq'. proj_simpl. done. }
  destruct (takeTimer_fresh BeginTypewriter 600 hg Wg) as (h2 & T2 & W2).
  rewrite <- H2 in T2.
  assert (wfHost (host a2)) as Wa2 by (rewrite H2; by apply wf_setTimeout).
  assert (letterLoaded m (typewriter a2)) as L2 by (by rewrite Tw2).
  destruct (begin_completes m env a2 (Host.nextTimer hg) h2 L2 Wa2 T2)
    as (ids & R1 & R2 & R3 & R4).
  exists (id1 :: Host.nextTimer hg :: ids).
  cbn zeta. change (run ((env, EnvelopeClick) :: firing env (id1 :: Host.nextTimer hg :: ids)) a)
    with (run (firing env (Host.nextTimer hg :: ids)) a2).
  rewrite R4, R3, En2, G2, showGallery_row. done.
Qed.

Lemma envelope_click_types_letter_witness :
  let a := run [] (initialApp Sample.markup (Sample.env 0)) in
  Envelope.envelopeOpened (envelope a) = false /\
  exists ids,
    let a' := run ((Sample.env 0, EnvelopeClick) :: firing (Sample.env 0) ids) a in
    envelope a' = revealedEnvelope /\
    Gallery.row_hidden (gallery a') = false /\
    Typewriter.lines (typewriter a') = typedLetter Sample.markup /\
    replayBtn_hidden a' = false.
Proof.
  intros a.
  assert (Envelope.envelopeOpened (envelope a) = false) as C by reflexivity.
  refine (conj C _).
  exact (envelope_click_types_letter Sample.markup (Sample.env 0) (Sample.env 0) [] C).
Defined.


(** ** Stars *)

Local Open Scope Q_scope.










Local Close Scope Q_scope.


(** ** Starting and stopping the hearts *)

Lemma spawnSoon_spec n i h :
  Host.timers (Hearts.spawnSoon n i h) =
    Host.timers h ++
    map (fun k =>
           {| Host.timer_id := Nat.iter k Pos.succ (Host.nextTimer h);
              Host.timer_kind := Host.Timeout;
              Host.timer_delay := (Num.ofnat (i + k) * 200)%Q;
              Host.timer_task := SpawnHeart |}) (seq 0 n) /\
  Host.nextTimer (Hearts.spawnSoon n i h) = Nat.iter n Pos.succ (Host.nextTimer h) /\
  Host.frames (Hearts.spawnSoon n i h) = Host.frames h /\
  Host.nextFrame (Hearts.spawnSoon n i h) = Host.nextFrame h.
Proof.
  revert i h. induction n as [|n IH]; intros i h; cbn [Hearts.spawnSoon].
  - cbn. by rewrite app_nil_r.
  - destruct (IH (S i) (snd (Host.setTimeout SpawnHeart (Num.ofnat i * 200) h)))
      as (E1 & E2 & E3 & E4).
    rewrite E1, E2, E3, E4. cbn [Host.setTimeout Host.schedule snd Host.timers Host.nextTimer
                                 Host.frames Host.nextFrame].
    split; [|split; [|done]].
    + rewrite <- app_assoc. f_equal. cbn [seq map app]. rewrite Nat.add_0_r. f_equal.
      rewrite <- seq_shift, map_map. apply map_ext. intros k.
      replace (i + S k)%nat with (S i + k)%nat by lia. by rewrite Nat.iter_succ_r.
    + by rewrite Nat.iter_succ_r.
Qed.

Lemma iter_succ_ge k p : (p <= Nat.iter k Pos.succ p)%positive.
Proof.
  induction k as [|k IH]; [simpl; lia|]. rewrite Nat.iter_succ.
  set (q := Nat.iter k Pos.succ p) in *. lia.
Qed.

Lemma iter_succ_gt k p : (0 < k)%nat -> (p < Nat.iter k Pos.succ p)%positive.
Proof.
  destruct k as [|k]; intros H; [lia|]. rewrite Nat.iter_succ.
  pose proof (iter_succ_ge k p). set (q := Nat.iter k Pos.succ p) in *. lia.
Qed.

Lemma filter_all {A} (P : A -> Prop) `{!forall x, Decision (P x)} (l : list A) :
  (forall x, x ∈ l -> P x) -> filter P l = l.
Proof.
  induction l as [|x l IH]; intros Hl; [done|].
  rewrite filter_cons_True by (apply Hl; left). f_equal. apply IH. intros y Hy. apply Hl. by right.
Qed.

(** X21. On stopped hearts [startFloatingHearts] sets the interval of 400ms
    and eight timeouts that spawn a heart after 0, 200, ..., 1400ms;
    [stopFloatingHearts] clears the interval and nothing else, so the eight
    early hearts are still spawned after it. While the interval runs a
    second start changes nothing. *)
Theorem hearts_stop_keeps_early_spawns (s : Hearts.State) (h : Host.t) :
  wfHost h ->
  let id := Host.nextTimer h in
  let started := Hearts.startFloatingHearts s h in
  let stopped := Hearts.stopFloatingHearts (fst started) (snd started) in
  (Hearts.heartInterval s = None ->
     Hearts.heartInterval (fst started) = Some id /\
     Host.timers (snd started) =
       Host.timers h ++
       {| Host.timer_id := id; Host.timer_kind := Host.Interval;
          Host.timer_delay := 400; Host.timer_task := SpawnHeart |} ::
       map (earlySpawn id) (seq 0 8) /\
     Hearts.heartInterval (fst stopped) = None /\
     Host.timers (snd stopped) = Host.timers h ++ map (earlySpawn id) (seq 0 8)) /\
  (Hearts.heartInterval s <> None -> started = (s, h)).
Proof.
  intros W id started stopped. split.
  - intros Hn.
    assert (Hearts.heartInterval (fst started) = Some id /\
            Host.timers (snd started) =
              Host.timers h ++
              {| Host.timer_id := id; Host.timer_kind := Host.Interval;
                 Host.timer_delay := 400; Host.timer_task := SpawnHeart |} ::
              map (earlySpawn id) (seq 0 8)) as [E1 E2].
    { unfold started, Hearts.startFloatingHearts. rewrite Hn.
      cbn [Host.setInterval Host.schedule fst snd Hearts.heartInterval].
      split; [done|].
      match goal with |- Host.timers (Hearts.spawnSoon 8 0 ?h1) = _ =>
        destruct (spawnSoon_spec 8 0 h1) as (E & _) end.
      rewrite E. cbn [Host.timers Host.nextTimer]. rewrite <- app_assoc. reflexivity. }
    split; [done|]. split; [done|].
    unfold stopped, Hearts.stopFloatingHearts. rewrite E1.
    cbn [fst snd Hearts.heartInterval Host.clearTimer Host.timers]. split; [done|].
    rewrite E2. rewrite filter_app. f_equal.
    + apply filter_all. intros t Ht. destruct W as [[Hlt _] _]. specialize (Hlt t Ht).
      fold id in Hlt. lia.
    + rewrite filter_cons_False by (cbn; intros N; by apply N).
      apply filter_all. intros t Ht. apply list_elem_of_In, in_map_iff in Ht as (k & <- & _).
      cbn [earlySpawn Host.timer_id]. pose proof (iter_succ_gt (S k) id ltac:(lia)). lia.
  - intros Hs. unfold started, Hearts.startFloatingHearts.
    by destruct (Hearts.heartInterval s).
Qed.

Lemma hearts_stop_keeps_early_spawns_witness :
  let r := Hearts.startFloatingHearts (hearts Sample.app) (host Sample.app) in
  wfHost (host Sample.app) /\
  Hearts.heartInterval (hearts Sample.app) = None /\
  Host.timers (snd (Hearts.stopFloatingHearts (fst r) (snd r))) =
    Host.timers (host Sample.app) ++ map (earlySpawn 1) (seq 0 8).
Proof.
  intros r.
  assert (wfHost (host Sample.app)) as W by apply wf_empty.
  assert (Hearts.heartInterval (hearts Sample.app) = None) as N by reflexivity.
  refine (conj W (conj N _)).
  exact (proj2 (proj2 (proj2
           (proj1 (hearts_stop_keeps_early_spawns (hearts Sample.app) (host Sample.app) W) N)))).
Defined.


(** ** From Yes to the congratulations *)

Lemma find_unique {A} (key : A -> positive) (l : list A) (x : A) :
  NoDup (key <$> l) -> x ∈ l ->
  List.find (fun y => bool_decide (key y = key x)) l = Some x.
Proof.
  induction l as [|y l IH]; intros Hd Hx; [by apply elem_of_nil in Hx|].
  rewrite fmap_cons in Hd. apply NoDup_cons in Hd as [Hy Hd]. cbn [List.find].
  apply elem_of_cons in Hx as [->|Hx].
  - by rewrite bool_decide_eq_true_2.
  - rewrite bool_decide_eq_false_2; [by apply IH|].
    intros E. apply Hy. rewrite E. apply list_elem_of_fmap. by exists x.
Qed.

Lemma fire_timeout env a t :
  wfHost (host a) -> t ∈ Host.timers (host a) -> Host.timer_kind t = Host.Timeout ->
  dispatch env (TimerFires (Host.timer_id t)) a =
  runTask env (Host.timer_task t) (setHost (Host.clearTimer (Host.timer_id t) (host a)) a).
Proof.
  intros [[_ Hd] _] Ht Hk. cbn [dispatch]. unfold Host.takeTimer, Host.findTimer.
  by rewrite (find_unique Host.timer_id _ t Hd Ht), Hk.
Qed.

Lemma fire_frame env a f :
  wfHost (host a) -> f ∈ Host.frames (host a) ->
  dispatch env (FrameFires (Host.frame_id f)) a =
  runTask env (Host.frame_task f)
    (setHost (Host.cancelAnimationFrame (Host.frame_id f) (host a)) a).
Proof.
  intros [_ [_ Hd]] Hf. cbn [dispatch]. unfold Host.takeFrame, Host.findFrame.
  by rewrite (find_unique Host.frame_id _ f Hd Hf).
Qed.

Lemma startStarfield_running env s h :
  Starfield.starAnimId (fst (Starfield.startStarfield env s h)) <> None.
Proof.
  unfold Starfield.startStarfield. destruct (Starfield.starAnimId s) eqn:E; cbn; by rewrite ?E.
Qed.

Lemma stopFloatingHearts_stopped s h :
  Hearts.heartInterval (fst (Hearts.stopFloatingHearts s h)) = None.
Proof. unfold Hearts.stopFloatingHearts. by destruct (Hearts.heartInterval s) eqn:E. Qed.

(** X22. A click on Yes leads to the congratulations page: when the timer
    of the transition, the two animation frames of [showPage] and the timer
    that starts the starfield have run, the congratulations section is the
    only active one, the loop of the starfield runs and the interval of the
    hearts is cleared. *)
Theorem yes_leads_to_congratulations (a : App) (env : Env) :
  reachable a ->
  exists t1 f1 f2 t2,
    let a' := run [(env, YesClick); (env, TimerFires t1); (env, FrameFires f1);
                   (env, FrameFires f2); (env, TimerFires t2)] a in
    pages a' = onlyActive CONGRATS /\
    Starfield.starAnimId (starfield a') <> None /\
    Hearts.heartInterval (hearts a') = None.
Proof.
  intros R. pose proof (wf_host_reachable a R) as W.
  (* the click *)
  set (hs := snd (Hearts.stopFloatingHearts (hearts a) (host a))).
  set (hc := snd (Confetti.launchConfetti env (confetti a) hs)).
  assert (wfHost hc) as Wc by (apply wf_launchConfetti; by apply wf_stopFloatingHearts).
  set (tY := {| Host.timer_id := Host.nextTimer hc; Host.timer_kind := Host.Timeout;
                Host.timer_delay := 1200; Host.timer_task := YesTransition |}).
  set (a1 := dispatch env YesClick a).
  assert (host a1 = snd (Host.setTimeout StopConfetti 5000
                           (snd (Host.setTimeout YesTransition 1200 hc))) /\
          hearts a1 = fst (Hearts.stopFloatingHearts (hearts a) (host a))) as [H1 Hh1].
  { unfold a1. cbn [dispatch]. unfold yesClick, later. on_eq. proj_simpl. done. }
  assert (wfHost (host a1)) as W1 by (rewrite H1; by do 2 apply wf_setTimeout).
  assert (tY ∈ Host.timers (host a1)) as HtY.
  { rewrite H1. cbn [Host.setTimeout Host.schedule snd Host.timers].
    apply elem_of_app. left. apply elem_of_app. right. by apply list_elem_of_singleton. }
  (* the transition *)
  set (hY := Host.clearTimer (Host.timer_id tY) (host a1)).
  assert (wfHost hY) as WY by (by apply wf_clearTimer).
  set (a2 := dispatch env (TimerFires (Host.timer_id tY)) a1).
  set (fO := {| Host.frame_id := Host.nextFrame hY;
                Host.frame_task := ShowPageOuter CONGRATS |}).
  set (tS := {| Host.timer_id := Host.nextTimer hY; Host.timer_kind := Host.Timeout;
                Host.timer_delay := 700; Host.timer_task := StartStarfield |}).
  assert (a2 = later StartStarfield 700 (showPage CONGRATS (setHost hY a1))) as E2.
  { unfold a2. by rewrite (fire_timeout env a1 tY W1 HtY eq_refl). }
  assert (host a2 = snd (Host.setTimeout StartStarfield 700
                           (snd (Host.requestAnimationFrame (ShowPageOuter CONGRATS) hY))) /\
          pages a2 = noneActive CONGRATS /\ hearts a2 = hearts a1) as (H2 & P2 & Hh2).
  { by rewrite E2. }
  assert (wfHost (host a2)) as W2 by (rewrite H2; by apply wf_setTimeout, wf_raf).
  assert (fO ∈ Host.frames (host a2)) as HfO.
  { rewrite H2. cbn. apply elem_of_app. right. by apply list_elem_of_singleton. }
  assert (tS ∈ Host.timers (host a2)) as HtS.
  { rewrite H2. cbn. apply elem_of_app. right. by apply list_elem_of_singleton. }
  (* the outer frame *)
  set (h3 := Host.cancelAnimationFrame (Host.frame_id fO) (host a2)).
  assert (wfHost h3) as W3 by (by apply wf_cancel).
  set (a3 := dispatch env (FrameFires (Host.frame_id fO)) a2).
  set (fI := {| Host.frame_id := Host.nextFrame h3;
                Host.frame_task := ShowPageInner CONGRATS |}).
  assert (a3 = setHost (snd (Host.requestAnimationFrame (ShowPageInner CONGRATS) h3))
                 (setHost h3 a2)) as E3.
  { unfold a3. by rewrite (fire_frame env a2 fO W2 HfO). }
  assert (host a3 = snd (Host.requestAnimationFrame (ShowPageInner CONGRATS) h3) /\
          pages a3 = pages a2 /\ hearts a3 = hearts a2) as (H3 & P3 & Hh3) by (by rewrite E3).
  assert (wfHost (host a3)) as W3' by (rewrite H3; by apply wf_raf).
  assert (fI ∈ Host.frames (host a3)) as HfI.
  { rewrite H3. cbn. apply elem_of_app. right. by apply list_elem_of_singleton. }
  assert (tS ∈ Host.timers (host a3)) as HtS3 by (by rewrite H3).
  (* the inner frame *)
  set (h4 := Host.cancelAnimationFrame (Host.frame_id fI) (host a3)).
  assert (wfHost h4) as W4 by (by apply wf_cancel).
  set (a4 := dispatch env (FrameFires (Host.frame_id fI)) a3).
  assert (a4 = setPages (activate CONGRATS (pages a3)) (setHost h4 a3)) as E4.
  { unfold a4. by rewrite (fire_frame env a3 fI W3' HfI). }
  assert (host a4 = h4 /\ pages a4 = onlyActive CONGRATS /\ hearts a4 = hearts a3)
    as (H4 & P4 & Hh4).
  { rewrite E4. proj_simpl. by rewrite P3, P2. }
  assert (wfHost (host a4)) as W4' by (by rewrite H4).
  assert (tS ∈ Host.timers (host a4)) as HtS4 by (by rewrite H4).
  (* the starfield *)
  set (a5 := dispatch env (TimerFires (Host.timer_id tS)) a4).
  assert (a5 = onStarfield (Starfield.startStarfield env)
                 (setHost (Host.clearTimer (Host.timer_id tS) (host a4)) a4)) as E5.
  { unfold a5. by rewrite (fire_timeout env a4 tS W4' HtS4 eq_refl). }
  exists (Host.timer_id tY), (Host.frame_id fO), (Host.frame_id fI), (Host.timer_id tS).
  cbn zeta. change (run _ a) with a5. rewrite E5. on_eq. proj_simpl.
  split; [done|]. split; [apply startStarfield_running|].
  rewrite Hh4, Hh3, Hh2, Hh1. apply stopFloatingHearts_stopped.
Qed.

Lemma yes_leads_to_congratulations_witness :
  reachable Sample.app /\
  exists t1 f1 f2 t2,
    let a' := run [(Sample.env 0, YesClick); (Sample.env 0, TimerFires t1);
                   (Sample.env 0, FrameFires f1); (Sample.env 0, FrameFires f2);
                   (Sample.env 0, TimerFires t2)] Sample.app in
    pages a' = onlyActive CONGRATS /\
    Starfield.starAnimId (starfield a') <> None /\
    Hearts.heartInterval (hearts a') = None.
Proof.
  assert (reachable Sample.app) as R by (exists Sample.markup, (Sample.env 0), []; reflexivity).
  refine (conj R _).
  exact (yes_leads_to_congratulations Sample.app (Sample.env 0) R).
Defined.


(** ** The throttle of the mouse listener *)

Lemma evadeNoButton_stamp env e s h :
  Evasion.lastEvadeCheck (fst (Evasion.evadeNoButton env e s h)) = Evasion.lastEvadeCheck s.
Proof. unfold Evasion.evadeNoButton. repeat case_match; done. Qed.

(** X23. The mouse listener is throttled: on the proposal page a mouse move
    that comes 50ms or more after the last one taken is taken, and stamps
    its time whether the button moves or not; a mouse move less than 50ms
    after it leaves the page as it is. Touches are not throttled. *)
Theorem mouse_moves_are_throttled (a : App) (env1 env2 : Env) (x1 y1 x2 y2 : Q) :
  currentPage (pages a) = PROPOSAL ->
  (50 <= now env1 - Evasion.lastEvadeCheck (evasion a))%Z ->
  (now env2 - now env1 < 50)%Z ->
  let a1 := dispatch env1 (MouseMove x1 y1) a in
  evasion a1 =
    fst (Evasion.evadeNoButton env1 (Evasion.Mouse x1 y1)
           (Evasion.setLastEvadeCheck (now env1) (evasion a)) (host a)) /\
  Evasion.lastEvadeCheck (evasion a1) = now env1 /\
  dispatch env2 (MouseMove x2 y2) a1 = a1 /\
  evasion (dispatch env2 (TouchMove [(x2, y2)]) a1) =
    fst (Evasion.evadeNoButton env2 (Evasion.Touch [(x2, y2)]) (evasion a1) (host a1)).
Proof.
  intros P T1 T2 a1.
  assert (a1 = onEvasion (Evasion.evadeNoButton env1 (Evasion.Mouse x1 y1))
                 (setEvasion (Evasion.setLastEvadeCheck (now env1) (evasion a)) a)) as E1.
  { unfold a1. cbn [dispatch]. unfold mousemove. rewrite decide_True by done.
    destruct (Z.ltb_spec (now env1 - Evasion.lastEvadeCheck (evasion a)) 50); [lia|done]. }
  assert (evasion a1 =
            fst (Evasion.evadeNoButton env1 (Evasion.Mouse x1 y1)
                   (Evasion.setLastEvadeCheck (now env1) (evasion a)) (host a)) /\
          currentPage (pages a1) = PROPOSAL) as [Ee Ep].
  { rewrite E1. on_eq. proj_simpl. done. }
  assert (Evasion.lastEvadeCheck (evasion a1) = now env1) as El
    by (by rewrite Ee, evadeNoButton_stamp).
  refine (conj Ee (conj El (conj _ _))).
  - cbn [dispatch]. unfold mousemove. rewrite decide_True by done. rewrite El.
    destruct (Z.ltb_spec (now env2 - now env1) 50); [done|lia].
  - cbn [dispatch]. unfold touchmove. rewrite decide_True by done. on_eq. by proj_simpl.
Qed.

Lemma mouse_moves_are_throttled_witness :
  let a := run (Sample.exactSelection ++ [Sample.verify] ++ Sample.fires [1]%positive)
             Sample.app in
  currentPage (pages a) = PROPOSAL /\
  (50 <= now (Sample.env 0) - Evasion.lastEvadeCheck (evasion a))%Z /\
  (now (Sample.env 0) - now (Sample.env 0) < 50)%Z /\
  dispatch (Sample.env 0) (MouseMove 750 420) (dispatch (Sample.env 0) (MouseMove 750 420) a) =
    dispatch (Sample.env 0) (MouseMove 750 420) a.
Proof.
  intros a.
  assert (currentPage (pages a) = PROPOSAL) as P by (vm_compute; reflexivity).
  assert (50 <= now (Sample.env 0) - Evasion.lastEvadeCheck (evasion a))%Z as T1
    by (vm_compute; congruence).
  assert (now (Sample.env 0) - now (Sample.env 0) < 50)%Z as T2 by (vm_compute; reflexivity).
  refine (conj P (conj T1 (conj T2 _))).
  exact (proj1 (proj2 (proj2 (mouse_moves_are_throttled a (Sample.env 0) (Sample.env 0)
                                750 420 750 420 P T1 T2)))).
Defined.

